(** * WordPress-to-Payload migration: the HTML to Lexical converter

    A shallow embedding of [scripts/migrate-from-wordpress.ts]: the entity
    decoder [decodeHtmlEntities], the sanitizer [cleanWordPressHtml], the
    table and list parsers [parseHtmlTable] and [parseHtmlList], and the
    converter [htmlToLexical].

    JavaScript strings are sequences of UTF-16 code units, modelled as
    [list N].  Regular expressions are modelled by matchers that report the
    length of the match found at the head of a string, driven by one
    left-to-right scanner that plays the role of the [g] flag. *)

From Stdlib Require Import Ascii String.
From Stdlib Require Import List NArith Bool Arith Lia.
Import ListNotations.
Local Open Scope list_scope.
Set Warnings "-register-all".

(** ** Strings of UTF-16 code units *)

Definition jsstring := list N.

(** A source literal made of ASCII characters. *)
Definition lit (s : string) : jsstring :=
  map N_of_ascii (list_ascii_of_string s).

(** [v] between double quotes. *)
Definition quoted (v : jsstring) : jsstring := [34%N] ++ v ++ [34%N].

Definition isEmpty (s : jsstring) : bool :=
  match s with [] => true | _ :: _ => false end.

Fixpoint startsWith (p s : jsstring) : bool :=
  match p, s with
  | [], _ => true
  | a :: p', b :: s' => N.eqb a b && startsWith p' s'
  | _ :: _, [] => false
  end.

Fixpoint takeWhile (p : N -> bool) (s : jsstring) : jsstring :=
  match s with
  | c :: s' => if p c then c :: takeWhile p s' else []
  | [] => []
  end.

Fixpoint dropWhile (p : N -> bool) (s : jsstring) : jsstring :=
  match s with
  | c :: s' => if p c then dropWhile p s' else s
  | [] => []
  end.

Definition inRange (lo hi c : N) : bool := N.leb lo c && N.leb c hi.

(** [\d] *)
Definition isDigit (c : N) : bool := inRange 48 57 c.

(** [[0-9a-fA-F]] *)
Definition isHexDigit (c : N) : bool :=
  inRange 48 57 c || inRange 97 102 c || inRange 65 70 c.

(** White space and line terminators: what [String.prototype.trim] strips
    and what [\s] matches. *)
Definition isWhite (c : N) : bool :=
  inRange 9 13 c || N.eqb c 32 || N.eqb c 160 || N.eqb c 5760
  || inRange 8192 8202 c || N.eqb c 8232 || N.eqb c 8233
  || N.eqb c 8239 || N.eqb c 8287 || N.eqb c 12288 || N.eqb c 65279.

Definition trim (s : jsstring) : jsstring :=
  rev (dropWhile isWhite (rev (dropWhile isWhite s))).

(** ASCII case mapping.  With the [i] flag a pattern letter matches exactly
    its two ASCII cases: canonicalisation never maps a code unit above 127
    to one below. *)
Definition lowerAscii (c : N) : N :=
  if inRange 65 90 c then (c + 32)%N else c.

Fixpoint startsWithCI (p s : jsstring) : bool :=
  match p, s with
  | [], _ => true
  | a :: p', b :: s' => N.eqb (lowerAscii a) (lowerAscii b) && startsWithCI p' s'
  | _ :: _, [] => false
  end.

(** [s.toLowerCase().startsWith(p)] for a lower-case ASCII literal [p]
    without the letters i and k.  Only then is the test decided by the
    first [length p] code units: the sole code units above 127 whose lower
    case begins with an ASCII letter are U+0130 (giving i) and U+212A
    (giving k). *)
Definition lowerStartsWith (p s : jsstring) : bool :=
  startsWith p (map lowerAscii (firstn (length p) s)).

(** [s.includes(p)] *)
Fixpoint includes (p s : jsstring) : bool :=
  startsWith p s || match s with [] => false | _ :: s' => includes p s' end.

(** Position of the first suffix of [s] accepted by [p]. *)
Fixpoint indexWhere (p : jsstring -> bool) (s : jsstring) : option nat :=
  if p s then Some 0%nat
  else match s with
       | [] => None
       | _ :: s' => option_map S (indexWhere p s')
       end.

(** ** Scanning with a matcher

    A matcher looks at the head of its argument and answers with the length
    of the match (at least one code unit for every pattern of the script)
    and the data captured. *)

Section Scan.
Context {C : Type}.
Variable m : jsstring -> option (nat * C).

Inductive piece : Type :=
| Lit (t : jsstring)
| Hit (c : C).

Definition consLit (c : N) (ps : list piece) : list piece :=
  match ps with
  | Lit t :: r => Lit (c :: t) :: r
  | _ => Lit [c] :: ps
  end.

(** The pieces of [s]: unmatched text (possibly empty) alternating with
    matches, found left to right without overlap.  [skip] counts the code
    units still covered by the last match. *)
Fixpoint scanFrom (skip : nat) (s : jsstring) : list piece :=
  match s with
  | [] => [Lit []]
  | c :: s' =>
    match skip with
    | S k => scanFrom k s'
    | O =>
      match m s with
      | Some (len, cap) => Lit [] :: Hit cap :: scanFrom (pred len) s'
      | None => consLit c (scanFrom 0 s')
      end
    end
  end.

Definition scan (s : jsstring) : list piece := scanFrom 0 s.

(** [s.replace(/re/g, f)] *)
Definition replaceAll (f : C -> jsstring) (s : jsstring) : jsstring :=
  concat (map (fun p => match p with Lit t => t | Hit c => f c end) (scan s)).

(** The captures of all matches, in order. *)
Definition hits (s : jsstring) : list C :=
  flat_map (fun p => match p with Lit _ => [] | Hit c => [c] end) (scan s).

(** The text between the matches: [s.split(/re/)] for a pattern without
    capture groups. *)
Definition splitRe (s : jsstring) : list jsstring :=
  flat_map (fun p => match p with Lit t => [t] | Hit _ => [] end) (scan s).

(** The first match only: [s.match(/re/)] without the [g] flag. *)
Fixpoint firstMatch (s : jsstring) : option C :=
  match m s with
  | Some (_, cap) => Some cap
  | None => match s with [] => None | _ :: s' => firstMatch s' end
  end.
End Scan.

Arguments Lit {C} t.
Arguments Hit {C} c.

(** A matcher that captures the matched text itself. *)
Definition whole (m : jsstring -> option nat) (s : jsstring)
  : option (nat * jsstring) :=
  match m s with
  | Some n => Some (n, firstn n s)
  | None => None
  end.

(** [s.match(/re/g)]: the matched substrings. *)
Definition matchAll (m : jsstring -> option nat) (s : jsstring) : list jsstring :=
  hits (whole m) s.

(** [s.replace(/re/g, '')] *)
Definition deleteAll (m : jsstring -> option nat) (s : jsstring) : jsstring :=
  replaceAll (whole m) (fun _ => []) s.

(** [s.split(sep)] for a non-empty separator string. *)
Definition matchLit (sep : jsstring) (s : jsstring) : option (nat * unit) :=
  if startsWith sep s then Some (length sep, tt) else None.

Definition split (sep s : jsstring) : list jsstring := splitRe (matchLit sep) s.

(** [parts.join(sep)] *)
Fixpoint join (sep : jsstring) (parts : list jsstring) : jsstring :=
  match parts with
  | [] => []
  | [p] => p
  | p :: ps => p ++ sep ++ join sep ps
  end.

(** ** Numbers

    [parseInt] on a string of digits yields the Number nearest to the
    integer written (ties to even, [None] standing for Infinity), and
    [String.fromCharCode] keeps the low sixteen bits. *)

Definition digitValue (c : N) : N :=
  if inRange 48 57 c then (c - 48)%N
  else if inRange 97 102 c then (c - 87)%N
  else (c - 55)%N.

Definition digitsValue (radix : N) (ds : jsstring) : N :=
  fold_left (fun acc d => (acc * radix + digitValue d)%N) ds 0%N.

Definition toNumber (n : N) : option N :=
  let bits := N.size n in
  if N.leb bits 53 then Some n
  else
    let e := (bits - 53)%N in
    let q := N.shiftr n e in
    let r := (n - N.shiftl q e)%N in
    let half := N.shiftl 1 (e - 1) in
    let q' := if N.ltb half r || (N.eqb r half && N.odd q) then (q + 1)%N else q in
    let v := N.shiftl q' e in
    if N.leb (N.shiftl 1 1024) v then None else Some v.

Definition parseInt (ds : jsstring) (radix : N) : option N :=
  toNumber (digitsValue radix ds).

Definition fromCharCode (x : option N) : jsstring :=
  match x with
  | Some v => [N.modulo v 65536]
  | None => [0%N]
  end.

(** ** decodeHtmlEntities *)

Definition namedEntities : list (jsstring * jsstring) :=
  [ (lit "&nbsp;", lit " ");
    (lit "&amp;", lit "&");
    (lit "&lt;", lit "<");
    (lit "&gt;", lit ">");
    (lit "&quot;", [34%N]);
    (lit "&apos;", lit "'");
    (lit "&ndash;", [8211%N]);
    (lit "&mdash;", [8212%N]);
    (lit "&lsquo;", [8216%N]);
    (lit "&rsquo;", [8217%N]);
    (lit "&ldquo;", [8220%N]);
    (lit "&rdquo;", [8221%N]);
    (lit "&hellip;", [8230%N]);
    (lit "&copy;", [169%N]);
    (lit "&reg;", [174%N]);
    (lit "&trade;", [8482%N]);
    (lit "&euro;", [8364%N]);
    (lit "&pound;", [163%N]);
    (lit "&yen;", [165%N]);
    (lit "&cent;", [162%N]);
    (lit "&deg;", [176%N]);
    (lit "&plusmn;", [177%N]);
    (lit "&times;", [215%N]);
    (lit "&divide;", [247%N]);
    (lit "&frac12;", [189%N]);
    (lit "&frac14;", [188%N]);
    (lit "&frac34;", [190%N]) ].

(** [/&#(\d+);/], capturing the digits *)
Definition reDecimal (s : jsstring) : option (nat * jsstring) :=
  if startsWith (lit "&#") s then
    let r := skipn 2 s in
    let ds := takeWhile isDigit r in
    match ds, dropWhile isDigit r with
    | _ :: _, c :: _ => if N.eqb c 59 then Some (length ds + 3, ds)%nat else None
    | _, _ => None
    end
  else None.

(** [/&#x([0-9a-fA-F]+);/], capturing the digits *)
Definition reHex (s : jsstring) : option (nat * jsstring) :=
  if startsWith (lit "&#x") s then
    let r := skipn 3 s in
    let ds := takeWhile isHexDigit r in
    match ds, dropWhile isHexDigit r with
    | _ :: _, c :: _ => if N.eqb c 59 then Some (length ds + 4, ds)%nat else None
    | _, _ => None
    end
  else None.

Definition replaceNamed (decoded : jsstring) (e : jsstring * jsstring) : jsstring :=
  join (snd e) (split (fst e) decoded).

Definition decodeHtmlEntities (text : jsstring) : jsstring :=
  if isEmpty text then []
  else
    let decoded := fold_left replaceNamed namedEntities text in
    let decoded :=
      replaceAll reDecimal (fun code => fromCharCode (parseInt code 10)) decoded in
    let decoded :=
      replaceAll reHex (fun code => fromCharCode (parseInt code 16)) decoded in
    decoded.

(** ** The Lexical document tree

    The serialized nodes the converter builds.  Fields that hold the same
    constant on every node the script creates ([direction: 'ltr'],
    [format: ''], [indent: 0], [textFormat: 0], [version: 1], the undefined
    [width], [height] and [backgroundColor]) are left out; a list node's
    [listType] and [tag] are both decided by [ordered]. *)

Inductive LexicalNode : Type :=
| TextNode (text : jsstring)
| ParagraphNode (children : list LexicalNode)
| HeadingNode (level : N) (children : list LexicalNode)
| ListItemNode (children : list LexicalNode) (value : N)
| ListNode (ordered : bool) (start : N) (children : list LexicalNode)
| TableCellNode (children : list LexicalNode) (colSpan rowSpan headerState : N)
| TableRowNode (children : list LexicalNode)
| TableNode (children : list LexicalNode)
| RootNode (children : list LexicalNode).

Definition children (n : LexicalNode) : list LexicalNode :=
  match n with
  | TextNode _ => []
  | ParagraphNode c | HeadingNode _ c | ListItemNode c _ | ListNode _ _ c
  | TableCellNode c _ _ _ | TableRowNode c | TableNode c | RootNode c => c
  end.

(** [cond ? [{ type: 'text', text, version: 1 }] : []] *)
Definition textChildren (text : jsstring) : list LexicalNode :=
  if isEmpty text then [] else [TextNode text].

(** ** Patterns over markup *)

Definition isGt (s : jsstring) : bool := startsWith (lit ">") s.

(** [<xx[^>]*>[\s\S]*?</xx>]: an opener of [olen] code units, the rest of
    the tag up to the first [>], then as little as possible up to the first
    closer of [clen] code units. *)
Definition reElement (opener closer : jsstring -> bool) (olen clen : nat)
    (s : jsstring) : option nat :=
  if opener s then
    match indexWhere isGt (skipn olen s) with
    | Some i =>
      match indexWhere closer (skipn (olen + i + 1) s) with
      | Some j => Some (olen + i + 1 + j + clen)%nat
      | None => None
      end
    | None => None
    end
  else None.

(** [<xx[\s\S]*?</xx>]: the same without the tag end. *)
Definition reRegion (opener closer : jsstring) (s : jsstring) : option nat :=
  if startsWithCI opener s then
    match indexWhere (startsWithCI closer) (skipn (length opener) s) with
    | Some j => Some (length opener + j + length closer)%nat
    | None => None
    end
  else None.

(** [/<tr[^>]*>[\s\S]*?<\/tr>/gi] *)
Definition reRow : jsstring -> option nat :=
  reElement (startsWithCI (lit "<tr")) (startsWithCI (lit "</tr>")) 3 5.

Definition isCellOpen (s : jsstring) : bool :=
  startsWithCI (lit "<th") s || startsWithCI (lit "<td") s.

Definition isCellClose (s : jsstring) : bool :=
  startsWithCI (lit "</th>") s || startsWithCI (lit "</td>") s.

(** [/<t[hd][^>]*>[\s\S]*?<\/t[hd]>/gi] *)
Definition reCell : jsstring -> option nat :=
  reElement isCellOpen isCellClose 3 5.

(** [/<\/?t[hd][^>]*>/gi] *)
Definition reCellTag (s : jsstring) : option nat :=
  if startsWith (lit "<") s then
    let k := if startsWith (lit "/") (skipn 1 s) then 1%nat else 0%nat in
    let r := skipn (1 + k) s in
    if startsWithCI (lit "th") r || startsWithCI (lit "td") r then
      match indexWhere isGt (skipn 2 r) with
      | Some i => Some (1 + k + 2 + i + 1)%nat
      | None => None
      end
    else None
  else None.

(** [/<[^>]+>/g] *)
Definition reTag (s : jsstring) : option nat :=
  if startsWith (lit "<") s then
    match indexWhere isGt (skipn 1 s) with
    | Some (S i) => Some (S i + 2)%nat
    | _ => None
    end
  else None.

(** ** parseHtmlTable *)

Definition cellContent (cellHtml : jsstring) : jsstring :=
  decodeHtmlEntities (trim (deleteAll reTag (deleteAll reCellTag cellHtml))).

Definition parseCell (cellHtml : jsstring) : LexicalNode :=
  let isHeader := lowerStartsWith (lit "<th") cellHtml in
  TableCellNode [ParagraphNode (textChildren (cellContent cellHtml))]
                1 1 (if isHeader then 1%N else 0%N).

(** One turn of the loop over the cell matches. *)
Definition pushCell (cells : list LexicalNode) (cellHtml : jsstring)
  : list LexicalNode :=
  cells ++ [parseCell cellHtml].

(** One turn of the loop over the row matches. *)
Definition pushRow (rows : list LexicalNode) (rowHtml : jsstring)
  : list LexicalNode :=
  match matchAll reCell rowHtml with
  | [] => rows
  | cellMatches =>
    let cells := fold_left pushCell cellMatches [] in
    if Nat.ltb 0 (length cells) then rows ++ [TableRowNode cells] else rows
  end.

Definition parseHtmlTable (tableHtml : jsstring) : option LexicalNode :=
  match matchAll reRow tableHtml with
  | [] => None
  | rowMatches =>
    let rows := fold_left pushRow rowMatches [] in
    match rows with
    | [] => None
    | _ => Some (TableNode rows)
    end
  end.

(** ** The document tree of the HTML parser

    [node-html-parser] is an external package.  Its result is modelled as a
    forest of text nodes and elements; an element keeps its tag name and its
    attributes as written, in source order, and attribute names are compared
    as written.  An attribute without a value has value [None].  Text nodes
    hold their text as written: the model resolves no character references
    inside the tree.

    The model follows the package on markup whose elements are closed by
    their own closing tags, in order, and whose text holds no [&].  Outside
    of that the package goes its own way: it resolves character references
    in what [textContent] and [getAttribute] return, it closes a [li] or a
    [p] at the next opener of its kind, at the end of the input it puts the
    children of an element left open in the element's place, and it writes
    the attributes of an element it has not changed back as they were
    written.  The statements below are about markup on which the two agree,
    or hold whatever tree and text the parser gives. *)

Definition attribute : Type := jsstring * option jsstring.

Inductive node : Type :=
| Text (raw : jsstring)
| Elem (tag : jsstring) (attrs : list attribute) (kids : list node).

Fixpoint str_eqb (a b : jsstring) : bool :=
  match a, b with
  | [], [] => true
  | x :: a', y :: b' => N.eqb x y && str_eqb a' b'
  | _, _ => false
  end.

(** Tag names are compared without regard to ASCII case, as type selectors
    and the upper-cased [tagName] do. *)
Definition tagIs (name tag : jsstring) : bool :=
  str_eqb name (map lowerAscii tag).

Definition tagIn (names : list jsstring) (tag : jsstring) : bool :=
  existsb (fun n => tagIs n tag) names.

Fixpoint lookupAttr (name : jsstring) (attrs : list attribute)
  : option (option jsstring) :=
  match attrs with
  | [] => None
  | (k, v) :: r => if str_eqb k name then Some v else lookupAttr name r
  end.

(** [el.getAttribute(name)]; [None] is [undefined]. *)
Definition getAttribute (name : jsstring) (attrs : list attribute)
  : option jsstring :=
  match lookupAttr name attrs with
  | Some (Some v) => Some v
  | Some None => Some []
  | None => None
  end.

Definition hasAttribute (name : jsstring) (attrs : list attribute) : bool :=
  match lookupAttr name attrs with Some _ => true | None => false end.

(** [el.removeAttribute(name)] *)
Definition removeAttribute (name : jsstring) (attrs : list attribute)
  : list attribute :=
  filter (fun kv => negb (str_eqb (fst kv) name)) attrs.

(** Truthiness of a possibly undefined string. *)
Definition truthy (v : option jsstring) : bool :=
  match v with Some (_ :: _) => true | _ => false end.

(** *** Serialisation *)

Definition voidTags : list jsstring :=
  map lit ["area"; "base"; "br"; "col"; "embed"; "hr"; "img"; "input";
           "link"; "meta"; "param"; "source"; "track"; "wbr"]%string.

(** An attribute as [toString] writes it after a change to the element:
    the name, and the value between double quotes. *)
Definition attrToString (kv : attribute) : jsstring :=
  match snd kv with
  | Some v => lit " " ++ fst kv ++ lit "=" ++ [34%N] ++ v ++ [34%N]
  | None => lit " " ++ fst kv
  end.

Fixpoint toString (n : node) : jsstring :=
  match n with
  | Text raw => raw
  | Elem tag attrs kids =>
    let opening := lit "<" ++ tag ++ concat (map attrToString attrs) ++ lit ">" in
    if tagIn voidTags tag then opening
    else opening ++ concat (map toString kids) ++ lit "</" ++ tag ++ lit ">"
  end.

(** [el.innerHTML], and [root.toString()] for the forest under the root. *)
Definition innerHTML (kids : list node) : jsstring :=
  concat (map toString kids).

(** [el.textContent], with the text as written: the text nodes below, in
    document order.  The package resolves the character references in it;
    on text without [&] there is nothing to resolve. *)
Fixpoint textOf (n : node) : jsstring :=
  match n with
  | Text raw => raw
  | Elem _ _ kids => concat (map textOf kids)
  end.

Definition textContent (kids : list node) : jsstring :=
  concat (map textOf kids).

(** *** Selection *)

Definition selector : Type := jsstring -> list attribute -> bool.

(** [querySelectorAll]: the matching elements below, in document order. *)
Fixpoint selectNode (sel : selector) (n : node) : list node :=
  match n with
  | Text _ => []
  | Elem tag attrs kids =>
    (if sel tag attrs then [n] else []) ++ flat_map (selectNode sel) kids
  end.

Definition querySelectorAll (sel : selector) (ns : list node) : list node :=
  flat_map (selectNode sel) ns.

(** [el.querySelector(sel)] is not null. *)
Definition hasMatch (sel : selector) (ns : list node) : bool :=
  match querySelectorAll sel ns with [] => false | _ :: _ => true end.

(** *** Parsing

    A model of [parse(html, { lowerCaseTagName: false, comment: false })]:
    tags are found left to right, the text between them becomes text nodes,
    comments are dropped, void and self-closing tags become leaves, the
    content of [script], [noscript], [style] and [pre] is kept as one text
    node, a closing tag closes the nearest open element of that name, and
    whatever is still open at the end is closed there. *)

Inductive token : Type :=
| TComment
| TOpen (name : jsstring) (attrs : list attribute) (selfClosing : bool)
| TRaw (name : jsstring) (attrs : list attribute) (content : jsstring)
| TClose (name : jsstring).

Definition isLetter (c : N) : bool := inRange 97 122 c || inRange 65 90 c.

Definition isNameChar (c : N) : bool :=
  isLetter c || isDigit c || N.eqb c 45 || N.eqb c 46 || N.eqb c 58 || N.eqb c 95.

Definition isQuote (c : N) : bool := N.eqb c 34 || N.eqb c 39.

Definition notWhite (c : N) : bool := negb (isWhite c).

(** One attribute at the head of the raw attribute text. *)
Definition attrAt (s : jsstring) : option (nat * attribute) :=
  let name := takeWhile isNameChar s in
  match name with
  | [] => None
  | c :: _ =>
    if isLetter c then
      let r := dropWhile isNameChar s in
      let ws1 := takeWhile isWhite r in
      let r1 := dropWhile isWhite r in
      let bare := Some (length name, (name, None)) in
      if startsWith (lit "=") r1 then
        let ws2 := takeWhile isWhite (skipn 1 r1) in
        let r2 := dropWhile isWhite (skipn 1 r1) in
        let upto := (length name + length ws1 + 1 + length ws2)%nat in
        let unquoted :=
          match takeWhile notWhite r2 with
          | [] => bare
          | v => Some (upto + length v, (name, Some v))%nat
          end in
        match r2 with
        | q :: r3 =>
          if isQuote q then
            match indexWhere (startsWith [q]) r3 with
            | Some j => Some (upto + 1 + j + 1, (name, Some (firstn j r3)))%nat
            | None => unquoted
            end
          else unquoted
        | [] => bare
        end
      else bare
    else None
  end.

(** A repeated attribute keeps its first occurrence. *)
Definition addAttr (attrs : list attribute) (kv : attribute) : list attribute :=
  if hasAttribute (fst kv) attrs then attrs else attrs ++ [kv].

Definition parseAttrs (raw : jsstring) : list attribute :=
  fold_left addAttr (hits attrAt raw) [].

(** Position of the [>] that ends a tag: the first one outside quotes.
    [q] is the quote that is open, or 0. *)
Fixpoint tagEnd (q : N) (s : jsstring) : option nat :=
  match s with
  | [] => None
  | c :: s' =>
    if N.eqb q 0 then
      if N.eqb c 62 then Some 0%nat
      else option_map S (tagEnd (if isQuote c then c else 0%N) s')
    else option_map S (tagEnd (if N.eqb c q then 0%N else q) s')
  end.

Definition blockTextElements : list jsstring :=
  map lit ["script"; "noscript"; "style"; "pre"]%string.

Definition endsWithSlash (s : jsstring) : bool :=
  match rev s with c :: _ => N.eqb c 47 | [] => false end.

Definition attrAreaOk (s : jsstring) : bool :=
  match s with
  | [] => true
  | c :: _ => isWhite c || N.eqb c 47
  end.

Definition tagAt (s : jsstring) : option (nat * token) :=
  if startsWith (lit "<!--") s then
    match indexWhere (startsWith (lit "-->")) (skipn 4 s) with
    | Some j => Some (4 + j + 3, TComment)%nat
    | None => None
    end
  else if startsWith (lit "<") s then
    let k := if startsWith (lit "/") (skipn 1 s) then 1%nat else 0%nat in
    let r := skipn (1 + k) s in
    let name := takeWhile isNameChar r in
    let r1 := dropWhile isNameChar r in
    match name, tagEnd 0 r1 with
    | c :: _, Some i =>
      let rawAttrs := firstn i r1 in
      let len := (1 + k + length name + i + 1)%nat in
      if isLetter c && attrAreaOk rawAttrs then
        if Nat.eqb k 1 then Some (len, TClose name)
        else if tagIn blockTextElements name then
          let body := skipn len s in
          let closer := lit "</" ++ name ++ lit ">" in
          match indexWhere (startsWith closer) body with
          | Some j =>
            Some (len + j + length closer, TRaw name (parseAttrs rawAttrs) (firstn j body))%nat
          | None =>
            Some (len + length body, TRaw name (parseAttrs rawAttrs) body)%nat
          end
        else Some (len, TOpen name (parseAttrs rawAttrs) (endsWithSlash rawAttrs))
      else None
    | _, _ => None
    end
  else None.

(** An open element: its tag, its attributes, and the siblings that precede
    it (latest first). *)
Definition frame : Type := jsstring * list attribute * list node.

Fixpoint closeAll (cur : list node) (stack : list frame) : list node :=
  match stack with
  | [] => rev cur
  | (t, a, sibs) :: st => closeAll (Elem t a (rev cur) :: sibs) st
  end.

Fixpoint closeTo (name : jsstring) (cur : list node) (stack : list frame)
  : option (list node * list frame) :=
  match stack with
  | [] => None
  | (t, a, sibs) :: st =>
    let el := Elem t a (rev cur) in
    if str_eqb (map lowerAscii t) (map lowerAscii name) then Some (el :: sibs, st)
    else closeTo name (el :: sibs) st
  end.

Definition rawKids (content : jsstring) : list node :=
  if existsb notWhite content then [Text content] else [].

Fixpoint build (ps : list (@piece token)) (cur : list node) (stack : list frame)
  : list node :=
  match ps with
  | [] => closeAll cur stack
  | Lit [] :: r => build r cur stack
  | Lit t :: r => build r (Text t :: cur) stack
  | Hit TComment :: r => build r cur stack
  | Hit (TOpen name attrs self) :: r =>
    if self || tagIn voidTags name
    then build r (Elem name attrs [] :: cur) stack
    else build r [] ((name, attrs, cur) :: stack)
  | Hit (TRaw name attrs content) :: r =>
    build r (Elem name attrs (rawKids content) :: cur) stack
  | Hit (TClose name) :: r =>
    match closeTo name cur stack with
    | Some (cur', stack') => build r cur' stack'
    | None => build r cur stack
    end
  end.

(** The children of the root the parser returns. *)
Definition parseHtml (html : jsstring) : list node :=
  build (scan tagAt html) [] [].

(** *** Rebuilding the tree

    Every [root.querySelectorAll(sel).forEach(...)] of the sanitizer visits
    the matching elements in document order, so an element is visited before
    anything below it: what is decided for an element is decided on its
    subtree as the previous step left it.  [rebuild f] rebuilds the forest
    bottom-up; [f] receives the tag, the attributes, the children as they
    were and the children already rebuilt, and returns what takes the
    element's place. *)

Section Rebuild.
Variable f : jsstring -> list attribute -> list node -> list node -> list node.

Fixpoint rebuildNode (n : node) : list node :=
  match n with
  | Text _ => [n]
  | Elem tag attrs kids => f tag attrs kids (flat_map rebuildNode kids)
  end.

Definition rebuild (ns : list node) : list node := flat_map rebuildNode ns.
End Rebuild.

(** [querySelectorAll(sel).forEach((el) => el.remove())], also for a test
    that looks below the element. *)
Definition removeAll (sel : jsstring -> list attribute -> list node -> bool)
  : list node -> list node :=
  rebuild (fun tag attrs kids kids' =>
             if sel tag attrs kids then [] else [Elem tag attrs kids']).

(** An update of the attributes of every element. *)
Definition updateAttrs (g : list attribute -> list attribute)
  : list node -> list node :=
  rebuild (fun tag attrs _ kids' => [Elem tag (g attrs) kids']).

(** *** Selectors of the sanitizer *)

Definition whiteAt (s : jsstring) : option (nat * unit) :=
  match s with
  | c :: _ => if isWhite c then Some (1%nat, tt) else None
  | [] => None
  end.

(** [.name] *)
Definition hasClass (name : string) (attrs : list attribute) : bool :=
  match getAttribute (lit "class") attrs with
  | Some v => existsb (str_eqb (lit name)) (splitRe whiteAt v)
  | None => false
  end.

(** [[attr*="part"]] *)
Definition attrContains (attr part : string) (attrs : list attribute) : bool :=
  match getAttribute (lit attr) attrs with
  | Some v => includes (lit part) v
  | None => false
  end.

Definition anyClass (names : list string) (attrs : list attribute) : bool :=
  existsb (fun n => hasClass n attrs) names.

Definition anyClassPart (parts : list string) (attrs : list attribute) : bool :=
  existsb (fun p => attrContains "class" p attrs) parts.

Local Open Scope string_scope.

Definition selHubspotCta (attrs : list attribute) : bool :=
  hasClass "hs-cta-embed" attrs || attrContains "class" "hs-cta" attrs.

Definition selWprm (attrs : list attribute) : bool :=
  anyClass ["wprm-recipe-user-rating"; "wprm-user-rating"; "wprm-recipe-rating";
            "wprm-recipe-call-to-action"; "wprm-call-to-action";
            "wprm-recipe-print"; "wprm-recipe-pin"; "wprm-cta-rating-modal"] attrs
  || attrContains "class" "wprm-recipe-jump" attrs.

Definition selSlickstream (attrs : list attribute) : bool :=
  attrContains "class" "slickstream" attrs || hasClass "wprm-recipe-slickstream" attrs.

Definition selScreenReader (attrs : list attribute) : bool :=
  anyClass ["sr-only"; "screen-reader-text"; "wprm-screen-reader-text"] attrs.

Definition selHubspot (attrs : list attribute) : bool :=
  attrContains "id" "hubspot" attrs || attrContains "class" "hubspot" attrs.

Definition selGallery (attrs : list attribute) : bool :=
  hasClass "wp-block-kadence-advancedgallery" attrs.

Definition selIconWrap (attrs : list attribute) : bool :=
  anyClass ["kb-svg-icon-wrap"; "kt-svg-icon-list-single"] attrs.

Definition selBareSvg (tag : jsstring) (attrs : list attribute) : bool :=
  tagIs (lit "svg") tag
  && negb (truthy (getAttribute (lit "width") attrs))
  && negb (truthy (getAttribute (lit "height") attrs)).

Definition invalidEventAttrs : list jsstring :=
  map lit ["onclick"; "onmouseenter"; "onmouseleave"; "onfocus"; "onblur";
           "onkeypress"; "onerror"; "onload"].

Definition selWrapper (attrs : list attribute) : bool :=
  anyClassPart ["wp-block-"; "kb-"; "kt-"; "kadence"; "wprm-"] attrs.

Definition generatedId (attrs : list attribute) : bool :=
  let id := match getAttribute (lit "id") attrs with Some v => v | None => [] end in
  existsb (fun p => includes (lit p) id) ["wprm-"; "recipe-"; "kb-"; "kt-"; "kadence"].

Local Close Scope string_scope.

(** Step 11: a wrapper that is a [div], [section] or [figure] gives way to
    its children (to nothing when it has none); any other wrapper loses its
    [class] and [style]. *)
Definition unwrapWrappers : list node -> list node :=
  rebuild (fun tag attrs kids kids' =>
    if selWrapper attrs then
      if tagIn [lit "div"; lit "section"; lit "figure"] tag then
        match kids with
        | _ :: _ => kids'
        | [] => []
        end
      else [Elem tag (removeAttribute (lit "style") (removeAttribute (lit "class") attrs)) kids']
    else [Elem tag attrs kids']).

(** Step 14, on one element. *)
Definition stripDataAndIds (attrs : list attribute) : list attribute :=
  let attrs1 := filter (fun kv => negb (startsWith (lit "data-") (fst kv))) attrs in
  if generatedId attrs1 then removeAttribute (lit "id") attrs1 else attrs1.

Definition selInline (tag : jsstring) (_ : list attribute) : bool :=
  tagIn [lit "img"; lit "a"; lit "mark"] tag.

(** Step 15, first half; the text is tested as written. *)
Definition isEmptyParagraph (tag : jsstring) (_ : list attribute)
    (kids : list node) : bool :=
  tagIs (lit "p") tag
  && isEmpty (trim (textContent kids))
  && negb (hasMatch selInline kids).

(** Step 15, second half. *)
Definition isEmptyBox (tag : jsstring) (_ : list attribute)
    (kids : list node) : bool :=
  tagIn [lit "div"; lit "span"] tag && isEmpty (trim (innerHTML kids)).

Definition onAttrs (sel : list attribute -> bool)
  : jsstring -> list attribute -> list node -> bool :=
  fun _ attrs _ => sel attrs.

Definition onTag (name : string)
  : jsstring -> list attribute -> list node -> bool :=
  fun tag _ _ => tagIs (lit name) tag.

(** Steps 1 to 15, in the order the sanitizer runs them. *)
Definition sanitizerSteps : list (list node -> list node) :=
  [ removeAll (onTag "style");
    removeAll (onTag "script");
    removeAll (onAttrs selHubspotCta);
    removeAll (onAttrs selWprm);
    removeAll (onAttrs selSlickstream);
    removeAll (onAttrs selScreenReader);
    removeAll (onAttrs selHubspot);
    removeAll (onAttrs selGallery);
    removeAll (onAttrs selIconWrap);
    removeAll (fun tag attrs _ => selBareSvg tag attrs);
    updateAttrs (fun attrs => fold_left (fun a n => removeAttribute n a)
                                        invalidEventAttrs attrs);
    unwrapWrappers;
    updateAttrs (removeAttribute (lit "class"));
    updateAttrs (removeAttribute (lit "style"));
    updateAttrs stripDataAndIds;
    removeAll isEmptyParagraph;
    removeAll isEmptyBox ].

Definition runSteps (steps : list (list node -> list node)) (root : list node)
  : list node :=
  fold_left (fun root step => step root) steps root.

Definition cleanTree (root : list node) : list node :=
  runSteps sanitizerSteps root.

(** [/<!-- \/?wp:[^>]+ -->/g]: the run [[^>]+] stops at the first [>], which
    must close [ -->]. *)
Definition reWpComment (s : jsstring) : option nat :=
  if startsWith (lit "<!-- ") s then
    let k := if startsWith (lit "/") (skipn 5 s) then 1%nat else 0%nat in
    let r := skipn (5 + k) s in
    if startsWith (lit "wp:") r then
      match indexWhere isGt (skipn 3 r) with
      | Some i =>
        if Nat.leb 4 i && startsWith (lit " --") (skipn (3 + (i - 3)) r)
        then Some (5 + k + 3 + i + 1)%nat
        else None
      | None => None
      end
    else None
  else None.

(** [/<\/[0-9][a-z0-9_-]*>/gi] *)
Definition reNumericCloser (s : jsstring) : option nat :=
  if startsWith (lit "</") s then
    match skipn 2 s with
    | d :: r =>
      let isIdChar c := isLetter c || isDigit c || N.eqb c 95 || N.eqb c 45 in
      if isDigit d && isGt (dropWhile isIdChar r)
      then Some (3 + length (takeWhile isIdChar r) + 1)%nat
      else None
    | [] => None
    end
  else None.

(** The tree the sanitizer parses. *)
Definition parsedTree (html : jsstring) : list node :=
  parseHtml (deleteAll reNumericCloser (deleteAll reWpComment html)).

(** The tree the sanitizer serialises. *)
Definition sanitizedTree (html : jsstring) : list node :=
  if isEmpty html then [] else cleanTree (parsedTree html).

Definition cleanWordPressHtml (html : jsstring) : jsstring :=
  if isEmpty html then []
  else trim (innerHTML (sanitizedTree html)).

(** ** parseHtmlList *)

Definition selLi (tag : jsstring) (_ : list attribute) : bool :=
  tagIs (lit "li") tag.

Definition itemText (item : node) : jsstring :=
  decodeHtmlEntities (trim (textOf item)).

(** One turn of the loop over the items; the state is [listItems] and
    [value]. *)
Definition pushItem (st : list LexicalNode * N) (item : node)
  : list LexicalNode * N :=
  let (listItems, value) := st in
  let text := itemText item in
  if isEmpty text then (listItems, value)
  else (listItems ++ [ListItemNode [ParagraphNode [TextNode text]] value],
        (value + 1)%N).

Definition listItemsOf (items : list node) : list LexicalNode :=
  fst (fold_left pushItem items ([], 1%N)).

Definition parseHtmlList (listHtml : jsstring) (isOrdered : bool)
  : option LexicalNode :=
  let doc := parseHtml listHtml in
  let items := querySelectorAll selLi doc in
  match items with
  | [] => None
  | _ =>
    match listItemsOf items with
    | [] => None
    | listItems => Some (ListNode isOrdered 1 listItems)
    end
  end.

(** ** htmlToLexical *)

(** [/(<table[\s\S]*?<\/table>|<ul[\s\S]*?<\/ul>|<ol[\s\S]*?<\/ol>)/gi] *)
Definition reSegment (s : jsstring) : option nat :=
  match reRegion (lit "<table") (lit "</table>") s with
  | Some n => Some n
  | None =>
    match reRegion (lit "<ul") (lit "</ul>") s with
    | Some n => Some n
    | None => reRegion (lit "<ol") (lit "</ol>") s
    end
  end.

(** [split] with the capture group: text and matches alternate. *)
Definition splitSegments (s : jsstring) : list jsstring :=
  map (fun p => match p with Lit t => t | Hit c => c end) (scan (whole reSegment) s).

(** [/<\/(?:p|h[1-6]|div)>/i] *)
Definition reBlockEnd (s : jsstring) : option (nat * unit) :=
  if startsWithCI (lit "</p>") s then Some (4%nat, tt)
  else if startsWithCI (lit "</h") s
          && match skipn 3 s with
             | d :: r => inRange 49 54 d && isGt r
             | [] => false
             end
  then Some (5%nat, tt)
  else if startsWithCI (lit "</div>") s then Some (6%nat, tt)
  else None.

(** The tail [[^>]*>] of an opening tag whose first [olen] code units are
    matched, followed by a greedy capture of all that remains. *)
Definition restAfterTag (olen : nat) (s : jsstring) : option jsstring :=
  match indexWhere isGt (skipn olen s) with
  | Some i => Some (skipn (olen + i + 1) s)
  | None => None
  end.

(** The heading pattern: [<h], a digit from 1 to 6, the tag tail, and the
    rest of the block as second capture; case-insensitive. *)
Definition reHeading (s : jsstring) : option (nat * (N * jsstring)) :=
  if startsWithCI (lit "<h") s then
    match skipn 2 s with
    | d :: _ =>
      if inRange 49 54 d then
        match restAfterTag 3 s with
        | Some rest => Some (length s, (d, rest))
        | None => None
        end
      else None
    | [] => None
    end
  else None.

(** The paragraph pattern: [<p], the tag tail, and the rest of the block
    as capture; case-insensitive. *)
Definition reParagraph (s : jsstring) : option (nat * jsstring) :=
  if startsWithCI (lit "<p") s then
    match restAfterTag 2 s with
    | Some rest => Some (length s, rest)
    | None => None
    end
  else None.

Definition plainText (markup : jsstring) : jsstring :=
  decodeHtmlEntities (trim (deleteAll reTag markup)).

(** One turn of the loop over the blocks of a segment. *)
Definition pushBlock (children : list LexicalNode) (block : jsstring)
  : list LexicalNode :=
  match firstMatch reHeading block with
  | Some (d, rest) =>
    let level := digitValue d in
    let text := plainText rest in
    if isEmpty text then children
    else children ++ [HeadingNode level [TextNode text]]
  | None =>
    match firstMatch reParagraph block with
    | Some rest =>
      let text := plainText rest in
      if isEmpty text then children
      else children ++ [ParagraphNode [TextNode text]]
    | None =>
      let text := plainText block in
      if negb (isEmpty text) && negb (includes (lit "<li") block)
      then children ++ [ParagraphNode [TextNode text]]
      else children
    end
  end.

Definition pushOption (children : list LexicalNode) (n : option LexicalNode)
  : list LexicalNode :=
  match n with
  | Some x => children ++ [x]
  | None => children
  end.

(** One turn of the loop over the segments. *)
Definition pushSegment (children : list LexicalNode) (segment : jsstring)
  : list LexicalNode :=
  if isEmpty (trim segment) then children
  else if lowerStartsWith (lit "<table") segment then
    pushOption children (parseHtmlTable segment)
  else if lowerStartsWith (lit "<ul") segment then
    pushOption children (parseHtmlList segment false)
  else if lowerStartsWith (lit "<ol") segment then
    pushOption children (parseHtmlList segment true)
  else
    let blocks :=
      filter (fun b => negb (isEmpty b)) (map trim (splitRe reBlockEnd segment)) in
    fold_left pushBlock blocks children.

Definition placeholder : LexicalNode :=
  ParagraphNode [TextNode (lit "[Content conversion needed]")].

Definition htmlToLexical (html : jsstring) : LexicalNode :=
  let cleanedHtml := cleanWordPressHtml html in
  let segments := splitSegments cleanedHtml in
  let children := fold_left pushSegment segments [] in
  let children :=
    match children with
    | [] => [placeholder]
    | _ => children
    end in
  RootNode children.


(** ** The command line, the image name and the meta description *)

(** [args.find(a => a.startsWith('--slug='))?.split('=')[1]] *)
Definition slug (args : list jsstring) : option jsstring :=
  match find (startsWith (lit "--slug=")) args with
  | Some a => nth_error (split (lit "=") a) 1
  | None => None
  end.

(** [args.includes('--dry-run')] *)
Definition dryRun (args : list jsstring) : bool :=
  existsb (str_eqb (lit "--dry-run")) args.

(** [imageUrl.split('/').pop() || 'image.jpg'] in [uploadImage] *)
Definition filename (imageUrl : jsstring) : jsstring :=
  match last (split (lit "/") imageUrl) [] with
  | [] => lit "image.jpg"
  | name => name
  end.

(** [altText || filename] in [uploadImage] *)
Definition alt (altText imageUrl : jsstring) : jsstring :=
  match altText with
  | [] => filename imageUrl
  | _ => altText
  end.

(** [wpPost.excerpt?.replace(/<[^>]+>/g, '').slice(0, 160) || undefined]
    in [migratePost]; [None] is [undefined]. *)
Definition description (excerpt : option jsstring) : option jsstring :=
  match excerpt with
  | Some e =>
    match firstn 160 (deleteAll reTag e) with
    | [] => None
    | d => Some d
    end
  | None => None
  end.

(** ** The page migration

    [scripts/migrate-wordpress-page.ts]: the command line, the author and
    reviewer line, the table of contents, the sanitizer and the converter
    of pages. *)

Module Page.

(** [s.replace(sub, '')] with a string as pattern: the first occurrence
    goes, the others stay. *)
Fixpoint removeFirst (sub s : jsstring) : jsstring :=
  if startsWith sub s then skipn (length sub) s
  else match s with
       | [] => []
       | c :: s' => c :: removeFirst sub s'
       end.

(** [args.find(a => a.startsWith('--slug='))] *)
Definition slugArg (args : list jsstring) : option jsstring :=
  find (startsWith (lit "--slug=")) args.

(** [slugArg.replace('--slug=', '')]; without the argument the script
    stops. *)
Definition pageSlug (args : list jsstring) : option jsstring :=
  option_map (removeFirst (lit "--slug=")) (slugArg args).

(** *** parseAuteurReviewer *)

Record AuteurReviewerBlock : Type := {
  auteur : jsstring;
  reviewer : option jsstring;
  reviewerTitel : option jsstring
}.

(** The class that excludes the en dash and the hyphen. *)
Definition notDash (c : N) : bool := negb (N.eqb c 8211 || N.eqb c 45).

(** The class that excludes the comma. *)
Definition notComma (c : N) : bool := negb (N.eqb c 44).

(** What the dot matches: anything but a line terminator. *)
Definition notLineEnd (c : N) : bool :=
  negb (N.eqb c 10 || N.eqb c 13 || N.eqb c 8232 || N.eqb c 8233).

(** A greedy run of white space followed by a captured, greedy, non-empty
    run of the class [p], for a class that holds all white space.  The
    capture is the longest run of [p] after the white space; when no code
    unit of [p] follows, the white run gives back its last code unit, and
    that is the capture.  The result is the length matched and the
    capture. *)
Definition whiteThenRun (p : N -> bool) (s : jsstring) : option (nat * jsstring) :=
  let ws := takeWhile isWhite s in
  match takeWhile p (dropWhile isWhite s) with
  | [] =>
    match rev ws with
    | w :: _ => Some (length ws, [w])
    | [] => None
    end
  | run => Some (length ws + length run, run)%nat
  end.

(** The pattern for the author: [Auteur:], white space, and a captured
    run without en dash and hyphen; case-insensitive. *)
Definition reAuteur (s : jsstring) : option (nat * jsstring) :=
  if startsWithCI (lit "Auteur:") s then
    match whiteThenRun notDash (skipn 7 s) with
    | Some (n, name) => Some (7 + n, name)%nat
    | None => None
    end
  else None.

(** The optional tail of the reviewer pattern: a comma, white space, and
    the rest of the line as capture.  After the white space only the end of
    the text can follow without a capture (line terminators are white
    space); the white run then gives back code units until the capture can
    start, that is down to its last code unit that is no line terminator. *)
Definition titleAt (s : jsstring) : option (nat * jsstring) :=
  if startsWith (lit ",") s then
    let ws := takeWhile isWhite (skipn 1 s) in
    match takeWhile notLineEnd (dropWhile isWhite (skipn 1 s)) with
    | [] =>
      match dropWhile (fun c => negb (notLineEnd c)) (rev ws) with
      | w :: before => Some (1 + length before + 1, [w])%nat
      | [] => None
      end
    | title => Some (1 + length ws + length title, title)%nat
    end
  else None.

(** The pattern for the reviewer: [Reviewer:], white space, a captured
    run without comma, and the optional tail; case-insensitive. *)
Definition reReviewer (s : jsstring)
  : option (nat * (jsstring * option jsstring)) :=
  if startsWithCI (lit "Reviewer:") s then
    match whiteThenRun notComma (skipn 9 s) with
    | Some (n, name) =>
      match titleAt (skipn (9 + n) s) with
      | Some (k, title) => Some (9 + n + k, (name, Some title))%nat
      | None => Some (9 + n, (name, None))%nat
      end
    | None => None
    end
  else None.

Definition parseAuteurReviewer (text : jsstring) : option AuteurReviewerBlock :=
  let auteurMatch := firstMatch reAuteur text in
  let reviewerMatch := firstMatch reReviewer text in
  match auteurMatch with
  | None => None
  | Some name =>
    Some {| auteur := trim name;
            reviewer := option_map (fun m => trim (fst m)) reviewerMatch;
            reviewerTitel :=
              match reviewerMatch with
              | Some (_, Some title) => Some (trim title)
              | _ => None
              end |}
  end.

(** *** parseTocItems, elementToLexicalNodes, htmlToLexical *)

Record TocItem : Type := {
  label : jsstring;
  anchor : option jsstring
}.

Record InhoudsopgaveBlock : Type := {
  titel : jsstring;
  items : list TocItem
}.

Definition selA (tag : jsstring) (_ : list attribute) : bool :=
  tagIs (lit "a") tag.

Definition childNodes (n : node) : list node :=
  match n with
  | Elem _ _ kids => kids
  | Text _ => []
  end.

(** [['h1', 'h2', 'h3', 'h4', 'h5', 'h6'].includes(tag)], with the level
    the tag stands for. *)
Definition headingLevel (tag : jsstring) : option N :=
  if tagIs (lit "h1") tag then Some 1%N
  else if tagIs (lit "h2") tag then Some 2%N
  else if tagIs (lit "h3") tag then Some 3%N
  else if tagIs (lit "h4") tag then Some 4%N
  else if tagIs (lit "h5") tag then Some 5%N
  else if tagIs (lit "h6") tag then Some 6%N
  else None.

Definition textToParagraph (text : jsstring) : LexicalNode :=
  ParagraphNode [TextNode (trim text)].

Section Parser.

(** What the parser package returns as [textContent] of a node and as
    [getAttribute('href')] of an element are parameters of what follows:
    the package resolves character references there by rules of its own,
    and nothing below depends on them. *)
Variable textContentOf : node -> jsstring.
Variable hrefOf : node -> option jsstring.

(** One turn of the loop over the [li] elements; the state is [items] and
    [seen]. *)
Definition pushTocItem (st : list TocItem * list jsstring) (li : node)
  : list TocItem * list jsstring :=
  let (items, seen) := st in
  let anchor := hd_error (querySelectorAll selA (childNodes li)) in
  let text :=
    trim (textContentOf (match anchor with Some a => a | None => li end)) in
  if isEmpty text || existsb (str_eqb text) seen then st
  else
    let href :=
      match anchor with
      | Some a =>
        match hrefOf a with
        | Some h => h
        | None => []
        end
      | None => []
      end in
    let anchorId :=
      if startsWith (lit "#") href then Some (skipn 1 href) else None in
    (items ++ [{| label := text; anchor := anchorId |}], text :: seen).

Definition parseTocItems (tocElement : node) : option InhoudsopgaveBlock :=
  let listItems := querySelectorAll selLi (childNodes tocElement) in
  match fst (fold_left pushTocItem listItems ([], [])) with
  | [] => None
  | items => Some {| titel := lit "Inhoudsopgave"; items := items |}
  end.

(** One turn of the loop over the children of a list element; the state
    is [listItems] and [value]. *)
Definition pushListItem (st : list LexicalNode * N) (child : node)
  : list LexicalNode * N :=
  let (listItems, value) := st in
  match child with
  | Elem tag _ _ =>
    if tagIs (lit "li") tag then
      let text := trim (textContentOf child) in
      if isEmpty text then st
      else (listItems ++ [ListItemNode [ParagraphNode [TextNode text]] value],
            (value + 1)%N)
    else st
  | Text _ => st
  end.

(** What a text of the tree contributes: a paragraph, unless the text is
    empty after trimming. *)
Definition textToNodes (text : jsstring) : list LexicalNode :=
  if isEmpty text then [] else [textToParagraph text].

(** [elementToLexicalNodes], together with the test both of its callers
    make on the kind of node: a text node gives a paragraph of its text, an
    element is converted by its tag. *)
Fixpoint elementToLexicalNodes (el : node) : list LexicalNode :=
  match el with
  | Text _ => textToNodes (trim (textContentOf el))
  | Elem tag _ kids =>
    let text := trim (textContentOf el) in
    match headingLevel tag with
    | Some level =>
      if isEmpty text then [] else [HeadingNode level [TextNode text]]
    | None =>
      if tagIs (lit "p") tag then textToNodes text
      else if tagIs (lit "ul") tag || tagIs (lit "ol") tag then
        match fst (fold_left pushListItem kids ([], 1%N)) with
        | [] => []
        | listItems => [ListNode (tagIs (lit "ol") tag) 1 listItems]
        end
      else if tagIn [lit "div"; lit "span"; lit "section"; lit "article"] tag then
        flat_map elementToLexicalNodes kids
      else textToNodes text
    end
  end.

Definition htmlToLexical (html : jsstring) : LexicalNode :=
  let children := flat_map elementToLexicalNodes (parseHtml html) in
  RootNode match children with
           | [] => [textToParagraph []]
           | _ => children
           end.

End Parser.

(** *** cleanHtml *)

Definition selSpacer (attrs : list attribute) : bool :=
  hasClass "wp-block-kadence-spacer" attrs.

Definition cleanSteps : list (list node -> list node) :=
  [ removeAll (onTag "style");
    removeAll (onAttrs selSpacer);
    removeAll (onAttrs selHubspotCta);
    updateAttrs (removeAttribute (lit "class"));
    updateAttrs (removeAttribute (lit "style")) ].

(** The tree [cleanHtml] serialises. *)
Definition cleanedTree (html : jsstring) : list node :=
  runSteps cleanSteps (parseHtml html).

Definition cleanHtml (html : jsstring) : jsstring :=
  innerHTML (cleanedTree html).

End Page.

(** ** Predicates used in the statements *)

(** Every element of a forest, at any depth, passes [q]. *)
Fixpoint allNode (q : jsstring -> list attribute -> list node -> bool)
    (n : node) : bool :=
  match n with
  | Text _ => true
  | Elem tag attrs kids => q tag attrs kids && forallb (allNode q) kids
  end.

Definition allElems (q : jsstring -> list attribute -> list node -> bool)
    (ns : list node) : bool :=
  forallb (allNode q) ns.

(** An attribute spelled neither [class] nor [style], with a name that
    does not start with [data-]; names are compared as the sanitizer
    compares them, by their spelling. *)
Definition plainAttr (kv : attribute) : bool :=
  negb (str_eqb (fst kv) (lit "class"))
  && negb (str_eqb (fst kv) (lit "style"))
  && negb (startsWith (lit "data-") (fst kv)).

Definition noPresentation (_ : jsstring) (attrs : list attribute)
    (_ : list node) : bool :=
  forallb plainAttr attrs.

Definition isScriptOrStyle (tag : jsstring) : bool :=
  tagIs (lit "script") tag || tagIs (lit "style") tag.

Definition notScriptOrStyle (tag : jsstring) (_ : list attribute)
    (_ : list node) : bool :=
  negb (isScriptOrStyle tag).

(** The text nodes of a forest that do not lie below an element whose tag
    is [hidden], in document order. *)
Fixpoint textsOutsideNode (hidden : jsstring -> bool) (n : node) : list jsstring :=
  match n with
  | Text raw => [raw]
  | Elem tag _ kids =>
    if hidden tag then [] else flat_map (textsOutsideNode hidden) kids
  end.

Definition textsOutside (hidden : jsstring -> bool) (ns : list node)
  : list jsstring :=
  flat_map (textsOutsideNode hidden) ns.

(** The forest without the elements whose tag is [hidden], and without
    all that lies below them. *)
Fixpoint pruneNode (hidden : jsstring -> bool) (n : node) : list node :=
  match n with
  | Text _ => [n]
  | Elem tag attrs kids =>
    if hidden tag then [] else [Elem tag attrs (flat_map (pruneNode hidden) kids)]
  end.

Definition prune (hidden : jsstring -> bool) (ns : list node) : list node :=
  flat_map (pruneNode hidden) ns.

(** All text nodes of a forest. *)
Definition textNodes (ns : list node) : list jsstring :=
  textsOutside (fun _ => false) ns.

(** Not a [p] whose text, as written, is empty after trimming and that
    has no [img], [a] or [mark] below. *)
Definition keptParagraph (tag : jsstring) (attrs : list attribute)
    (kids : list node) : bool :=
  negb (tagIs (lit "p") tag
        && isEmpty (trim (textContent kids))
        && negb (hasMatch selInline kids)).

Definition notNamed (name : string) (kv : attribute) : bool :=
  negb (str_eqb (fst kv) (lit name)).

Definition notData (kv : attribute) : bool :=
  negb (startsWith (lit "data-") (fst kv)).

(** The text below a forest is white space only. *)
Definition blank (ns : list node) : bool := forallb isWhite (textContent ns).

(** A removal is harmless when what it removes holds neither text other
    than white space nor an [img], [a] or [mark]. *)
Definition harmless (sel : jsstring -> list attribute -> list node -> bool) : Prop :=
  forall tag attrs kids,
    sel tag attrs kids = true ->
    selInline tag attrs = false /\ hasMatch selInline kids = false /\ blank kids = true.

(** A matcher that only ever matches at the code unit [h]. *)
Definition headed {C : Type} (h : N) (m : jsstring -> option (nat * C)) : Prop :=
  m [] = None /\ forall c r, c <> h -> m (c :: r) = None.

(** Some suffix of [s] starts with a named entity or with a numeric
    character reference. *)
Fixpoint hasEntity (s : jsstring) : bool :=
  existsb (fun e => startsWith (fst e) s) namedEntities
  || match reDecimal s with Some _ => true | None => false end
  || match reHex s with Some _ => true | None => false end
  || match s with [] => false | _ :: s' => hasEntity s' end.

(** What the claims call the literal character with code point [cp], as a
    JavaScript string holds it ([String.fromCodePoint]): one code unit up
    to U+FFFF, a surrogate pair above. *)
Definition codePoint (cp : N) : jsstring :=
  if N.ltb cp 65536 then [cp]
  else [ (55296 + (cp - 65536) / 1024)%N; (56320 + (cp - 65536) mod 1024)%N ].

(** List items numbered from [k] on, one per text. *)
Fixpoint numbered (k : N) (texts : list jsstring) : list LexicalNode :=
  match texts with
  | [] => []
  | t :: r => ListItemNode [ParagraphNode [TextNode t]] k :: numbered (k + 1) r
  end.

Definition itemValue (n : LexicalNode) : option N :=
  match n with
  | ListItemNode _ v => Some v
  | _ => None
  end.

Definition nonEmpty (s : jsstring) : bool := negb (isEmpty s).

Definition hasCells (rowHtml : jsstring) : bool :=
  match matchAll reCell rowHtml with [] => false | _ :: _ => true end.

(** Markup of a table with one row of header cells and one row of body
    cells, the cells holding the given texts. *)
Definition thCell (text : jsstring) : jsstring := lit "<th>" ++ text ++ lit "</th>".
Definition tdCell (text : jsstring) : jsstring := lit "<td>" ++ text ++ lit "</td>".

Definition cellMarkup (header : bool) (text : jsstring) : jsstring :=
  if header then thCell text else tdCell text.

Definition rowMarkup (header : bool) (texts : list jsstring) : jsstring :=
  lit "<tr>" ++ concat (map (cellMarkup header) texts) ++ lit "</tr>".

Definition twoRowTable (heads cells : list jsstring) : jsstring :=
  lit "<table>" ++ rowMarkup true heads ++ rowMarkup false cells ++ lit "</table>".

(** Text that holds no [<]. *)
Definition tagFree (text : jsstring) : bool := negb (existsb (N.eqb 60) text).

(** The cell node expected for a cell that holds [text]. *)
Definition cellNode (header : bool) (text : jsstring) : LexicalNode :=
  TableCellNode [ParagraphNode (textChildren (decodeHtmlEntities (trim text)))]
                1 1 (if header then 1%N else 0%N).

Definition cellSpans (n : LexicalNode) : option (N * N * N) :=
  match n with
  | TableCellNode _ c r h => Some (c, r, h)
  | _ => None
  end.

(** ** Predicates used in the further statements *)

(** The tag pattern [<[^>]+>] matches somewhere in [s]. *)
Fixpoint hasTag (s : jsstring) : bool :=
  match reTag s with Some _ => true | None => false end
  || match s with [] => false | _ :: s' => hasTag s' end.

(** No attribute is spelled as one of the event handlers the sanitizer
    removes. *)
Definition noEventHandler (_ : jsstring) (attrs : list attribute)
    (_ : list node) : bool :=
  forallb (fun kv => negb (existsb (str_eqb (fst kv)) invalidEventAttrs)) attrs.

(** Not an [svg] that lacks both a width and a height. *)
Definition sizedIfSvg (tag : jsstring) (attrs : list attribute)
    (_ : list node) : bool :=
  negb (selBareSvg tag attrs).

(** The shapes of the nodes the converter may emit. *)
Definition textOk (n : LexicalNode) : bool :=
  match n with TextNode t => negb (isEmpty t) | _ => false end.

Definition paragraphOk (n : LexicalNode) : bool :=
  match n with ParagraphNode [c] => textOk c | _ => false end.

Definition headingOk (n : LexicalNode) : bool :=
  match n with
  | HeadingNode level [c] => N.leb 1 level && N.leb level 6 && textOk c
  | _ => false
  end.

Definition itemOk (n : LexicalNode) : bool :=
  match n with ListItemNode [p] _ => paragraphOk p | _ => false end.

Definition listOk (n : LexicalNode) : bool :=
  match n with
  | ListNode _ start (item :: items) => N.eqb start 1 && forallb itemOk (item :: items)
  | _ => false
  end.

Definition cellOk (n : LexicalNode) : bool :=
  match n with
  | TableCellNode [ParagraphNode texts] colSpan rowSpan headerState =>
    N.eqb colSpan 1 && N.eqb rowSpan 1
    && (N.eqb headerState 0 || N.eqb headerState 1)
    && match texts with
       | [] => true
       | [c] => textOk c
       | _ => false
       end
  | _ => false
  end.

Definition rowOk (n : LexicalNode) : bool :=
  match n with
  | TableRowNode (cell :: cells) => forallb cellOk (cell :: cells)
  | _ => false
  end.

Definition tableOk (n : LexicalNode) : bool :=
  match n with
  | TableNode (row :: rows) => forallb rowOk (row :: rows)
  | _ => false
  end.

Definition blockOk (n : LexicalNode) : bool :=
  paragraphOk n || headingOk n || listOk n || tableOk n.

Definition rootOk (n : LexicalNode) : bool :=
  match n with
  | RootNode (c :: cs) => forallb blockOk (c :: cs)
  | _ => false
  end.

(** A block of a page is a paragraph, a heading or a list. *)
Definition pageBlockOk (n : LexicalNode) : bool :=
  paragraphOk n || headingOk n || listOk n.

(** No attribute spelled [class] or [style], and not a [style] element. *)
Definition unstyled (tag : jsstring) (attrs : list attribute)
    (_ : list node) : bool :=
  forallb (fun kv => notNamed "class" kv && notNamed "style" kv) attrs
  && negb (tagIs (lit "style") tag).
(** What the loop over the [li] elements keeps: [seen] holds the labels,
    no label occurs twice, and every label is trimmed and not empty. *)
Definition tocInvariant (st : list Page.TocItem * list jsstring) : Prop :=
  (forall x, In x (snd st) <-> In x (map Page.label (fst st)))
  /\ NoDup (map Page.label (fst st))
  /\ Forall (fun i => Page.label i <> [] /\ trim (Page.label i) = Page.label i) (fst st).

(** The pieces of a scan alternate: text, match, text, ..., text. *)
Inductive alternating {C : Type} : list (@piece C) -> Prop :=
| alt_last t : alternating [Lit t]
| alt_more t c ps : alternating ps -> alternating (Lit t :: Hit c :: ps).

(** The attribute updates of the sanitizer leave [width] and [height]. *)
Definition keepsSize (g : list attribute -> list attribute) : Prop :=
  forall attrs,
    getAttribute (lit "width") (g attrs) = getAttribute (lit "width") attrs
    /\ getAttribute (lit "height") (g attrs) = getAttribute (lit "height") attrs.

(** A direct child that is a [li] element. *)
Definition isListItem (child : node) : bool :=
  match child with
  | Elem tag _ _ => tagIs (lit "li") tag
  | Text _ => false
  end.

(** At code unit [k] of [text] the literal [Auteur:] starts, in any case,
    and what follows is the end of the text, an en dash or a hyphen. *)
Definition bareAuteurAt (text : jsstring) (k : nat) : Prop :=
  startsWithCI (lit "Auteur:") (skipn k text) = true ->
  match skipn 7 (skipn k text) with
  | [] => True
  | c :: _ => Page.notDash c = false
  end.

(** ** Induction over trees *)

Section NodeInduction.
Variable P : node -> Prop.
Hypothesis Htext : forall raw, P (Text raw).
Hypothesis Helem : forall tag attrs kids, Forall P kids -> P (Elem tag attrs kids).

Fixpoint node_induction (n : node) : P n :=
  match n with
  | Text raw => Htext raw
  | Elem tag attrs kids =>
    Helem tag attrs kids
      ((fix all (l : list node) : Forall P l :=
          match l with
          | [] => Forall_nil P
          | x :: r => Forall_cons x (node_induction x) (all r)
          end) kids)
  end.
End NodeInduction.

Lemma forest_induction (P : list node -> Prop) :
  P [] ->
  (forall raw ns, P ns -> P (Text raw :: ns)) ->
  (forall tag attrs kids ns, P kids -> P ns -> P (Elem tag attrs kids :: ns)) ->
  forall ns, P ns.
Proof.
  intros Hnil Htext Helem.
  assert (H : forall n, forall ns, P ns -> P (n :: ns)).
  { induction n as [raw | tag attrs kids IH] using node_induction; intros ns Hns.
    - now apply Htext.
    - apply Helem; [| exact Hns].
      induction IH as [| k kids Hk _ IHkids]; [exact Hnil | now apply Hk]. }
  induction ns as [| n ns IH]; [exact Hnil | now apply H].
Qed.

(** ** Facts about rebuilding *)

Lemma rebuild_cons f n ns : rebuild f (n :: ns) = rebuildNode f n ++ rebuild f ns.
Proof. reflexivity. Qed.

Lemma rebuildNode_elem f tag attrs kids :
  rebuildNode f (Elem tag attrs kids) = f tag attrs kids (rebuild f kids).
Proof. reflexivity. Qed.

Lemma allElems_app q a b : allElems q (a ++ b) = allElems q a && allElems q b.
Proof. apply forallb_app. Qed.

Lemma allElems_elem q tag attrs kids ns :
  allElems q (Elem tag attrs kids :: ns)
  = q tag attrs kids && allElems q kids && allElems q ns.
Proof. reflexivity. Qed.

Lemma allElems_trivial ns : allElems (fun _ _ _ => true) ns = true.
Proof.
  induction ns as [| raw ns IH | tag attrs kids ns IHk IH] using forest_induction.
  - reflexivity.
  - exact IH.
  - rewrite allElems_elem, IHk, IH. reflexivity.
Qed.

(** If the replacement of an element passes [q] whenever the element passed
    [q0] and its rebuilt children pass [q], the rebuilt forest passes [q]. *)
Lemma rebuild_all q0 q f :
  (forall tag attrs kids,
      q0 tag attrs kids = true ->
      allElems q (rebuild f kids) = true ->
      allElems q (f tag attrs kids (rebuild f kids)) = true) ->
  forall ns, allElems q0 ns = true -> allElems q (rebuild f ns) = true.
Proof.
  intros Hf.
  induction ns as [| raw ns IH | tag attrs kids ns IHk IH] using forest_induction;
    intros Hns.
  - reflexivity.
  - exact (IH Hns).
  - rewrite allElems_elem in Hns.
    apply andb_prop in Hns as [Hns Hrest]. apply andb_prop in Hns as [Hq Hkids].
    rewrite rebuild_cons, rebuildNode_elem, allElems_app.
    rewrite (Hf _ _ _ Hq (IHk Hkids)), (IH Hrest). reflexivity.
Qed.

Lemma removeAll_all q0 q sel :
  (forall tag attrs kids,
      q0 tag attrs kids = true -> sel tag attrs kids = false ->
      q tag attrs (removeAll sel kids) = true) ->
  forall ns, allElems q0 ns = true -> allElems q (removeAll sel ns) = true.
Proof.
  intros H. unfold removeAll. apply rebuild_all.
  intros tag attrs kids Hq Hk.
  destruct (sel tag attrs kids) eqn:Hsel; [reflexivity |].
  rewrite allElems_elem, Hk. unfold removeAll in H. rewrite (H _ _ _ Hq Hsel).
  reflexivity.
Qed.

Lemma updateAttrs_all q0 q g :
  (forall tag attrs kids,
      q0 tag attrs kids = true -> q tag (g attrs) (updateAttrs g kids) = true) ->
  forall ns, allElems q0 ns = true -> allElems q (updateAttrs g ns) = true.
Proof.
  intros H. unfold updateAttrs. apply rebuild_all.
  intros tag attrs kids Hq Hk.
  rewrite allElems_elem, Hk. unfold updateAttrs in H. rewrite (H _ _ _ Hq).
  reflexivity.
Qed.

(** A test that looks at the tag only survives every step. *)
Lemma unwrapWrappers_tags (p : jsstring -> bool) ns :
  allElems (fun tag _ _ => p tag) ns = true ->
  allElems (fun tag _ _ => p tag) (unwrapWrappers ns) = true.
Proof.
  unfold unwrapWrappers. apply rebuild_all.
  intros tag attrs kids Hq Hk.
  destruct (selWrapper attrs); [destruct (tagIn _ tag) |].
  - destruct kids; [reflexivity | exact Hk].
  - rewrite allElems_elem, Hq, Hk. reflexivity.
  - rewrite allElems_elem, Hq, Hk. reflexivity.
Qed.

(** What every step of a list keeps, the run of the list keeps. *)
Lemma runSteps_keeps (Q : list node -> Prop) steps :
  Forall (fun step => forall ns, Q ns -> Q (step ns)) steps ->
  forall ns, Q ns -> Q (runSteps steps ns).
Proof.
  unfold runSteps. induction 1 as [| step steps Hstep _ IH]; intros ns Hns.
  - exact Hns.
  - simpl. apply IH, Hstep, Hns.
Qed.

Lemma sanitizerSteps_tags (p : jsstring -> bool) :
  Forall (fun step => forall ns,
              allElems (fun tag _ _ => p tag) ns = true ->
              allElems (fun tag _ _ => p tag) (step ns) = true)
         (skipn 2 sanitizerSteps).
Proof.
  repeat constructor; intros ns H;
    first
      [ now apply (removeAll_all (fun tag _ _ => p tag));
          [intros ? ? ? Hq _; exact Hq |]
      | now apply (updateAttrs_all (fun tag _ _ => p tag));
          [intros ? ? ? Hq; exact Hq |]
      | now apply unwrapWrappers_tags ].
Qed.

(** ** Script and style elements *)

Lemma first_steps ns :
  cleanTree ns
  = runSteps (skipn 2 sanitizerSteps)
      (removeAll (onTag "script") (removeAll (onTag "style") ns)).
Proof. reflexivity. Qed.

Lemma removeScripts_all ns :
  allElems notScriptOrStyle
    (removeAll (onTag "script") (removeAll (onTag "style") ns)) = true.
Proof.
  apply (removeAll_all (fun tag _ _ => negb (tagIs (lit "style") tag))).
  - intros tag attrs kids Hstyle Hscript. unfold notScriptOrStyle, isScriptOrStyle.
    unfold onTag in Hscript. rewrite Hscript. exact Hstyle.
  - apply (removeAll_all (fun _ _ _ => true)).
    + intros tag attrs kids _ Hstyle. unfold onTag in Hstyle. now rewrite Hstyle.
    + apply allElems_trivial.
Qed.

Lemma textsOutside_cons hidden n ns :
  textsOutside hidden (n :: ns) = textsOutsideNode hidden n ++ textsOutside hidden ns.
Proof. reflexivity. Qed.

Lemma textsOutside_app hidden a b :
  textsOutside hidden (a ++ b) = textsOutside hidden a ++ textsOutside hidden b.
Proof. apply flat_map_app. Qed.

Lemma textsOutside_ext h h' ns :
  (forall tag, h tag = h' tag) -> textsOutside h ns = textsOutside h' ns.
Proof.
  intros E.
  induction ns as [| raw ns IH | tag attrs kids ns IHk IH] using forest_induction.
  - reflexivity.
  - rewrite !textsOutside_cons, IH. reflexivity.
  - rewrite !textsOutside_cons, IH. simpl. rewrite E.
    fold (textsOutside h kids) (textsOutside h' kids). now rewrite IHk.
Qed.

(** Removing the elements with certain tags hides the text below them. *)
Lemma textsOutside_removeAll h h2 ns :
  textsOutside h (removeAll (fun tag _ _ => h2 tag) ns)
  = textsOutside (fun tag => h2 tag || h tag) ns.
Proof.
  induction ns as [| raw ns IH | tag attrs kids ns IHk IH] using forest_induction.
  - reflexivity.
  - unfold removeAll in *. rewrite rebuild_cons. simpl rebuildNode.
    simpl app. rewrite !textsOutside_cons, IH. reflexivity.
  - unfold removeAll in *. rewrite rebuild_cons, rebuildNode_elem, textsOutside_app.
    rewrite IH, textsOutside_cons. f_equal. simpl.
    destruct (h2 tag); simpl; [reflexivity |].
    rewrite app_nil_r. destruct (h tag); [reflexivity |].
    exact IHk.
Qed.

Lemma removeScripts_texts ns :
  textNodes (removeAll (onTag "script") (removeAll (onTag "style") ns))
  = textsOutside isScriptOrStyle ns.
Proof.
  unfold textNodes, onTag.
  rewrite (textsOutside_removeAll (fun _ => false) (tagIs (lit "script"))).
  rewrite (textsOutside_removeAll _ (tagIs (lit "style"))).
  apply textsOutside_ext. intros tag. unfold isScriptOrStyle.
  destruct (tagIs (lit "style") tag), (tagIs (lit "script") tag); reflexivity.
Qed.

Lemma textNodes_elem tag attrs kids ns :
  textNodes (Elem tag attrs kids :: ns) = textNodes kids ++ textNodes ns.
Proof. reflexivity. Qed.

(** A step that puts nothing in place of an element but (some of) its
    rebuilt children adds no text. *)
Lemma rebuild_texts f :
  (forall tag attrs kids kids',
      incl (textNodes (f tag attrs kids kids')) (textNodes kids')) ->
  forall ns, incl (textNodes (rebuild f ns)) (textNodes ns).
Proof.
  intros Hf.
  induction ns as [| raw ns IH | tag attrs kids ns IHk IH] using forest_induction.
  - apply incl_refl.
  - rewrite rebuild_cons. simpl rebuildNode. simpl app.
    unfold textNodes in *. rewrite !textsOutside_cons.
    apply incl_app_app; [apply incl_refl | exact IH].
  - rewrite rebuild_cons, rebuildNode_elem, textNodes_elem.
    unfold textNodes at 1. rewrite textsOutside_app. fold textNodes.
    apply incl_app_app; [| exact IH].
    eapply incl_tran; [apply Hf | exact IHk].
Qed.

Lemma textNodes_single tag attrs kids :
  textNodes [Elem tag attrs kids] = textNodes kids.
Proof. rewrite textNodes_elem. apply app_nil_r. Qed.

Lemma removeAll_texts sel ns : incl (textNodes (removeAll sel ns)) (textNodes ns).
Proof.
  apply rebuild_texts. intros tag attrs kids kids'.
  destruct (sel tag attrs kids).
  - apply incl_nil_l.
  - rewrite textNodes_single. apply incl_refl.
Qed.

Lemma updateAttrs_texts g ns : incl (textNodes (updateAttrs g ns)) (textNodes ns).
Proof.
  apply rebuild_texts. intros tag attrs kids kids'.
  rewrite textNodes_single. apply incl_refl.
Qed.

Lemma unwrapWrappers_texts ns : incl (textNodes (unwrapWrappers ns)) (textNodes ns).
Proof.
  apply rebuild_texts. intros tag attrs kids kids'.
  destruct (selWrapper attrs); [destruct (tagIn _ tag) |];
    try (rewrite textNodes_single; apply incl_refl).
  destruct kids; [apply incl_nil_l | apply incl_refl].
Qed.

Lemma sanitizerSteps_texts (base : list jsstring) :
  Forall (fun step => forall ns,
              incl (textNodes ns) base -> incl (textNodes (step ns)) base)
         (skipn 2 sanitizerSteps).
Proof.
  repeat constructor; intros ns H;
    (eapply incl_tran; [| exact H]);
    first [ apply removeAll_texts | apply updateAttrs_texts | apply unwrapWrappers_texts ].
Qed.

Lemma allElems_weaken (q q' : jsstring -> list attribute -> list node -> bool) ns :
  (forall tag attrs kids, q tag attrs kids = true -> q' tag attrs kids = true) ->
  allElems q ns = true -> allElems q' ns = true.
Proof.
  intros Hq.
  induction ns as [| raw ns IH | tag attrs kids ns IHk IH] using forest_induction;
    intros H.
  - reflexivity.
  - exact (IH H).
  - rewrite allElems_elem in *.
    apply andb_prop in H as [H Hns]. apply andb_prop in H as [Ht Hk].
    now rewrite (Hq _ _ _ Ht), (IHk Hk), (IH Hns).
Qed.

(** Removing what is not there changes nothing. *)
Lemma removeAll_absent sel ns :
  allElems (fun tag attrs kids => negb (sel tag attrs kids)) ns = true ->
  removeAll sel ns = ns.
Proof.
  induction ns as [| raw ns IH | tag attrs kids ns IHk IH] using forest_induction;
    intros H.
  - reflexivity.
  - unfold removeAll in *. rewrite rebuild_cons. simpl rebuildNode. simpl app.
    f_equal. exact (IH H).
  - rewrite allElems_elem in H.
    apply andb_prop in H as [H Hns]. apply andb_prop in H as [Ht Hk].
    unfold removeAll in *. rewrite rebuild_cons, rebuildNode_elem.
    destruct (sel tag attrs kids); [discriminate |].
    rewrite (IHk Hk), (IH Hns). reflexivity.
Qed.

Lemma removeAll_app sel a b :
  removeAll sel (a ++ b) = removeAll sel a ++ removeAll sel b.
Proof. apply flat_map_app. Qed.

Lemma removeAll_text sel raw ns :
  removeAll sel (Text raw :: ns) = Text raw :: removeAll sel ns.
Proof. reflexivity. Qed.

Lemma removeAll_elem sel tag attrs kids ns :
  removeAll sel (Elem tag attrs kids :: ns)
  = (if sel tag attrs kids then [] else [Elem tag attrs (removeAll sel kids)])
    ++ removeAll sel ns.
Proof. reflexivity. Qed.

Lemma prune_removeAll ns :
  removeAll (onTag "script") (removeAll (onTag "style") ns) = prune isScriptOrStyle ns.
Proof.
  induction ns as [| raw ns IH | tag attrs kids ns IHk IH] using forest_induction.
  - reflexivity.
  - rewrite !removeAll_text, IH. reflexivity.
  - rewrite removeAll_elem, removeAll_app, IH.
    change (prune isScriptOrStyle (Elem tag attrs kids :: ns))
      with ((if isScriptOrStyle tag then []
             else [Elem tag attrs (prune isScriptOrStyle kids)])
            ++ prune isScriptOrStyle ns).
    f_equal. unfold isScriptOrStyle.
    change (onTag "style" tag attrs kids) with (tagIs (lit "style") tag).
    destruct (tagIs (lit "style") tag); [now rewrite orb_true_r |].
    rewrite orb_false_r, removeAll_elem.
    change (onTag "script" tag attrs (removeAll (onTag "style") kids))
      with (tagIs (lit "script") tag).
    destruct (tagIs (lit "script") tag); [reflexivity |].
    rewrite IHk. reflexivity.
Qed.

(** The sanitizer gives the same tree when the script and style elements
    are taken out of its input beforehand. *)
Lemma cleanTree_prune ns : cleanTree (prune isScriptOrStyle ns) = cleanTree ns.
Proof.
  rewrite <- prune_removeAll, !first_steps. f_equal.
  set (X := removeAll (onTag "script") (removeAll (onTag "style") ns)).
  pose proof (removeScripts_all ns) as H. fold X in H.
  rewrite (removeAll_absent (onTag "style") X).
  - apply removeAll_absent. revert H. apply allElems_weaken.
    intros tag attrs kids Hq. unfold notScriptOrStyle, isScriptOrStyle in Hq.
    apply negb_true_iff, orb_false_elim in Hq as [Hq _]. unfold onTag. now rewrite Hq.
  - revert H. apply allElems_weaken.
    intros tag attrs kids Hq. unfold notScriptOrStyle, isScriptOrStyle in Hq.
    apply negb_true_iff, orb_false_elim in Hq as [_ Hq]. unfold onTag. now rewrite Hq.
Qed.

(** ** Presentational attributes *)

Lemma forallb_filter_and {A} (p g : A -> bool) l :
  forallb p l = true -> forallb (fun x => p x && g x) (filter g l) = true.
Proof.
  induction l as [| x l IH]; simpl; [reflexivity |].
  intros H. apply andb_prop in H as [Hx Hl].
  destruct (g x) eqn:G; simpl; [rewrite Hx, G; simpl |]; now apply IH.
Qed.

Lemma forallb_filter_keep {A} (p g : A -> bool) l :
  forallb p l = true -> forallb p (filter g l) = true.
Proof.
  induction l as [| x l IH]; simpl; [reflexivity |].
  intros H. apply andb_prop in H as [Hx Hl].
  destruct (g x); simpl; [rewrite Hx; simpl |]; now apply IH.
Qed.

Lemma forallb_ext_in {A} (p q : A -> bool) l :
  (forall x, p x = q x) -> forallb p l = forallb q l.
Proof. intros E. induction l as [| x l IH]; simpl; [| rewrite E, IH]; reflexivity. Qed.

Lemma strip_class attrs :
  forallb (notNamed "class") (removeAttribute (lit "class") attrs) = true.
Proof.
  unfold removeAttribute.
  rewrite (forallb_ext_in _ (fun x => true && notNamed "class" x)) by reflexivity.
  apply (forallb_filter_and (fun _ => true)). now apply forallb_forall.
Qed.

Lemma strip_style attrs :
  forallb (notNamed "class") attrs = true ->
  forallb (fun kv => notNamed "class" kv && notNamed "style" kv)
          (removeAttribute (lit "style") attrs) = true.
Proof. apply forallb_filter_and. Qed.

Lemma strip_data attrs :
  forallb (fun kv => notNamed "class" kv && notNamed "style" kv) attrs = true ->
  forallb plainAttr (stripDataAndIds attrs) = true.
Proof.
  intros H. unfold stripDataAndIds.
  assert (H1 : forallb plainAttr
                 (filter (fun kv => negb (startsWith (lit "data-") (fst kv))) attrs) = true).
  { rewrite (forallb_ext_in _ (fun kv => (notNamed "class" kv && notNamed "style" kv)
                                          && notData kv)) by reflexivity.
    now apply forallb_filter_and. }
  destruct (generatedId _); [| exact H1].
  unfold removeAttribute. now apply forallb_filter_keep.
Qed.

Lemma attribute_steps ns :
  allElems noPresentation
    (updateAttrs stripDataAndIds
       (updateAttrs (removeAttribute (lit "style"))
          (updateAttrs (removeAttribute (lit "class")) ns))) = true.
Proof.
  apply (updateAttrs_all
           (fun _ attrs _ => forallb (fun kv => notNamed "class" kv && notNamed "style" kv) attrs)).
  { intros tag attrs kids H. now apply strip_data. }
  apply (updateAttrs_all (fun _ attrs _ => forallb (notNamed "class") attrs)).
  { intros tag attrs kids H. now apply strip_style. }
  apply (updateAttrs_all (fun _ _ _ => true)).
  { intros tag attrs kids _. apply strip_class. }
  apply allElems_trivial.
Qed.

Lemma last_steps ns :
  cleanTree ns
  = removeAll isEmptyBox (removeAll isEmptyParagraph
      (updateAttrs stripDataAndIds
         (updateAttrs (removeAttribute (lit "style"))
            (updateAttrs (removeAttribute (lit "class"))
               (runSteps (firstn 12 sanitizerSteps) ns))))).
Proof. reflexivity. Qed.

(** ** Empty paragraphs *)

Lemma dropWhile_nil p s : dropWhile p s = [] <-> forallb p s = true.
Proof.
  induction s as [| c s IH]; simpl; [tauto |].
  destruct (p c); simpl; [exact IH | split; discriminate].
Qed.

Lemma dropWhile_all p s : forallb p (dropWhile p s) = true -> dropWhile p s = [].
Proof.
  induction s as [| c s IH]; simpl; [reflexivity |].
  destruct (p c) eqn:E; [exact IH |]. simpl. rewrite E. discriminate.
Qed.

Lemma forallb_rev {A} (p : A -> bool) l : forallb p (rev l) = forallb p l.
Proof.
  induction l as [| x l IH]; simpl; [reflexivity |].
  rewrite forallb_app, IH. simpl. rewrite andb_true_r. apply andb_comm.
Qed.

(** [trim] leaves nothing exactly of the strings made of white space. *)
Lemma trim_empty s : isEmpty (trim s) = forallb isWhite s.
Proof.
  unfold trim. destruct (forallb isWhite s) eqn:W.
  - apply dropWhile_nil in W. rewrite W. reflexivity.
  - destruct (rev (dropWhile isWhite (rev (dropWhile isWhite s)))) eqn:R;
      [| reflexivity].
    exfalso. apply (f_equal (@rev N)) in R. rewrite rev_involutive in R. simpl in R.
    apply dropWhile_nil in R. rewrite forallb_rev in R.
    apply dropWhile_all in R. apply dropWhile_nil in R. congruence.
Qed.

Lemma textContent_cons n ns : textContent (n :: ns) = textOf n ++ textContent ns.
Proof. reflexivity. Qed.

Lemma textContent_app a b : textContent (a ++ b) = textContent a ++ textContent b.
Proof. unfold textContent. now rewrite map_app, concat_app. Qed.

Lemma blank_app a b : blank (a ++ b) = blank a && blank b.
Proof. unfold blank. rewrite textContent_app. apply forallb_app. Qed.

Lemma blank_elem tag attrs kids ns :
  blank (Elem tag attrs kids :: ns) = blank kids && blank ns.
Proof. unfold blank. rewrite textContent_cons. apply forallb_app. Qed.

Lemma blank_text raw ns : blank (Text raw :: ns) = forallb isWhite raw && blank ns.
Proof. unfold blank. rewrite textContent_cons. apply forallb_app. Qed.

Lemma hasMatch_app sel a b : hasMatch sel (a ++ b) = hasMatch sel a || hasMatch sel b.
Proof.
  unfold hasMatch, querySelectorAll. rewrite flat_map_app.
  destruct (flat_map (selectNode sel) a); reflexivity.
Qed.

Lemma hasMatch_text sel raw ns : hasMatch sel (Text raw :: ns) = hasMatch sel ns.
Proof. reflexivity. Qed.

Lemma hasMatch_elem sel tag attrs kids ns :
  hasMatch sel (Elem tag attrs kids :: ns)
  = sel tag attrs || hasMatch sel kids || hasMatch sel ns.
Proof.
  change (Elem tag attrs kids :: ns) with ([Elem tag attrs kids] ++ ns).
  rewrite hasMatch_app. f_equal.
  unfold hasMatch, querySelectorAll. simpl. rewrite app_nil_r.
  destruct (sel tag attrs); [reflexivity |]. reflexivity.
Qed.

Lemma removeAll_harmless sel :
  harmless sel ->
  forall ns,
    blank (removeAll sel ns) = blank ns
    /\ hasMatch selInline (removeAll sel ns) = hasMatch selInline ns.
Proof.
  intros Hsel.
  induction ns as [| raw ns IH | tag attrs kids ns IHk IH] using forest_induction.
  - split; reflexivity.
  - destruct IH as [IHb IHm]. unfold removeAll in *.
    rewrite rebuild_cons. simpl rebuildNode. simpl app.
    rewrite !blank_text, !hasMatch_text, IHb, IHm. split; reflexivity.
  - destruct IH as [IHb IHm], IHk as [IHkb IHkm]. unfold removeAll in *.
    rewrite rebuild_cons, rebuildNode_elem, blank_app, hasMatch_app, IHb, IHm.
    rewrite blank_elem, hasMatch_elem.
    destruct (sel tag attrs kids) eqn:S.
    + destruct (Hsel _ _ _ S) as (H1 & H2 & H3). rewrite H1, H2, H3.
      split; reflexivity.
    + rewrite blank_elem, hasMatch_elem, IHkb, IHkm. simpl.
      rewrite andb_true_r, orb_false_r. split; reflexivity.
Qed.

Lemma str_eqb_eq a b : str_eqb a b = true -> a = b.
Proof.
  revert b. induction a as [| x a IH]; destruct b as [| y b]; simpl;
    try discriminate; [reflexivity |].
  intros H. apply andb_prop in H as [Hx Hab].
  apply N.eqb_eq in Hx. subst y. f_equal. now apply IH.
Qed.

Lemma tagIs_eq name tag : tagIs name tag = true -> map lowerAscii tag = name.
Proof. intros H. symmetry. now apply str_eqb_eq. Qed.

Lemma harmless_paragraph : harmless isEmptyParagraph.
Proof.
  intros tag attrs kids H. unfold isEmptyParagraph in H.
  apply andb_prop in H as [H Hm]. apply andb_prop in H as [Hp Ht].
  repeat split.
  - unfold selInline, tagIn, tagIs. rewrite (tagIs_eq _ _ Hp). reflexivity.
  - now destruct (hasMatch selInline kids).
  - unfold blank. now rewrite <- trim_empty.
Qed.

Lemma innerHTML_cons n ns : innerHTML (n :: ns) = toString n ++ innerHTML ns.
Proof. reflexivity. Qed.

Lemma toString_elem tag attrs kids :
  exists rest, toString (Elem tag attrs kids) = 60%N :: rest.
Proof.
  change (toString (Elem tag attrs kids))
    with (let opening := lit "<" ++ tag ++ concat (map attrToString attrs) ++ lit ">" in
          if tagIn voidTags tag then opening
          else opening ++ innerHTML kids ++ lit "</" ++ tag ++ lit ">").
  cbv zeta. destruct (tagIn voidTags tag); eexists; reflexivity.
Qed.

(** Markup made of white space only holds no element. *)
Lemma white_markup sel kids :
  forallb isWhite (innerHTML kids) = true ->
  hasMatch sel kids = false /\ blank kids = true.
Proof.
  induction kids as [| [raw | tag attrs sub] kids IH]; intros H.
  - split; reflexivity.
  - rewrite innerHTML_cons, forallb_app in H. apply andb_prop in H as [Hr Hk].
    destruct (IH Hk) as [IHm IHb].
    rewrite hasMatch_text, blank_text, IHm, IHb. simpl in Hr. rewrite Hr.
    split; reflexivity.
  - rewrite innerHTML_cons in H.
    destruct (toString_elem tag attrs sub) as [rest E]. rewrite E in H.
    discriminate H.
Qed.

Lemma harmless_box : harmless isEmptyBox.
Proof.
  intros tag attrs kids H. unfold isEmptyBox in H.
  apply andb_prop in H as [Htag Ht]. rewrite trim_empty in Ht.
  destruct (white_markup selInline kids Ht) as [Hm Hb].
  repeat split; [| exact Hm | exact Hb].
  unfold tagIn in Htag. simpl in Htag. rewrite orb_false_r in Htag.
  unfold selInline, tagIn, tagIs.
  apply orb_prop in Htag as [Htag | Htag]; rewrite (tagIs_eq _ _ Htag); reflexivity.
Qed.

Lemma keptParagraph_removeAll sel tag attrs kids :
  harmless sel ->
  keptParagraph tag attrs (removeAll sel kids) = keptParagraph tag attrs kids.
Proof.
  intros Hsel. unfold keptParagraph. rewrite !trim_empty.
  destruct (removeAll_harmless sel Hsel kids) as [Hb Hm].
  unfold blank in Hb. now rewrite Hb, Hm.
Qed.

Lemma empty_steps ns :
  allElems keptParagraph (removeAll isEmptyBox (removeAll isEmptyParagraph ns)) = true.
Proof.
  apply (removeAll_all keptParagraph).
  { intros tag attrs kids H _.
    now rewrite (keptParagraph_removeAll _ _ _ _ harmless_box). }
  apply (removeAll_all (fun _ _ _ => true)); [| apply allElems_trivial].
  intros tag attrs kids _ H.
  rewrite (keptParagraph_removeAll _ _ _ _ harmless_paragraph).
  unfold keptParagraph. unfold isEmptyParagraph in H. now rewrite H.
Qed.

(** ** Facts about scanning *)

Lemma scanFrom_skip {C} (m : jsstring -> option (nat * C)) y b :
  scanFrom m (length y) (y ++ b) = scanFrom m 0 b.
Proof. induction y as [| c y IH]; [reflexivity | exact IH]. Qed.

(** A match at the head is reported and scanning resumes behind it. *)
Lemma scan_hit {C} (m : jsstring -> option (nat * C)) x b cap :
  x <> [] ->
  m (x ++ b) = Some (length x, cap) ->
  scan m (x ++ b) = Lit [] :: Hit cap :: scan m b.
Proof.
  destruct x as [| c y]; [congruence |]. intros _ H.
  unfold scan. simpl app in *. simpl scanFrom. rewrite H. simpl.
  now rewrite scanFrom_skip.
Qed.

(** Without a match at the head the first code unit joins the text. *)
Lemma scan_miss {C} (m : jsstring -> option (nat * C)) c s :
  m (c :: s) = None -> scan m (c :: s) = consLit c (scan m s).
Proof. intros H. unfold scan. simpl. now rewrite H. Qed.

Lemma scan_none {C} (m : jsstring -> option (nat * C)) s :
  (forall k, m (skipn k s) = None) -> scan m s = [Lit s].
Proof.
  induction s as [| c s IH]; intros H; [reflexivity |].
  rewrite scan_miss by exact (H 0%nat).
  rewrite IH; [reflexivity |]. intros k. exact (H (S k)).
Qed.

Lemma scan_headed {C} (m : jsstring -> option (nat * C)) h s :
  headed h m -> ~ In h s -> scan m s = [Lit s].
Proof.
  intros [Hnil Hhead] Hs. apply scan_none. intros k.
  destruct (skipn k s) as [| c r] eqn:E; [exact Hnil |].
  apply Hhead. intros ->. apply Hs.
  rewrite <- (firstn_skipn k s), E. apply in_or_app. right. now left.
Qed.

Lemma replaceAll_none {C} (m : jsstring -> option (nat * C)) f s :
  scan m s = [Lit s] -> replaceAll m f s = s.
Proof. intros H. unfold replaceAll. rewrite H. simpl. apply app_nil_r. Qed.

Lemma headed_whole h (m : jsstring -> option nat) :
  m [] = None -> (forall c r, c <> h -> m (c :: r) = None) -> headed h (whole m).
Proof.
  intros Hnil Hhead. split; unfold whole; [now rewrite Hnil |].
  intros c r Hc. now rewrite Hhead.
Qed.

Lemma startsWith_other p h c r : c <> h -> startsWith (h :: p) (c :: r) = false.
Proof.
  intros Hc. simpl. destruct (N.eqb h c) eqn:E; [| reflexivity].
  apply N.eqb_eq in E. congruence.
Qed.

(** Settles the prefix tests of a matcher whose literals start with a code
    unit other than the one at the head. *)
Ltac head_mismatch Hc :=
  repeat match goal with
         | |- context [startsWith (lit ?str) (?c :: ?r)] =>
           let p := eval cbv in (lit str) in
           change (lit str) with p; rewrite (startsWith_other _ _ c r Hc)
         end.

Lemma headed_reWpComment : headed 60 (whole reWpComment).
Proof.
  apply headed_whole; [reflexivity |]. intros c r Hc. unfold reWpComment.
  head_mismatch Hc. reflexivity.
Qed.

Lemma headed_reNumericCloser : headed 60 (whole reNumericCloser).
Proof.
  apply headed_whole; [reflexivity |]. intros c r Hc. unfold reNumericCloser.
  head_mismatch Hc. reflexivity.
Qed.

Lemma headed_tagAt : headed 60 tagAt.
Proof.
  split; [reflexivity |]. intros c r Hc. unfold tagAt.
  head_mismatch Hc. reflexivity.
Qed.

Lemma white_no_lt s : forallb isWhite s = true -> ~ In 60%N s.
Proof.
  induction s as [| c s IH]; simpl; [tauto |].
  intros H [E | Hin]; apply andb_prop in H as [Hc Hs].
  - subst c. discriminate Hc.
  - now apply IH.
Qed.

Lemma deleteAll_headed m s :
  headed 60 (whole m) -> ~ In 60%N s -> deleteAll m s = s.
Proof.
  intros Hm Hs. unfold deleteAll. apply replaceAll_none.
  now apply (scan_headed _ 60%N).
Qed.

(** Markup without [<] is one text node. *)
Lemma parseHtml_text c s :
  ~ In 60%N (c :: s) -> parseHtml (c :: s) = [Text (c :: s)].
Proof.
  intros Hs. unfold parseHtml.
  rewrite (scan_headed _ 60%N _ headed_tagAt Hs). reflexivity.
Qed.

Lemma trim_white s : forallb isWhite s = true -> trim s = [].
Proof.
  intros H. rewrite <- trim_empty in H. now destruct (trim s).
Qed.

Lemma cleanWordPressHtml_white html :
  forallb isWhite html = true -> cleanWordPressHtml html = [].
Proof.
  intros H. destruct html as [| c s]; [reflexivity |].
  pose proof (white_no_lt _ H) as Hlt.
  unfold cleanWordPressHtml, sanitizedTree, parsedTree. simpl isEmpty. cbv iota.
  rewrite (deleteAll_headed _ _ headed_reWpComment Hlt).
  rewrite (deleteAll_headed _ _ headed_reNumericCloser Hlt).
  rewrite (parseHtml_text _ _ Hlt).
  change (cleanTree [Text (c :: s)]) with [Text (c :: s)].
  unfold innerHTML. simpl map. simpl concat. rewrite app_nil_r.
  now apply trim_white.
Qed.

(** ** Text without entities *)

Lemma hasEntity_unfold s :
  hasEntity s
  = existsb (fun e => startsWith (fst e) s) namedEntities
    || match reDecimal s with Some _ => true | None => false end
    || match reHex s with Some _ => true | None => false end
    || match s with [] => false | _ :: s' => hasEntity s' end.
Proof. destruct s; reflexivity. Qed.

Lemma hasEntity_skipn s k : hasEntity s = false -> hasEntity (skipn k s) = false.
Proof.
  revert s. induction k as [| k IH]; intros s H; [exact H |].
  destruct s as [| c s]; [exact H |].
  rewrite hasEntity_unfold in H. apply orb_false_elim in H as [_ H].
  simpl skipn. now apply IH.
Qed.

Lemma hasEntity_head s :
  hasEntity s = false ->
  (forall e, In e namedEntities -> startsWith (fst e) s = false)
  /\ reDecimal s = None /\ reHex s = None.
Proof.
  intros H. rewrite hasEntity_unfold in H.
  apply orb_false_elim in H as [H _]. apply orb_false_elim in H as [H Hhex].
  apply orb_false_elim in H as [Hnamed Hdec].
  repeat split.
  - intros e He. destruct (startsWith (fst e) s) eqn:E; [| reflexivity].
    assert (X : existsb (fun e => startsWith (fst e) s) namedEntities = true)
      by (apply existsb_exists; now exists e).
    congruence.
  - now destruct (reDecimal s).
  - now destruct (reHex s).
Qed.

Lemma split_absent sep s :
  (forall k, startsWith sep (skipn k s) = false) -> split sep s = [s].
Proof.
  intros H. unfold split, splitRe. rewrite scan_none; [reflexivity |].
  intros k. unfold matchLit. now rewrite H.
Qed.

Lemma fold_left_fixed {A B} (f : A -> B -> A) l a :
  (forall b, In b l -> f a b = a) -> fold_left f l a = a.
Proof.
  induction l as [| b l IH]; intros H; [reflexivity |].
  simpl. rewrite (H b) by now left. apply IH. intros b' Hb'. apply H. now right.
Qed.

(** The decoder leaves text without entities as it is. *)
Lemma decode_fixed s : hasEntity s = false -> decodeHtmlEntities s = s.
Proof.
  intros H. unfold decodeHtmlEntities. destruct (isEmpty s) eqn:E.
  { now destruct s. }
  assert (Hk : forall k, (forall e, In e namedEntities ->
                                    startsWith (fst e) (skipn k s) = false)
                         /\ reDecimal (skipn k s) = None /\ reHex (skipn k s) = None).
  { intros k. apply hasEntity_head. now apply hasEntity_skipn. }
  rewrite fold_left_fixed.
  - rewrite (replaceAll_none reDecimal) by (apply scan_none; intros k; apply Hk).
    apply replaceAll_none, scan_none. intros k. apply Hk.
  - intros e He. unfold replaceNamed. rewrite split_absent; [reflexivity |].
    intros k. now apply Hk.
Qed.

(** ** Facts about the list loop *)

Lemma pushItem_fold items acc k :
  fold_left pushItem items (acc, k)
  = (acc ++ numbered k (filter nonEmpty (map itemText items)),
     (k + N.of_nat (length (filter nonEmpty (map itemText items))))%N).
Proof.
  revert acc k. induction items as [| item items IH]; intros acc k.
  - simpl. now rewrite app_nil_r, N.add_0_r.
  - change (fold_left pushItem (item :: items) (acc, k))
      with (fold_left pushItem items (pushItem (acc, k) item)).
    change (filter nonEmpty (map itemText (item :: items)))
      with (if negb (isEmpty (itemText item))
            then itemText item :: filter nonEmpty (map itemText items)
            else filter nonEmpty (map itemText items)).
    unfold pushItem at 2. destruct (isEmpty (itemText item)); simpl negb; cbv iota.
    + apply IH.
    + rewrite IH. simpl numbered. rewrite <- app_assoc. simpl app. f_equal.
      simpl length. lia.
Qed.

(** The list loop emits one item per non-empty text, numbered from 1. *)
Lemma listItemsOf_numbered items :
  listItemsOf items = numbered 1 (filter nonEmpty (map itemText items)).
Proof. unfold listItemsOf. now rewrite pushItem_fold. Qed.

Lemma numbered_length k texts : length (numbered k texts) = length texts.
Proof.
  revert k. induction texts as [| t r IH]; intros k; simpl; [| rewrite IH]; reflexivity.
Qed.

Lemma numbered_values k texts :
  map itemValue (numbered k texts)
  = map (fun i => Some (k + N.of_nat i)%N) (seq 0 (length texts)).
Proof.
  revert k. induction texts as [| t r IH]; intros k; [reflexivity |].
  simpl. rewrite N.add_0_r. f_equal. rewrite IH, <- seq_shift, map_map.
  apply map_ext. intros i. f_equal. lia.
Qed.

(** ** Facts about the table loops *)

Lemma pushCell_fold cellMatches acc :
  fold_left pushCell cellMatches acc = acc ++ map parseCell cellMatches.
Proof.
  revert acc. induction cellMatches as [| c r IH]; intros acc; simpl.
  - now rewrite app_nil_r.
  - rewrite IH. unfold pushCell. now rewrite <- app_assoc.
Qed.

Lemma pushRow_cells rows rowHtml :
  pushRow rows rowHtml
  = if hasCells rowHtml
    then rows ++ [TableRowNode (map parseCell (matchAll reCell rowHtml))]
    else rows.
Proof.
  unfold pushRow, hasCells. destruct (matchAll reCell rowHtml) as [| c r] eqn:E;
    [reflexivity |].
  rewrite pushCell_fold. reflexivity.
Qed.

Lemma pushRow_fold rowMatches acc :
  fold_left pushRow rowMatches acc
  = acc ++ map (fun rowHtml => TableRowNode (map parseCell (matchAll reCell rowHtml)))
               (filter hasCells rowMatches).
Proof.
  revert acc. induction rowMatches as [| r rs IH]; intros acc; simpl.
  - now rewrite app_nil_r.
  - rewrite IH, pushRow_cells. destruct (hasCells r); [| reflexivity].
    simpl. now rewrite <- app_assoc.
Qed.


(** ** Stepping through markup *)

Lemma consLit_hits {C} c (ps : list (@piece C)) :
  flat_map (fun p => match p with Lit _ => [] | Hit x => [x] end) (consLit c ps)
  = flat_map (fun p => match p with Lit _ => [] | Hit x => [x] end) ps.
Proof. destruct ps as [| [t | x] r]; reflexivity. Qed.

Lemma consLit_concat {C} (f : C -> jsstring) c (ps : list (@piece C)) :
  concat (map (fun p => match p with Lit t => t | Hit x => f x end) (consLit c ps))
  = c :: concat (map (fun p => match p with Lit t => t | Hit x => f x end) ps).
Proof. destruct ps as [| [t | x] r]; reflexivity. Qed.

Lemma hits_miss {C} (m : jsstring -> option (nat * C)) c s :
  m (c :: s) = None -> hits m (c :: s) = hits m s.
Proof. intros H. unfold hits. rewrite scan_miss by exact H. apply consLit_hits. Qed.

Lemma hits_hit {C} (m : jsstring -> option (nat * C)) x b cap :
  x <> [] -> m (x ++ b) = Some (length x, cap) -> hits m (x ++ b) = cap :: hits m b.
Proof. intros Hx H. unfold hits. now rewrite (scan_hit m x b cap Hx H). Qed.

Lemma replaceAll_miss {C} (m : jsstring -> option (nat * C)) f c s :
  m (c :: s) = None -> replaceAll m f (c :: s) = c :: replaceAll m f s.
Proof. intros H. unfold replaceAll. rewrite scan_miss by exact H. apply consLit_concat. Qed.

Lemma replaceAll_hit {C} (m : jsstring -> option (nat * C)) f x b cap :
  x <> [] -> m (x ++ b) = Some (length x, cap) ->
  replaceAll m f (x ++ b) = f cap ++ replaceAll m f b.
Proof. intros Hx H. unfold replaceAll. now rewrite (scan_hit m x b cap Hx H). Qed.

Lemma replaceAll_text {C} (m : jsstring -> option (nat * C)) f a b :
  headed 60 m -> ~ In 60%N a -> replaceAll m f (a ++ b) = a ++ replaceAll m f b.
Proof.
  intros Hm. induction a as [| c a IH]; intros Ha; [reflexivity |].
  simpl app. rewrite replaceAll_miss.
  - f_equal. apply IH. intros Hin. apply Ha. now right.
  - apply Hm. intros ->. apply Ha. now left.
Qed.

Lemma indexWhere_miss p c s :
  p (c :: s) = false -> indexWhere p (c :: s) = option_map S (indexWhere p s).
Proof. intros H. simpl. now rewrite H. Qed.

Lemma indexWhere_hit p s : p s = true -> indexWhere p s = Some 0%nat.
Proof. intros H. destruct s; simpl; now rewrite H. Qed.

(** A test that needs [<] at the head finds nothing inside text. *)
Lemma indexWhere_text p a b :
  (forall c r, c <> 60%N -> p (c :: r) = false) ->
  ~ In 60%N a ->
  indexWhere p (a ++ b) = option_map (Nat.add (length a)) (indexWhere p b).
Proof.
  intros Hp. induction a as [| c a IH]; intros Ha.
  - simpl. now destruct (indexWhere p b).
  - simpl app. rewrite indexWhere_miss.
    + rewrite IH by (intros Hin; apply Ha; now right).
      now destruct (indexWhere p b).
    + apply Hp. intros ->. apply Ha. now left.
Qed.


Lemma lowerAscii_lt c : c <> 60%N -> N.eqb (lowerAscii 60) (lowerAscii c) = false.
Proof.
  intros Hc. apply N.eqb_neq. unfold lowerAscii, inRange.
  change (N.leb 65 60 && N.leb 60 90) with false. cbv iota.
  destruct (N.leb 65 c && N.leb c 90) eqn:E.
  - apply andb_prop in E as [E _]. apply N.leb_le in E. lia.
  - congruence.
Qed.

Lemma startsWithCI_other p c r : c <> 60%N -> startsWithCI (60%N :: p) (c :: r) = false.
Proof.
  intros Hc.
  change (startsWithCI (60%N :: p) (c :: r))
    with (N.eqb (lowerAscii 60) (lowerAscii c) && startsWithCI p r).
  now rewrite lowerAscii_lt.
Qed.

Ltac head_mismatch_ci Hc :=
  repeat match goal with
         | |- context [startsWithCI (lit ?str) (?c :: ?r)] =>
           let p := eval cbv in (lit str) in
           change (lit str) with p; rewrite (startsWithCI_other _ c r Hc)
         end.

Lemma headed_reCellTag : headed 60 (whole reCellTag).
Proof.
  apply headed_whole; [reflexivity |]. intros c r Hc. unfold reCellTag.
  head_mismatch Hc. reflexivity.
Qed.

Lemma headed_reTag : headed 60 (whole reTag).
Proof.
  apply headed_whole; [reflexivity |]. intros c r Hc. unfold reTag.
  head_mismatch Hc. reflexivity.
Qed.

Lemma isCellClose_other c r : c <> 60%N -> isCellClose (c :: r) = false.
Proof. intros Hc. unfold isCellClose. head_mismatch_ci Hc. reflexivity. Qed.

Lemma isRowClose_other c r : c <> 60%N -> startsWithCI (lit "</tr>") (c :: r) = false.
Proof. intros Hc. head_mismatch_ci Hc. reflexivity. Qed.

Lemma tagFree_In text : tagFree text = true -> ~ In 60%N text.
Proof.
  unfold tagFree. intros H Hin.
  assert (X : existsb (N.eqb 60) text = true).
  { apply existsb_exists. exists 60%N. split; [exact Hin | reflexivity]. }
  rewrite X in H. discriminate.
Qed.

Lemma whole_hit m x b :
  m (x ++ b) = Some (length x) -> whole m (x ++ b) = Some (length x, x).
Proof.
  intros H. unfold whole. rewrite H. f_equal. f_equal.
  rewrite firstn_app, firstn_all, Nat.sub_diag. simpl. apply app_nil_r.
Qed.

(** An element without attributes: opener, [>], body, closer. *)
Lemma reElement_plain opener closer o body cl rest :
  opener (o ++ 62%N :: body ++ cl ++ rest) = true ->
  indexWhere closer (body ++ cl ++ rest) = Some (length body) ->
  reElement opener closer (length o) (length cl) (o ++ 62%N :: body ++ cl ++ rest)
  = Some (length (o ++ 62%N :: body ++ cl)).
Proof.
  intros Ho Hc. unfold reElement. rewrite Ho.
  rewrite skipn_app, skipn_all, Nat.sub_diag. simpl skipn. simpl app.
  rewrite indexWhere_hit by reflexivity.
  replace (length o + 0 + 1)%nat with (length o + 1)%nat by lia.
  rewrite skipn_app.
  replace (length o + 1 - length o)%nat with 1%nat by lia.
  rewrite skipn_all2 by lia. simpl skipn. simpl app. rewrite Hc.
  f_equal. rewrite !length_app. simpl length. rewrite length_app. lia.
Qed.

Lemma cellMarkup_app header text rest :
  cellMarkup header text ++ rest
  = (if header then lit "<th" else lit "<td") ++ 62%N :: text
    ++ (if header then lit "</th>" else lit "</td>") ++ rest.
Proof.
  destruct header; unfold cellMarkup, thCell, tdCell;
    rewrite <- !app_assoc; reflexivity.
Qed.

Lemma cellClose_at text (header : bool) rest :
  tagFree text = true ->
  indexWhere isCellClose (text ++ (if header then lit "</th>" else lit "</td>") ++ rest)
  = Some (length text).
Proof.
  intros Ht. rewrite indexWhere_text.
  - rewrite indexWhere_hit by (destruct header; reflexivity).
    simpl. f_equal. lia.
  - exact isCellClose_other.
  - now apply tagFree_In.
Qed.

(** The cell pattern matches a whole cell. *)
Lemma reCell_cell header text rest :
  tagFree text = true ->
  reCell (cellMarkup header text ++ rest) = Some (length (cellMarkup header text)).
Proof.
  intros Ht. rewrite cellMarkup_app.
  pose proof (reElement_plain isCellOpen isCellClose
                ((if header then lit "<th" else lit "<td")) text
                ((if header then lit "</th>" else lit "</td>")) rest) as H.
  unfold reCell.
  replace (length (cellMarkup header text))
    with (length ((if header then lit "<th" else lit "<td") ++ 62%N :: text
                  ++ (if header then lit "</th>" else lit "</td>"))).
  - destruct header; apply H; try reflexivity;
      [exact (cellClose_at text true rest Ht) | exact (cellClose_at text false rest Ht)].
  - destruct header; unfold cellMarkup, thCell, tdCell;
      rewrite !length_app; simpl; rewrite !length_app; simpl; lia.
Qed.

Lemma hits_cells header texts tail :
  forallb tagFree texts = true ->
  hits (whole reCell) (concat (map (cellMarkup header) texts) ++ tail)
  = map (cellMarkup header) texts ++ hits (whole reCell) tail.
Proof.
  induction texts as [| t texts IH]; intros H; [reflexivity |].
  simpl in H. apply andb_prop in H as [Ht Hts].
  simpl map. simpl concat. rewrite <- app_assoc.
  rewrite (hits_hit _ (cellMarkup header t) _ (cellMarkup header t)).
  - simpl. f_equal. now apply IH.
  - destruct header; discriminate.
  - apply whole_hit. now apply reCell_cell.
Qed.

(** The cell pattern finds exactly the cells of a row. *)
Lemma matchAll_row header texts :
  forallb tagFree texts = true ->
  matchAll reCell (rowMarkup header texts) = map (cellMarkup header) texts.
Proof.
  intros H. unfold matchAll, rowMarkup.
  change (lit "<tr>") with [60; 116; 114; 62]%N. cbn [app].
  do 4 (rewrite hits_miss by reflexivity).
  rewrite hits_cells by exact H.
  change (hits (whole reCell) (lit "</tr>")) with (@nil jsstring).
  apply app_nil_r.
Qed.


Lemma rowClose_cells header texts tail :
  forallb tagFree texts = true ->
  indexWhere (startsWithCI (lit "</tr>")) (concat (map (cellMarkup header) texts) ++ tail)
  = option_map (Nat.add (length (concat (map (cellMarkup header) texts))))
               (indexWhere (startsWithCI (lit "</tr>")) tail).
Proof.
  induction texts as [| t texts IH]; intros H.
  - simpl. now destruct (indexWhere _ tail).
  - simpl in H. apply andb_prop in H as [Ht Hts].
    simpl map. simpl concat. rewrite <- app_assoc, cellMarkup_app.
    destruct header.
    + change (lit "<th") with [60; 116; 104]%N.
      change (lit "</th>") with [60; 47; 116; 104; 62]%N. cbn [app].
      do 4 (rewrite indexWhere_miss by reflexivity).
      rewrite indexWhere_text by (try exact isRowClose_other; now apply tagFree_In).
      do 5 (rewrite indexWhere_miss by reflexivity).
      rewrite (IH Hts). destruct (indexWhere _ tail); [| reflexivity].
      simpl. f_equal. rewrite !length_app. simpl. lia.
    + change (lit "<td") with [60; 116; 100]%N.
      change (lit "</td>") with [60; 47; 116; 100; 62]%N. cbn [app].
      do 4 (rewrite indexWhere_miss by reflexivity).
      rewrite indexWhere_text by (try exact isRowClose_other; now apply tagFree_In).
      do 5 (rewrite indexWhere_miss by reflexivity).
      rewrite (IH Hts). destruct (indexWhere _ tail); [| reflexivity].
      simpl. f_equal. rewrite !length_app. simpl. lia.
Qed.

(** The row pattern matches a whole row. *)
Lemma reRow_row header texts rest :
  forallb tagFree texts = true ->
  reRow (rowMarkup header texts ++ rest) = Some (length (rowMarkup header texts)).
Proof.
  intros H. unfold rowMarkup.
  replace ((lit "<tr>" ++ concat (map (cellMarkup header) texts) ++ lit "</tr>") ++ rest)
    with (lit "<tr" ++ 62%N :: concat (map (cellMarkup header) texts) ++ lit "</tr>" ++ rest)
    by (rewrite <- !app_assoc; reflexivity).
  change (lit "<tr>" ++ concat (map (cellMarkup header) texts) ++ lit "</tr>")
    with (lit "<tr" ++ 62%N :: concat (map (cellMarkup header) texts) ++ lit "</tr>").
  apply (reElement_plain (startsWithCI (lit "<tr")) (startsWithCI (lit "</tr>"))
           (lit "<tr") (concat (map (cellMarkup header) texts)) (lit "</tr>") rest).
  - reflexivity.
  - rewrite rowClose_cells by exact H.
    rewrite indexWhere_hit by reflexivity. simpl. f_equal. lia.
Qed.

(** The row pattern finds exactly the two rows. *)
Lemma matchAll_table heads cells :
  forallb tagFree heads = true ->
  forallb tagFree cells = true ->
  matchAll reRow (twoRowTable heads cells)
  = [rowMarkup true heads; rowMarkup false cells].
Proof.
  intros Hh Hc. unfold matchAll, twoRowTable.
  change (lit "<table>") with [60; 116; 97; 98; 108; 101; 62]%N. cbn [app].
  rewrite hits_miss by (unfold rowMarkup; reflexivity).
  do 6 (rewrite hits_miss by reflexivity).
  rewrite (hits_hit _ (rowMarkup true heads) _ (rowMarkup true heads));
    [| discriminate | apply whole_hit; now apply reRow_row].
  rewrite (hits_hit _ (rowMarkup false cells) _ (rowMarkup false cells));
    [| discriminate | apply whole_hit; now apply reRow_row].
  reflexivity.
Qed.

Lemma deleteAll_cellTags header text :
  tagFree text = true -> deleteAll reCellTag (cellMarkup header text) = text.
Proof.
  intros Ht. unfold deleteAll.
  rewrite <- (app_nil_r (cellMarkup header text)), cellMarkup_app.
  destruct header.
  - change (lit "<th" ++ 62%N :: text ++ lit "</th>" ++ [])
      with (lit "<th>" ++ text ++ lit "</th>" ++ []).
    rewrite (replaceAll_hit _ _ (lit "<th>") _ (lit "<th>")) by (discriminate || reflexivity).
    rewrite replaceAll_text by (try exact headed_reCellTag; now apply tagFree_In).
    rewrite (replaceAll_hit _ _ (lit "</th>") _ (lit "</th>")) by (discriminate || reflexivity).
    simpl. now rewrite app_nil_r.
  - change (lit "<td" ++ 62%N :: text ++ lit "</td>" ++ [])
      with (lit "<td>" ++ text ++ lit "</td>" ++ []).
    rewrite (replaceAll_hit _ _ (lit "<td>") _ (lit "<td>")) by (discriminate || reflexivity).
    rewrite replaceAll_text by (try exact headed_reCellTag; now apply tagFree_In).
    rewrite (replaceAll_hit _ _ (lit "</td>") _ (lit "</td>")) by (discriminate || reflexivity).
    simpl. now rewrite app_nil_r.
Qed.

(** A cell is parsed into the node expected for its text. *)
Lemma parseCell_cell header text :
  tagFree text = true -> parseCell (cellMarkup header text) = cellNode header text.
Proof.
  intros Ht. unfold parseCell, cellNode, cellContent.
  rewrite deleteAll_cellTags by exact Ht.
  rewrite (deleteAll_headed _ _ headed_reTag (tagFree_In _ Ht)).
  destruct header; reflexivity.
Qed.

Lemma parseCell_cells header texts :
  forallb tagFree texts = true ->
  map parseCell (map (cellMarkup header) texts) = map (cellNode header) texts.
Proof.
  intros H. rewrite map_map. apply map_ext_in. intros t Ht.
  apply parseCell_cell. rewrite forallb_forall in H. now apply H.
Qed.

Lemma hasCells_row header texts :
  texts <> [] -> forallb tagFree texts = true ->
  hasCells (rowMarkup header texts) = true.
Proof.
  intros Hn H. unfold hasCells. rewrite matchAll_row by exact H.
  destruct texts; [congruence | reflexivity].
Qed.

(** The table parser on a header row and a body row. *)
Lemma parseHtmlTable_twoRows heads cells :
  heads <> [] -> cells <> [] ->
  forallb tagFree heads = true ->
  forallb tagFree cells = true ->
  parseHtmlTable (twoRowTable heads cells)
  = Some (TableNode [ TableRowNode (map (cellNode true) heads);
                      TableRowNode (map (cellNode false) cells) ]).
Proof.
  intros Hhn Hcn Hh Hc. unfold parseHtmlTable.
  rewrite matchAll_table by assumption.
  rewrite pushRow_fold. cbn [filter].
  rewrite !hasCells_row by assumption.
  cbn [map app].
  rewrite !matchAll_row by assumption.
  rewrite !parseCell_cells by assumption.
  reflexivity.
Qed.


(** ** Numeric references below U+10000 *)

Lemma toNumber_small v : (v < 65536)%N -> toNumber v = Some v.
Proof.
  intros Hv. unfold toNumber.
  assert (H : (N.size v <= 53)%N).
  { destruct (N.eq_dec v 0) as [-> | Hnz]; [simpl; lia |].
    rewrite N.size_log2 by exact Hnz.
    assert (N.log2 v < 16)%N by (apply N.log2_lt_pow2; [lia | exact Hv]).
    lia. }
  apply N.leb_le in H. now rewrite H.
Qed.

Lemma fromCharCode_small ds radix :
  (digitsValue radix ds < 65536)%N ->
  fromCharCode (parseInt ds radix) = [digitsValue radix ds].
Proof.
  intros Hv. unfold parseInt. rewrite (toNumber_small _ Hv). simpl.
  now rewrite N.mod_small.
Qed.

Lemma takeWhile_app_stop p a c r :
  forallb p a = true -> p c = false -> takeWhile p (a ++ c :: r) = a.
Proof.
  intros Ha Hc. induction a as [| x a IH]; simpl in *; [now rewrite Hc |].
  apply andb_prop in Ha as [Hx Ha]. rewrite Hx. f_equal. now apply IH.
Qed.

Lemma dropWhile_app_stop p a c r :
  forallb p a = true -> p c = false -> dropWhile p (a ++ c :: r) = c :: r.
Proof.
  intros Ha Hc. induction a as [| x a IH]; simpl in *; [now rewrite Hc |].
  apply andb_prop in Ha as [Hx Ha]. rewrite Hx. now apply IH.
Qed.

(** Every named entity starts with [&] followed by a code unit other than
    [#]. *)
Lemma namedEntities_shape e :
  In e namedEntities -> exists l p, fst e = 38%N :: l :: p /\ l <> 35%N.
Proof.
  assert (H : forallb (fun e => match fst e with
                                | a :: l :: _ => N.eqb a 38 && negb (N.eqb l 35)
                                | _ => false
                                end) namedEntities = true) by reflexivity.
  rewrite forallb_forall in H. intros He. specialize (H e He).
  destruct e as [name char]. cbn [fst] in *.
  destruct name as [| a [| l p]]; try discriminate.
  apply andb_prop in H as [Ha Hl]. apply N.eqb_eq in Ha. subst a.
  exists l, p. split; [reflexivity |].
  apply N.eqb_neq. now destruct (N.eqb l 35).
Qed.

(** No named entity occurs in a numeric reference. *)
Lemma named_absent_reference e body k :
  In e namedEntities -> ~ In 38%N body ->
  startsWith (fst e) (skipn k (38%N :: 35%N :: body)) = false.
Proof.
  intros He Hb. destruct (namedEntities_shape e He) as (l & p & -> & Hl).
  destruct k as [| k].
  - simpl. destruct (N.eqb l 35) eqn:E; [| reflexivity].
    apply N.eqb_eq in E. congruence.
  - simpl skipn. destruct (skipn k (35%N :: body)) as [| c r] eqn:E; [reflexivity |].
    apply startsWith_other. intros ->.
    assert (Hin : In 38%N (35%N :: body)).
    { rewrite <- (firstn_skipn k (35%N :: body)), E. apply in_or_app. right. now left. }
    destruct Hin as [Hin | Hin]; [discriminate | contradiction].
Qed.

Lemma named_fixed s :
  (forall e k, In e namedEntities -> startsWith (fst e) (skipn k s) = false) ->
  fold_left replaceNamed namedEntities s = s.
Proof.
  intros H. apply fold_left_fixed. intros e He. unfold replaceNamed.
  rewrite split_absent; [reflexivity |]. intros k. now apply H.
Qed.

Lemma digits_no_amp (p : N -> bool) ds :
  p 38%N = false -> forallb p ds = true -> ~ In 38%N (ds ++ [59%N]).
Proof.
  intros Hp Hd Hin. apply in_app_or in Hin as [Hin | [Hin | []]]; [| discriminate].
  rewrite forallb_forall in Hd. specialize (Hd _ Hin). congruence.
Qed.

Lemma reHex_unit v k : reHex (skipn k [v]) = None.
Proof.
  destruct k as [| [| k]]; [| reflexivity | reflexivity].
  unfold reHex. simpl skipn.
  change (startsWith (lit "&#x") [v]) with (N.eqb 38 v && false).
  now rewrite andb_false_r.
Qed.

(** A lone decimal reference below 65536 decodes to its code unit. *)
Lemma decode_decimal_reference ds :
  ds <> [] -> forallb isDigit ds = true -> (digitsValue 10 ds < 65536)%N ->
  decodeHtmlEntities (lit "&#" ++ ds ++ lit ";") = [digitsValue 10 ds].
Proof.
  intros Hne Hd Hv.
  change (lit "&#" ++ ds ++ lit ";") with (38%N :: 35%N :: ds ++ [59%N]).
  unfold decodeHtmlEntities. cbn [isEmpty].
  rewrite named_fixed
    by (intros e k He; apply named_absent_reference;
        [exact He | now apply (digits_no_amp isDigit)]).
  rewrite <- (app_nil_r (38%N :: 35%N :: ds ++ [59%N])).
  rewrite (replaceAll_hit reDecimal _ (38%N :: 35%N :: ds ++ [59%N]) [] ds).
  - change (replaceAll reDecimal _ []) with (@nil N). rewrite app_nil_r.
    rewrite fromCharCode_small by exact Hv.
    apply replaceAll_none, scan_none. intros k. apply reHex_unit.
  - discriminate.
  - rewrite app_nil_r. unfold reDecimal.
    change (startsWith (lit "&#") (38%N :: 35%N :: ds ++ [59%N])) with true.
    cbv iota. change (skipn 2 (38%N :: 35%N :: ds ++ [59%N])) with (ds ++ [59%N]).
    rewrite takeWhile_app_stop, dropWhile_app_stop by (exact Hd || reflexivity).
    destruct ds as [| d ds]; [congruence |].
    cbv zeta. cbn [N.eqb Pos.eqb]. f_equal. f_equal. simpl. rewrite length_app.
    simpl. lia.
Qed.

(** A lone hexadecimal reference below 65536 decodes to its code unit. *)
Lemma decode_hex_reference hs :
  hs <> [] -> forallb isHexDigit hs = true -> (digitsValue 16 hs < 65536)%N ->
  decodeHtmlEntities (lit "&#x" ++ hs ++ lit ";") = [digitsValue 16 hs].
Proof.
  intros Hne Hd Hv.
  change (lit "&#x" ++ hs ++ lit ";") with (38%N :: 35%N :: 120%N :: hs ++ [59%N]).
  unfold decodeHtmlEntities. cbn [isEmpty].
  rewrite named_fixed.
  2:{ intros e k He. apply (named_absent_reference e (120%N :: hs ++ [59%N]) k He).
      intros [Hx | Hin]; [discriminate |].
      now apply (digits_no_amp isHexDigit hs). }
  rewrite (replaceAll_none reDecimal).
  2:{ apply scan_none. intros k. destruct k as [| k].
      - reflexivity.
      - simpl skipn. destruct (skipn k (35%N :: 120%N :: hs ++ [59%N])) as [| c r] eqn:E;
          [reflexivity |].
        unfold reDecimal. change (lit "&#") with [38%N; 35%N].
        rewrite startsWith_other; [reflexivity |]. intros ->.
        assert (Hin : In 38%N (35%N :: 120%N :: hs ++ [59%N])).
        { rewrite <- (firstn_skipn k (35%N :: 120%N :: hs ++ [59%N])), E.
          apply in_or_app. right. now left. }
        destruct Hin as [Hin | [Hin | Hin]]; [discriminate | discriminate |].
        now apply (digits_no_amp isHexDigit hs). }
  rewrite <- (app_nil_r (38%N :: 35%N :: 120%N :: hs ++ [59%N])).
  rewrite (replaceAll_hit reHex _ (38%N :: 35%N :: 120%N :: hs ++ [59%N]) [] hs).
  - change (replaceAll reHex _ []) with (@nil N). rewrite app_nil_r.
    now apply fromCharCode_small.
  - discriminate.
  - rewrite app_nil_r. unfold reHex.
    change (startsWith (lit "&#x") (38%N :: 35%N :: 120%N :: hs ++ [59%N])) with true.
    cbv iota.
    change (skipn 3 (38%N :: 35%N :: 120%N :: hs ++ [59%N])) with (hs ++ [59%N]).
    rewrite takeWhile_app_stop, dropWhile_app_stop by (exact Hd || reflexivity).
    destruct hs as [| d hs]; [congruence |].
    cbv zeta. cbn [N.eqb Pos.eqb]. f_equal. f_equal. simpl. rewrite length_app.
    simpl. lia.
Qed.

(** ** The parsers as maps and filters *)

Lemma parseHtmlTable_rows tableHtml :
  parseHtmlTable tableHtml
  = match map (fun rowHtml => TableRowNode (map parseCell (matchAll reCell rowHtml)))
              (filter hasCells (matchAll reRow tableHtml)) with
    | [] => None
    | rows => Some (TableNode rows)
    end.
Proof.
  unfold parseHtmlTable. destruct (matchAll reRow tableHtml) as [| r rs]; [reflexivity |].
  rewrite pushRow_fold. cbn [app]. destruct (map _ _); reflexivity.
Qed.

Lemma parseHtmlList_items listHtml isOrdered :
  parseHtmlList listHtml isOrdered
  = match numbered 1 (filter nonEmpty
                        (map itemText (querySelectorAll selLi (parseHtml listHtml)))) with
    | [] => None
    | listItems => Some (ListNode isOrdered 1 listItems)
    end.
Proof.
  unfold parseHtmlList.
  destruct (querySelectorAll selLi (parseHtml listHtml)) as [| item items] eqn:E;
    [reflexivity |].
  rewrite listItemsOf_numbered. destruct (numbered _ _); reflexivity.
Qed.

(** ** The tree the sanitizer serialises

    What the steps of the sanitizer achieve on the elements of the parsed
    tree.  Markup that the parser keeps as text (the content of [pre],
    [script], [noscript] and [style] elements) is no element of the tree,
    and the steps do not reach it. *)

(** In the tree the sanitizer serialises no element, at any depth, carries
    an attribute spelled [class] or [style] or one whose name starts with
    [data-]: steps 12 to 14 reach every element of the tree. *)
Lemma sanitizedTree_no_presentational_attributes (html : jsstring) :
  allElems noPresentation (sanitizedTree html) = true.
Proof.
  unfold sanitizedTree. destruct (isEmpty html); [reflexivity |].
  rewrite last_steps.
  apply (removeAll_all noPresentation); [intros ? ? ? Hq _; exact Hq |].
  apply (removeAll_all noPresentation); [intros ? ? ? Hq _; exact Hq |].
  apply attribute_steps.
Qed.

(** The tree the sanitizer serialises holds no [script] and no [style]
    element at any depth; every text node of it is a text node of the
    parsed input that does not lie below a [script] or [style] element; and
    it is the tree the sanitizer would build from the parsed input with the
    [script] and [style] elements, and all below them, taken out. *)
Lemma sanitizedTree_no_script_no_style (html : jsstring) :
  allElems notScriptOrStyle (sanitizedTree html) = true
  /\ incl (textNodes (sanitizedTree html))
          (textsOutside isScriptOrStyle (parsedTree html))
  /\ sanitizedTree html
     = if isEmpty html then []
       else cleanTree (prune isScriptOrStyle (parsedTree html)).
Proof.
  unfold sanitizedTree. destruct (isEmpty html).
  { split; [reflexivity | split; [apply incl_nil_l | reflexivity]]. }
  split; [| split; [| now rewrite cleanTree_prune]]; rewrite first_steps.
  - apply (runSteps_keeps (fun ns => allElems notScriptOrStyle ns = true)).
    + apply (sanitizerSteps_tags (fun tag => negb (isScriptOrStyle tag))).
    + apply removeScripts_all.
  - apply (runSteps_keeps
             (fun ns => incl (textNodes ns)
                             (textsOutside isScriptOrStyle (parsedTree html)))).
    + apply sanitizerSteps_texts.
    + rewrite removeScripts_texts. apply incl_refl.
Qed.

(** The tree the sanitizer serialises holds no [p] element whose text, as
    written, is empty after trimming and that has no [img], [a] or [mark]
    below. *)
Lemma sanitizedTree_no_empty_paragraph (html : jsstring) :
  allElems keptParagraph (sanitizedTree html) = true.
Proof.
  unfold sanitizedTree. destruct (isEmpty html); [reflexivity |].
  rewrite last_steps. apply empty_steps.
Qed.

(** ** Worked examples *)

Example decode_spec_example_1 :
  decodeHtmlEntities (lit "A &amp; B &#8211; C") = lit "A & B " ++ [8211%N] ++ lit " C".
Proof. vm_compute. reflexivity. Qed.

Example decode_spec_example_2 :
  decodeHtmlEntities (lit "&#x2014;") = [8212%N].
Proof. vm_compute. reflexivity. Qed.

Example table_example :
  parseHtmlTable
    (lit "<table><thead><tr><th>Name</th><th></th></tr></thead><tbody><TR><td class='x'>Jan &amp; <b>Co</b></td><td> 3 </td></TR></tbody></table>")
  = Some (TableNode
      [ TableRowNode [ TableCellNode [ParagraphNode [TextNode (lit "Name")]] 1 1 1;
                       TableCellNode [ParagraphNode []] 1 1 1 ];
        TableRowNode [ TableCellNode [ParagraphNode [TextNode (lit "Jan & Co")]] 1 1 0;
                       TableCellNode [ParagraphNode [TextNode (lit "3")]] 1 1 0 ] ]).
Proof. vm_compute. reflexivity. Qed.

Example parse_example :
  parseHtml (lit "<div class='a b' id=x><p>Hi<br>there</p><!-- c --><script>1<2</script></div> tail")
  = [ Elem (lit "div") [(lit "class", Some (lit "a b")); (lit "id", Some (lit "x"))]
        [ Elem (lit "p") [] [Text (lit "Hi"); Elem (lit "br") [] []; Text (lit "there")];
          Elem (lit "script") [] [Text (lit "1<2")] ];
      Text (lit " tail") ].
Proof. vm_compute. reflexivity. Qed.

Example parse_list_example :
  parseHtml (lit "<ul><li>A</li><li>B</li></ul>")
  = [ Elem (lit "ul") []
        [ Elem (lit "li") [] [Text (lit "A")]; Elem (lit "li") [] [Text (lit "B")] ] ].
Proof. vm_compute. reflexivity. Qed.

Example clean_example :
  cleanWordPressHtml
    (lit "<!-- wp:paragraph --><div class='wp-block-group' data-x='1'><p class='a' style='b' data-y>Hi</p><p> </p><script>x()</script></1_a-b></div><!-- /wp:paragraph -->")
  = lit "<p>Hi</p>".
Proof. vm_compute. reflexivity. Qed.

(** The content of a [pre] element is text for the parser, not elements:
    the sanitizer passes it on as written. *)
Example clean_pre_example :
  cleanWordPressHtml (lit "<pre class='c'><code class='a'>x</code></pre>")
  = lit "<pre><code class='a'>x</code></pre>".
Proof. vm_compute. reflexivity. Qed.

Example list_example :
  parseHtmlList (lit "<ol><li>One</li><li> </li><li><b>Two</b> &amp; more</li></ol>") true
  = Some (ListNode true 1
      [ ListItemNode [ParagraphNode [TextNode (lit "One")]] 1;
        ListItemNode [ParagraphNode [TextNode (lit "Two & more")]] 2 ]).
Proof. vm_compute. reflexivity. Qed.

Example convert_example :
  htmlToLexical
    (lit "<h2 class='t'>Title</h2><p>Intro &amp; more</p><ul><li>A</li></ul><table><tr><td>x</td></tr></table><p></p>")
  = RootNode
      [ HeadingNode 2 [TextNode (lit "Title")];
        ParagraphNode [TextNode (lit "Intro & more")];
        ListNode false 1 [ListItemNode [ParagraphNode [TextNode (lit "A")]] 1];
        TableNode [TableRowNode [TableCellNode [ParagraphNode [TextNode (lit "x")]] 1 1 0]] ].
Proof. vm_compute. reflexivity. Qed.

Example convert_blank :
  htmlToLexical (lit "  ") = RootNode [placeholder]
  /\ htmlToLexical [] = RootNode [placeholder].
Proof. vm_compute. split; reflexivity. Qed.


(** ** The claims *)

(** C1, as stated, fails for list items.  The list
    [<ul><li></li><li>A</li></ul>] has two items, the first without text;
    the list node holds a single item, the one for [A]: the empty item is
    left out rather than given a paragraph without children. *)
Lemma C1_empty_list_item_omitted :
  let listHtml := lit "<ul><li></li><li>A</li></ul>" in
  map itemText (querySelectorAll selLi (parseHtml listHtml)) = [ []; lit "A" ]
  /\ parseHtmlList listHtml false
     = Some (ListNode false 1 [ListItemNode [ParagraphNode [TextNode (lit "A")]] 1]).
Proof. vm_compute. split; reflexivity. Qed.

(** C1, amended.  Table cells are never left out: the rows of the table
    node are the row matches that hold a cell, and the cells of a row are
    its cell matches, one node each and in order; a cell whose content is
    empty after tag-stripping and entity decoding gets a paragraph with
    zero children.  List items are different: the items of the list node
    are the [li] elements whose decoded text is not empty, so an item
    without text is left out. *)
Theorem C1_empty_cell_kept_empty_item_skipped :
  (forall tableHtml table,
      parseHtmlTable tableHtml = Some table ->
      children table
      = map (fun rowHtml => TableRowNode (map parseCell (matchAll reCell rowHtml)))
            (filter hasCells (matchAll reRow tableHtml)))
  /\ (forall cellHtml,
         cellContent cellHtml = [] ->
         exists headerState,
           parseCell cellHtml = TableCellNode [ParagraphNode []] 1 1 headerState)
  /\ (forall listHtml isOrdered listNode,
         parseHtmlList listHtml isOrdered = Some listNode ->
         children listNode
         = numbered 1 (filter nonEmpty
                         (map itemText (querySelectorAll selLi (parseHtml listHtml))))).
Proof.
  split; [| split].
  - intros tableHtml table H. rewrite parseHtmlTable_rows in H.
    destruct (map _ _) as [| r rs]; [discriminate |].
    injection H as <-. reflexivity.
  - intros cellHtml H. unfold parseCell. rewrite H. eexists. reflexivity.
  - intros listHtml isOrdered listNode H. rewrite parseHtmlList_items in H.
    destruct (numbered _ _) as [| item items]; [discriminate |].
    injection H as <-. reflexivity.
Qed.

Lemma C1_witness :
  let tableHtml := lit "<table><tr><td></td><td>x</td></tr></table>" in
  let cell x := TableCellNode [ParagraphNode x] 1 1 0 in
  children (TableNode [TableRowNode [cell []; cell [TextNode (lit "x")]]])
  = map (fun rowHtml => TableRowNode (map parseCell (matchAll reCell rowHtml)))
        (filter hasCells (matchAll reRow tableHtml))
  /\ (exists headerState,
         parseCell (lit "<td></td>") = TableCellNode [ParagraphNode []] 1 1 headerState)
  /\ children (ListNode false 1 [ListItemNode [ParagraphNode [TextNode (lit "A")]] 1])
     = numbered 1 (filter nonEmpty
                     (map itemText
                        (querySelectorAll selLi
                           (parseHtml (lit "<ul><li></li><li>A</li></ul>"))))).
Proof.
  destruct C1_empty_cell_kept_empty_item_skipped as (Htable & Hcell & Hlist).
  split; [| split].
  - apply Htable. vm_compute. reflexivity.
  - apply Hcell. vm_compute. reflexivity.
  - apply (Hlist _ false). vm_compute. reflexivity.
Defined.

(** C2, as stated, fails: decoding [&amp;amp;] gives [&amp;], and decoding
    that again gives [&]. *)
Lemma C2_decoding_twice_differs :
  decodeHtmlEntities (decodeHtmlEntities (lit "&amp;amp;"))
  <> decodeHtmlEntities (lit "&amp;amp;").
Proof. vm_compute. discriminate. Qed.

(** C2, amended.  Decoding is idempotent on text with no remaining
    entities: when the decoded string holds no named entity of the table
    and no numeric character reference, decoding it again returns it
    unchanged. *)
Theorem C2_idempotent_without_entities (s : jsstring) :
  hasEntity (decodeHtmlEntities s) = false ->
  decodeHtmlEntities (decodeHtmlEntities s) = decodeHtmlEntities s.
Proof. apply decode_fixed. Qed.

Lemma C2_witness :
  hasEntity (decodeHtmlEntities (lit "A &amp; B &#8211; C")) = false
  /\ decodeHtmlEntities (decodeHtmlEntities (lit "A &amp; B &#8211; C"))
     = decodeHtmlEntities (lit "A &amp; B &#8211; C").
Proof.
  split; [vm_compute; reflexivity |].
  apply C2_idempotent_without_entities. vm_compute. reflexivity.
Defined.

(** C3 fails on the code for code points above U+FFFF.  The reference
    [&#128512;] (and [&#x1F600;], the same code point) is decoded to the
    single code unit U+F600, the code point modulo 65536, while the
    character U+1F600 is the surrogate pair D83D DE00. *)
Theorem C3_astral_reference_truncated :
  decodeHtmlEntities (lit "&#128512;") = [62976%N]
  /\ decodeHtmlEntities (lit "&#x1F600;") = [62976%N]
  /\ codePoint 128512 = [55357%N; 56832%N].
Proof. vm_compute. repeat split; reflexivity. Qed.

(** C4.  For markup that is empty or made of white space only, the
    converter returns a root with exactly one child, the placeholder
    paragraph; and whatever the markup, the root is never without
    children. *)
Theorem C4_blank_input_gives_placeholder (html : jsstring) :
  (forallb isWhite html = true -> htmlToLexical html = RootNode [placeholder])
  /\ children (htmlToLexical html) <> [].
Proof.
  split.
  - intros H. unfold htmlToLexical. rewrite (cleanWordPressHtml_white _ H).
    reflexivity.
  - unfold htmlToLexical. cbn [children].
    destruct (fold_left pushSegment _ []); discriminate.
Qed.

Lemma C4_witness :
  forallb isWhite [32%N; 10%N; 9%N; 160%N] = true
  /\ htmlToLexical [32%N; 10%N; 9%N; 160%N] = RootNode [placeholder].
Proof.
  split; [reflexivity |].
  apply (C4_blank_input_gives_placeholder [32%N; 10%N; 9%N; 160%N]). reflexivity.
Defined.

(** C5.  For [<ul><li>A</li><li>B</li></ul>] list parsing yields a list
    node with exactly two list items, each holding exactly one paragraph
    that holds exactly one text node, with texts A and B and values 1 and
    2; the converter puts exactly this node under the root. *)
Theorem C5_two_item_list :
  let listNode :=
    ListNode false 1
      [ ListItemNode [ParagraphNode [TextNode (lit "A")]] 1;
        ListItemNode [ParagraphNode [TextNode (lit "B")]] 2 ] in
  parseHtmlList (lit "<ul><li>A</li><li>B</li></ul>") false = Some listNode
  /\ htmlToLexical (lit "<ul><li>A</li><li>B</li></ul>") = RootNode [listNode].
Proof. vm_compute. split; reflexivity. Qed.

(** C6.  For a table with one row of [th] cells and one row of [td] cells
    (both rows with at least one cell, the cell texts free of markup) table
    parsing yields a table node with two rows, one cell node per cell; the
    cells of the first row have header state 1, those of the second row
    header state 0, and every cell has column span 1 and row span 1. *)
Theorem C6_header_row_and_body_row (heads cells : list jsstring) :
  heads <> [] -> cells <> [] ->
  forallb tagFree heads = true ->
  forallb tagFree cells = true ->
  exists row1 row2,
    parseHtmlTable (twoRowTable heads cells)
    = Some (TableNode [TableRowNode row1; TableRowNode row2])
    /\ length row1 = length heads
    /\ length row2 = length cells
    /\ Forall (fun cell => cellSpans cell = Some (1, 1, 1)%N) row1
    /\ Forall (fun cell => cellSpans cell = Some (1, 1, 0)%N) row2.
Proof.
  intros Hhn Hcn Hh Hc.
  exists (map (cellNode true) heads), (map (cellNode false) cells).
  split; [now apply parseHtmlTable_twoRows |].
  rewrite !length_map. repeat split; apply Forall_map, Forall_forall; reflexivity.
Qed.

Lemma C6_witness :
  exists row1 row2,
    parseHtmlTable (twoRowTable [lit "Name"; lit "Age"] [lit "Jan"; lit "41"])
    = Some (TableNode [TableRowNode row1; TableRowNode row2])
    /\ length row1 = 2%nat
    /\ length row2 = 2%nat
    /\ Forall (fun cell => cellSpans cell = Some (1, 1, 1)%N) row1
    /\ Forall (fun cell => cellSpans cell = Some (1, 1, 0)%N) row2.
Proof.
  apply (C6_header_row_and_body_row [lit "Name"; lit "Age"] [lit "Jan"; lit "41"]);
    [discriminate | discriminate | reflexivity | reflexivity].
Defined.

(** C7 fails on the code.  The steps of the sanitizer work on the elements
    of the parsed tree, and compare attribute names by their spelling.
    The content of a [pre] element is one text node of that tree, so the
    markup in it is returned as it came, [style] attribute included; and
    attributes spelled [CLASS], [STYLE] and [DATA-Y] are not the [class],
    [style] and [data-] the steps look for, so they are returned too. *)
Theorem C7_presentational_attributes_survive :
  cleanWordPressHtml (lit "<pre><p style='a'>x</p></pre>")
  = lit "<pre><p style='a'>x</p></pre>"
  /\ cleanWordPressHtml
       (lit "<p CLASS=" ++ quoted (lit "a") ++ lit " STYLE=" ++ quoted (lit "b")
          ++ lit " DATA-Y=" ++ quoted (lit "1") ++ lit ">x</p>")
     = lit "<p CLASS=" ++ quoted (lit "a") ++ lit " STYLE=" ++ quoted (lit "b")
         ++ lit " DATA-Y=" ++ quoted (lit "1") ++ lit ">x</p>".
Proof. vm_compute. split; reflexivity. Qed.

(** C8 fails on the code.  A [script] element written inside a [pre]
    element is text of the parsed tree, not an element: no step removes it,
    and the output holds the element and its content. *)
Theorem C8_script_survives_in_pre :
  cleanWordPressHtml (lit "<pre><script>x()</script></pre>")
  = lit "<pre><script>x()</script></pre>".
Proof. vm_compute. reflexivity. Qed.

(** C9 fails on the code.  An empty [p] element written inside a [pre]
    element is text of the parsed tree, not an element: the clean-up of
    empty paragraphs does not reach it, and the output holds it. *)
Theorem C9_empty_paragraph_survives_in_pre :
  cleanWordPressHtml (lit "<pre><p></p></pre>") = lit "<pre><p></p></pre>".
Proof. vm_compute. reflexivity. Qed.

(** C10.  In every list node that list parsing produces, the children are
    list items, one for each [li] element with text, in document order, and
    their values are 1, 2, 3, ... without a gap, whether or not items
    without text were skipped in between. *)
Theorem C10_item_values_consecutive (listHtml : jsstring) (isOrdered : bool)
    (listNode : LexicalNode) :
  parseHtmlList listHtml isOrdered = Some listNode ->
  children listNode
  = numbered 1 (filter nonEmpty
                  (map itemText (querySelectorAll selLi (parseHtml listHtml))))
  /\ map itemValue (children listNode)
     = map (fun i => Some (N.of_nat i)) (seq 1 (length (children listNode))).
Proof.
  intros H. rewrite parseHtmlList_items in H.
  destruct (numbered _ _) as [| item items] eqn:E; [discriminate |].
  injection H as <-. cbn [children]. rewrite <- E. split; [reflexivity |].
  rewrite numbered_values, numbered_length, <- seq_shift, map_map.
  apply map_ext. intros k. f_equal. lia.
Qed.

Lemma C10_witness :
  let listHtml := lit "<ol><li>a</li><li> </li><li>b</li></ol>" in
  let listNode :=
    ListNode true 1
      [ ListItemNode [ParagraphNode [TextNode (lit "a")]] 1;
        ListItemNode [ParagraphNode [TextNode (lit "b")]] 2 ] in
  parseHtmlList listHtml true = Some listNode
  /\ children listNode
     = numbered 1 (filter nonEmpty
                     (map itemText (querySelectorAll selLi (parseHtml listHtml))))
  /\ map itemValue (children listNode)
     = map (fun i => Some (N.of_nat i)) (seq 1 (length (children listNode))).
Proof.
  split; [vm_compute; reflexivity |].
  apply (C10_item_values_consecutive
           (lit "<ol><li>a</li><li> </li><li>b</li></ol>") true).
  vm_compute. reflexivity.
Defined.


(** ** Further properties of the scripts *)

(** ** More facts about scanning *)

Lemma consLit_alternating {C} c (ps : list (@piece C)) :
  alternating ps -> alternating (consLit c ps).
Proof. intros H. destruct H; simpl; now constructor. Qed.

Lemma scanFrom_alternating {C} (m : jsstring -> option (nat * C)) s k :
  alternating (scanFrom m k s).
Proof.
  revert k. induction s as [| c s IH]; intros k; simpl.
  - constructor.
  - destruct k as [| k]; [| apply IH].
    destruct (m (c :: s)) as [[len cap] |].
    + constructor. apply IH.
    + apply consLit_alternating, IH.
Qed.

(** Joining the split pieces with [sep] replaces every match by [sep]. *)
Lemma join_pieces {C} sep (ps : list (@piece C)) :
  alternating ps ->
  join sep (flat_map (fun p => match p with Lit t => [t] | Hit _ => [] end) ps)
  = concat (map (fun p => match p with Lit t => t | Hit _ => sep end) ps).
Proof.
  induction 1 as [t | t c ps H IH].
  - simpl. now rewrite app_nil_r.
  - cbn [flat_map map concat app]. rewrite <- IH.
    destruct H; reflexivity.
Qed.

Lemma join_splitRe {C} (m : jsstring -> option (nat * C)) sep s :
  join sep (splitRe m s) = replaceAll m (fun _ => sep) s.
Proof.
  unfold splitRe, replaceAll, scan.
  rewrite join_pieces by apply scanFrom_alternating. reflexivity.
Qed.

(** Replacing matches by something non-empty leaves no non-empty string
    empty. *)
Lemma replaceAll_nonempty {C} (m : jsstring -> option (nat * C)) f s :
  (forall cap, f cap <> []) -> s <> [] -> replaceAll m f s <> [].
Proof.
  intros Hf Hs. destruct s as [| c s]; [congruence |].
  unfold replaceAll, scan. simpl scanFrom.
  destruct (m (c :: s)) as [[len cap] |].
  - simpl. specialize (Hf cap). destruct (f cap); [congruence | discriminate].
  - rewrite consLit_concat. discriminate.
Qed.

(** Replacing matches by at most one code unit each never lengthens. *)
Lemma scanFrom_length {C} (m : jsstring -> option (nat * C)) f s k :
  (forall cap, length (f cap) <= 1) ->
  length (concat (map (fun p => match p with Lit t => t | Hit c => f c end)
                      (scanFrom m k s)))
  + Nat.min k (length s) <= length s.
Proof.
  intros Hf. revert k. induction s as [| c s IH]; intros k.
  - simpl. lia.
  - simpl scanFrom. destruct k as [| k].
    + destruct (m (c :: s)) as [[len cap] |].
      * cbn [map concat app]. rewrite length_app.
        specialize (IH (pred len)). specialize (Hf cap). simpl length. lia.
      * rewrite consLit_concat. specialize (IH 0%nat). simpl length. simpl in IH. lia.
    + specialize (IH k). simpl length. simpl Nat.min. lia.
Qed.

Lemma replaceAll_length {C} (m : jsstring -> option (nat * C)) f s :
  (forall cap, length (f cap) <= 1) -> length (replaceAll m f s) <= length s.
Proof.
  intros Hf. pose proof (scanFrom_length m f s 0 Hf) as H.
  unfold replaceAll, scan. simpl in H. lia.
Qed.

Lemma fold_consLit {C} (t u : jsstring) (r : list (@piece C)) :
  fold_right consLit (Lit u :: r) t = Lit (t ++ u) :: r.
Proof. induction t as [| c t IH]; [reflexivity |]. simpl. now rewrite IH. Qed.

(** Text that the matcher cannot start in joins the text in front of what
    follows. *)
Lemma scan_text {C} (m : jsstring -> option (nat * C)) h t rest :
  headed h m -> ~ In h t -> scan m (t ++ rest) = fold_right consLit (scan m rest) t.
Proof.
  intros Hm Ht. induction t as [| c t IH]; [reflexivity |].
  simpl app. rewrite scan_miss.
  - simpl. f_equal. apply IH. intros Hin. apply Ht. now right.
  - apply Hm. intros ->. apply Ht. now left.
Qed.

Lemma firstMatch_none {C} (m : jsstring -> option (nat * C)) s :
  (forall k, m (skipn k s) = None) -> firstMatch m s = None.
Proof.
  induction s as [| c s IH]; intros H.
  - pose proof (H 0%nat) as H0. simpl in *. now rewrite H0.
  - pose proof (H 0%nat) as H0. simpl in *. rewrite H0.
    apply IH. intros k. exact (H (S k)).
Qed.

Lemma headed_none {C} (m : jsstring -> option (nat * C)) s k :
  headed 60 m -> ~ In 60%N s -> m (skipn k s) = None.
Proof.
  intros [Hnil Hhead] Hs. destruct (skipn k s) as [| c r] eqn:E; [exact Hnil |].
  apply Hhead. intros ->. apply Hs.
  rewrite <- (firstn_skipn k s), E. apply in_or_app. right. now left.
Qed.

Lemma firstMatch_some {C} (m : jsstring -> option (nat * C)) s c :
  firstMatch m s = Some c -> exists k n, m (skipn k s) = Some (n, c).
Proof.
  induction s as [| a s IH]; simpl.
  - destruct (m []) as [[n c'] |] eqn:E; [| discriminate].
    intros H. injection H as <-. exists 0%nat, n. exact E.
  - destruct (m (a :: s)) as [[n c'] |] eqn:E.
    + intros H. injection H as <-. exists 0%nat, n. exact E.
    + intros H. destruct (IH H) as (k & n & Hk). exists (S k), n. exact Hk.
Qed.

Lemma firstMatch_skip {C} (m : jsstring -> option (nat * C)) pre s :
  (forall k, k < length pre -> m (skipn k (pre ++ s)) = None) ->
  firstMatch m (pre ++ s) = firstMatch m s.
Proof.
  induction pre as [| c pre IH]; intros H; [reflexivity |].
  assert (H0 : m (c :: pre ++ s) = None) by (apply (H 0%nat); simpl; lia).
  simpl app. simpl firstMatch. rewrite H0.
  apply IH. intros k Hk. apply (H (S k)). simpl. lia.
Qed.

Lemma firstMatch_here {C} (m : jsstring -> option (nat * C)) s n c :
  m s = Some (n, c) -> firstMatch m s = Some c.
Proof. intros H. destruct s; simpl; now rewrite H. Qed.

Lemma firstMatch_miss {C} (m : jsstring -> option (nat * C)) c s :
  m (c :: s) = None -> firstMatch m (c :: s) = firstMatch m s.
Proof. intros H. simpl. now rewrite H. Qed.

Lemma fold_left_invariant {A B} (P : A -> Prop) (f : A -> B -> A) l a :
  (forall b x, In b l -> P x -> P (f x b)) -> P a -> P (fold_left f l a).
Proof.
  revert a. induction l as [| b l IH]; intros a Hstep Ha; [exact Ha |].
  simpl. apply IH.
  - intros b' x Hb'. apply Hstep. now right.
  - apply Hstep; [now left | exact Ha].
Qed.

(** ** Trimming and runs *)

Lemma dropWhile_suffix p s : exists w, s = w ++ dropWhile p s /\ forallb p w = true.
Proof.
  induction s as [| c s (w & E & Hw)]; [now exists [] |].
  simpl. destruct (p c) eqn:Hc.
  - exists (c :: w). split; [simpl; now f_equal | simpl; now rewrite Hc].
  - now exists [].
Qed.

Lemma dropWhile_head p s c r : dropWhile p s = c :: r -> p c = false.
Proof.
  induction s as [| x s IH]; [discriminate |]. simpl.
  destruct (p x) eqn:Hx; [exact IH |]. intros E. injection E as <- _. exact Hx.
Qed.

Lemma dropWhile_fixed p c r : p c = false -> dropWhile p (c :: r) = c :: r.
Proof. intros H. simpl. now rewrite H. Qed.

(** What [trim] returns is empty or starts and ends with a code unit that
    is not white space. *)
Lemma trim_shape s :
  trim s = []
  \/ exists a mid b,
       (trim s = a :: mid ++ [b] \/ (trim s = [a] /\ a = b))
       /\ isWhite a = false /\ isWhite b = false.
Proof.
  unfold trim.
  destruct (dropWhile_suffix isWhite (rev (dropWhile isWhite s))) as (w & E & Hw).
  destruct (dropWhile isWhite (rev (dropWhile isWhite s))) as [| b t] eqn:D;
    [now left |].
  right. pose proof (dropWhile_head _ _ _ _ D) as Hb.
  assert (Ea : dropWhile isWhite s = rev t ++ [b] ++ rev w).
  { rewrite <- (rev_involutive (dropWhile isWhite s)), E, rev_app_distr.
    simpl. now rewrite <- app_assoc. }
  simpl rev. destruct (rev t) as [| a mid] eqn:R.
  - exists b, [], b. repeat split; auto.
  - exists a, mid, b. repeat split; auto.
    apply (dropWhile_head isWhite s a (mid ++ [b] ++ rev w)). rewrite Ea. reflexivity.
Qed.

Lemma trim_fixed a mid b :
  isWhite a = false -> isWhite b = false -> trim (a :: mid ++ [b]) = a :: mid ++ [b].
Proof.
  intros Ha Hb. unfold trim. rewrite dropWhile_fixed by exact Ha.
  assert (E : rev (a :: mid ++ [b]) = b :: rev (a :: mid)).
  { change (a :: mid ++ [b]) with ((a :: mid) ++ [b]). now rewrite rev_app_distr. }
  rewrite E, dropWhile_fixed by exact Hb.
  rewrite <- E. apply rev_involutive.
Qed.

Lemma trim_fixed_unit a : isWhite a = false -> trim [a] = [a].
Proof. intros Ha. unfold trim. simpl. rewrite Ha. simpl. now rewrite Ha. Qed.

(** Trimming twice is trimming once. *)
Lemma trim_idempotent (s : jsstring) : trim (trim s) = trim s.
Proof.
  destruct (trim_shape s) as [E | (a & mid & b & [E | [E ->]] & Ha & Hb)]; rewrite E.
  - reflexivity.
  - now apply trim_fixed.
  - now apply trim_fixed_unit.
Qed.

Lemma trim_incl s c : In c (trim s) -> In c s.
Proof.
  unfold trim. intros H. apply in_rev in H.
  destruct (dropWhile_suffix isWhite (rev (dropWhile isWhite s))) as (w & E & _).
  assert (H1 : In c (rev (dropWhile isWhite s))) by (rewrite E; apply in_or_app; now right).
  apply in_rev in H1.
  destruct (dropWhile_suffix isWhite s) as (w' & E' & _).
  rewrite E'. apply in_or_app. now right.
Qed.

Lemma takeWhile_all p s : forallb p (takeWhile p s) = true.
Proof.
  induction s as [| c s IH]; [reflexivity |]. simpl.
  destruct (p c) eqn:E; [simpl; now rewrite E |]. reflexivity.
Qed.

Lemma takeWhile_dropWhile p s : takeWhile p s ++ dropWhile p s = s.
Proof.
  induction s as [| c s IH]; [reflexivity |]. simpl.
  destruct (p c); [simpl; now f_equal |]. reflexivity.
Qed.

Lemma forallb_trim p s : forallb p s = true -> forallb p (trim s) = true.
Proof.
  intros H. apply forallb_forall. intros c Hc.
  rewrite forallb_forall in H. now apply H, trim_incl.
Qed.

Lemma takeWhile_app_all p a b :
  forallb p a = true -> takeWhile p (a ++ b) = a ++ takeWhile p b.
Proof.
  intros H. induction a as [| x a IH]; [reflexivity |].
  simpl in *. apply andb_prop in H as [Hx Ha]. rewrite Hx. f_equal. now apply IH.
Qed.

Lemma dropWhile_app_all p a b :
  forallb p a = true -> dropWhile p (a ++ b) = dropWhile p b.
Proof.
  intros H. induction a as [| x a IH]; [reflexivity |].
  simpl in *. apply andb_prop in H as [Hx Ha]. rewrite Hx. now apply IH.
Qed.

Lemma takeWhile_app_left p a b :
  forallb p a = false -> takeWhile p (a ++ b) = takeWhile p a.
Proof.
  intros H. induction a as [| x a IH]; [discriminate |].
  simpl in *. destruct (p x); [f_equal; now apply IH | reflexivity].
Qed.

Lemma dropWhile_app_left p a b :
  forallb p a = false -> dropWhile p (a ++ b) = dropWhile p a ++ b.
Proof.
  intros H. induction a as [| x a IH]; [discriminate |].
  simpl in *. destruct (p x); [now apply IH | reflexivity].
Qed.

Lemma forallb_dropWhile p q s : forallb p s = true -> forallb p (dropWhile q s) = true.
Proof.
  intros H. destruct (dropWhile_suffix q s) as (w & E & _).
  rewrite E, forallb_app in H. now apply andb_prop in H as [_ H].
Qed.

Lemma trim_dropWhile s : trim (dropWhile isWhite s) = trim s.
Proof.
  unfold trim. f_equal. f_equal. f_equal.
  destruct (dropWhile isWhite s) as [| c r] eqn:E; [reflexivity |].
  apply dropWhile_fixed. exact (dropWhile_head _ _ _ _ E).
Qed.

Lemma trim_white_ends x s y :
  forallb isWhite x = true -> forallb isWhite y = true ->
  trim (x ++ s ++ y) = trim s.
Proof.
  intros Hx Hy. rewrite <- trim_dropWhile, dropWhile_app_all, trim_dropWhile by exact Hx.
  destruct (forallb isWhite s) eqn:W.
  - rewrite (trim_white s W). apply trim_white. rewrite forallb_app, W. exact Hy.
  - unfold trim. rewrite dropWhile_app_left by exact W.
    rewrite rev_app_distr, dropWhile_app_all; [reflexivity |].
    now rewrite forallb_rev.
Qed.

Lemma takeWhile_stop p y :
  match y with [] => true | c :: _ => negb (p c) end = true -> takeWhile p y = [].
Proof.
  destruct y as [| c r]; [reflexivity |]. simpl. intros H.
  apply negb_true_iff in H. now rewrite H.
Qed.

Lemma takeWhile_whole p s : forallb p s = true -> takeWhile p s = s.
Proof.
  intros H. rewrite <- (app_nil_r s) at 1. rewrite takeWhile_app_all by exact H.
  apply app_nil_r.
Qed.

(** A string lies between white space and its trimmed form. *)
Lemma trim_decompose s :
  exists w1 w2,
    s = w1 ++ trim s ++ w2 /\ forallb isWhite w1 = true /\ forallb isWhite w2 = true.
Proof.
  destruct (dropWhile_suffix isWhite s) as (w1 & E1 & H1).
  destruct (dropWhile_suffix isWhite (rev (dropWhile isWhite s))) as (w2 & E2 & H2).
  exists w1, (rev w2). split; [| split; [exact H1 | now rewrite forallb_rev]].
  unfold trim. rewrite <- rev_app_distr, <- E2, rev_involutive. exact E1.
Qed.

(** ** Splitting at one code unit *)

Lemma splitRe_consLit {C} x (ps : list (@piece C)) :
  alternating ps ->
  flat_map (fun p => match p with Lit t => [t] | Hit _ => [] end) (consLit x ps)
  = (x :: hd [] (flat_map (fun p => match p with Lit t => [t] | Hit _ => [] end) ps))
    :: tl (flat_map (fun p => match p with Lit t => [t] | Hit _ => [] end) ps).
Proof. intros H. destruct H; reflexivity. Qed.

Lemma split_unit_sep c s : split [c] (c :: s) = [] :: split [c] s.
Proof.
  unfold split, splitRe, scan. simpl scanFrom. unfold matchLit at 1.
  simpl startsWith. rewrite N.eqb_refl. reflexivity.
Qed.

Lemma split_unit_other c x s :
  x <> c -> split [c] (x :: s) = (x :: hd [] (split [c] s)) :: tl (split [c] s).
Proof.
  intros Hx. unfold split, splitRe, scan. simpl scanFrom. unfold matchLit at 1.
  simpl startsWith. replace (N.eqb c x) with false
    by (symmetry; apply N.eqb_neq; congruence).
  simpl andb. cbv iota. apply splitRe_consLit, scanFrom_alternating.
Qed.

Lemma split_unit_nonempty c s : split [c] s <> [].
Proof.
  destruct s as [| x s]; [discriminate |].
  destruct (N.eq_dec x c) as [-> | Hx].
  - rewrite split_unit_sep. discriminate.
  - rewrite split_unit_other by exact Hx. discriminate.
Qed.

Lemma split_unit_absent c s : ~ In c s -> split [c] s = [s].
Proof.
  induction s as [| x s IH]; intros H; [reflexivity |].
  rewrite split_unit_other by (intros ->; apply H; now left).
  rewrite IH by (intros Hin; apply H; now right). reflexivity.
Qed.

(** A string splits into its text before the first separator and the
    pieces of the rest. *)
Lemma split_unit_app c pre s :
  ~ In c pre -> split [c] (pre ++ c :: s) = pre :: split [c] s.
Proof.
  induction pre as [| x pre IH]; intros H.
  - apply split_unit_sep.
  - simpl app. rewrite split_unit_other by (intros ->; apply H; now left).
    rewrite IH by (intros Hin; apply H; now right). reflexivity.
Qed.

Lemma split_unit_hd c s :
  hd [] (split [c] s) = takeWhile (fun x => negb (N.eqb x c)) s.
Proof.
  induction s as [| x s IH]; [reflexivity |].
  simpl takeWhile. destruct (N.eqb x c) eqn:E.
  - apply N.eqb_eq in E. subst x. now rewrite split_unit_sep.
  - apply N.eqb_neq in E. rewrite split_unit_other by exact E. simpl. now rewrite IH.
Qed.

Lemma split_unit_pieces c s : Forall (fun p => ~ In c p) (split [c] s).
Proof.
  induction s as [| x s IH]; [repeat constructor; intros [] |].
  destruct (N.eq_dec x c) as [-> | Hx].
  - rewrite split_unit_sep. constructor; [intros [] | exact IH].
  - rewrite split_unit_other by exact Hx.
    destruct (split [c] s) as [| t r]; simpl.
    + repeat constructor. intros [E | []]. congruence.
    + inversion IH as [| ? ? Ht Hr]; subst. constructor; [| exact Hr].
      intros [E | Hin]; [congruence | now apply Ht].
Qed.

Lemma split_unit_tail c s : In c s -> tl (split [c] s) <> [].
Proof.
  induction s as [| x s IH]; intros H; [destruct H |].
  destruct (N.eq_dec x c) as [-> | Hx].
  - rewrite split_unit_sep. apply split_unit_nonempty.
  - rewrite split_unit_other by exact Hx. simpl. apply IH.
    destruct H as [E | H]; [congruence | exact H].
Qed.

Lemma last_cons_more {A} (a : A) l d : l <> [] -> last (a :: l) d = last l d.
Proof. destruct l; [congruence | reflexivity]. Qed.

(** The last piece is what follows the last separator. *)
Lemma split_unit_last c pre name :
  ~ In c name -> last (split [c] (pre ++ c :: name)) [] = name.
Proof.
  intros Hn. induction pre as [| x pre IH].
  - simpl app. rewrite split_unit_sep, split_unit_absent by exact Hn. reflexivity.
  - simpl app. destruct (N.eq_dec x c) as [-> | Hx].
    + rewrite split_unit_sep, last_cons_more by apply split_unit_nonempty. exact IH.
    + rewrite split_unit_other by exact Hx.
      assert (T : tl (split [c] (pre ++ c :: name)) <> [])
        by (apply split_unit_tail, in_or_app; right; now left).
      rewrite last_cons_more by exact T. rewrite <- IH at 2.
      destruct (split [c] (pre ++ c :: name)) as [| t r]; [reflexivity |].
      simpl in T. simpl tl. now rewrite last_cons_more.
Qed.

(** ** More facts about the entity decoder *)

Lemma replaceNamed_replaceAll decoded e :
  replaceNamed decoded e = replaceAll (matchLit (fst e)) (fun _ => snd e) decoded.
Proof. unfold replaceNamed, split. apply join_splitRe. Qed.

(** Every named entity stands for exactly one code unit. *)
Lemma namedEntities_unit e : In e namedEntities -> length (snd e) = 1%nat.
Proof.
  assert (H : forallb (fun e => Nat.eqb (length (snd e)) 1) namedEntities = true)
    by reflexivity.
  rewrite forallb_forall in H. intros He. now apply Nat.eqb_eq, H.
Qed.

Lemma fromCharCode_unit x : length (fromCharCode x) = 1%nat.
Proof. destruct x; reflexivity. Qed.

Lemma decode_isEmpty s : isEmpty (decodeHtmlEntities s) = isEmpty s.
Proof.
  destruct s as [| c s]; [reflexivity |].
  unfold decodeHtmlEntities. cbn [isEmpty].
  match goal with |- isEmpty ?t = false => enough (H : t <> []) by now destruct t end.
  apply replaceAll_nonempty; [intros cap; now destruct (parseInt cap 16) |].
  apply replaceAll_nonempty; [intros cap; now destruct (parseInt cap 10) |].
  apply (fold_left_invariant (fun t => t <> [])); [| discriminate].
  intros e t He Ht. rewrite replaceNamed_replaceAll.
  apply replaceAll_nonempty; [| exact Ht].
  intros _ E. pose proof (namedEntities_unit e He) as L. rewrite E in L. discriminate.
Qed.

(** X1.  The decoder returns the empty string for the empty string only:
    every replacement puts one code unit in place of an entity. *)
Theorem decode_empty_iff (s : jsstring) :
  isEmpty (decodeHtmlEntities s) = isEmpty s.
Proof. apply decode_isEmpty. Qed.

(** X2.  Decoding never makes a string longer. *)
Theorem decode_never_longer (s : jsstring) :
  length (decodeHtmlEntities s) <= length s.
Proof.
  unfold decodeHtmlEntities. destruct (isEmpty s); [simpl; lia |].
  etransitivity; [apply replaceAll_length; intros; now rewrite fromCharCode_unit |].
  etransitivity; [apply replaceAll_length; intros; now rewrite fromCharCode_unit |].
  apply (fold_left_invariant (fun t => length t <= length s)); [| lia].
  intros e t He Ht. rewrite replaceNamed_replaceAll.
  etransitivity; [apply replaceAll_length | exact Ht].
  intros _. now rewrite (namedEntities_unit e He).
Qed.

Lemma no_amp_no_entity s : ~ In 38%N s -> hasEntity s = false.
Proof.
  induction s as [| c s IH]; intros Hs.
  - reflexivity.
  - assert (Hc : c <> 38%N) by (intros ->; apply Hs; now left).
    rewrite hasEntity_unfold, IH by (intros Hin; apply Hs; now right).
    rewrite orb_false_r.
    assert (Hd : reDecimal (c :: s) = None).
    { unfold reDecimal. head_mismatch Hc. reflexivity. }
    assert (Hh : reHex (c :: s) = None).
    { unfold reHex. head_mismatch Hc. reflexivity. }
    rewrite Hd, Hh, !orb_false_r.
    destruct (existsb _ namedEntities) eqn:E; [| reflexivity].
    apply existsb_exists in E as (e & He & Hst).
    destruct (namedEntities_shape e He) as (l & p & Hfst & _).
    rewrite Hfst, startsWith_other in Hst by exact Hc. discriminate.
Qed.

(** X3.  Text without [&] is returned as it is. *)
Theorem decode_without_amp (s : jsstring) :
  ~ In 38%N s -> decodeHtmlEntities s = s.
Proof. intros H. apply decode_fixed, no_amp_no_entity, H. Qed.

Lemma decode_without_amp_witness :
  ~ In 38%N (lit "tekst < 3 > 2") /\ decodeHtmlEntities (lit "tekst < 3 > 2") = lit "tekst < 3 > 2".
Proof.
  assert (H : ~ In 38%N (lit "tekst < 3 > 2")).
  { intros Hin. repeat (destruct Hin as [Hin | Hin]; [discriminate |]). exact Hin. }
  split; [exact H | exact (decode_without_amp _ H)].
Defined.

(** X4.  Each named entity of the table, taken alone, decodes to the
    character the table gives for it. *)
Theorem decode_named_entity (e : jsstring * jsstring) :
  In e namedEntities -> decodeHtmlEntities (fst e) = snd e.
Proof.
  assert (H : forallb (fun e => str_eqb (decodeHtmlEntities (fst e)) (snd e))
                      namedEntities = true) by (vm_compute; reflexivity).
  rewrite forallb_forall in H. intros He. now apply str_eqb_eq, H.
Qed.

Lemma decode_named_entity_witness :
  decodeHtmlEntities (lit "&amp;") = lit "&".
Proof.
  apply (decode_named_entity (lit "&amp;", lit "&")). right. left. reflexivity.
Defined.

(** X5.  A decimal reference to a code point below 65536 (hexadecimal
    10000), standing alone, decodes to the one code unit of that code
    point; leading zeros do not matter. *)
Theorem decimal_reference_below_65536 (ds : jsstring) :
  ds <> [] -> forallb isDigit ds = true -> (digitsValue 10 ds < 65536)%N ->
  decodeHtmlEntities (lit "&#" ++ ds ++ lit ";") = [digitsValue 10 ds].
Proof. apply decode_decimal_reference. Qed.

Lemma decimal_reference_below_65536_witness :
  decodeHtmlEntities (lit "&#" ++ lit "08211" ++ lit ";") = [8211%N].
Proof.
  apply (decimal_reference_below_65536 (lit "08211"));
    [discriminate | reflexivity | reflexivity].
Defined.

(** X6.  A hexadecimal reference to a code point below 65536, standing
    alone, decodes to the one code unit of that code point, whatever the
    case of its digits. *)
Theorem hex_reference_below_65536 (hs : jsstring) :
  hs <> [] -> forallb isHexDigit hs = true -> (digitsValue 16 hs < 65536)%N ->
  decodeHtmlEntities (lit "&#x" ++ hs ++ lit ";") = [digitsValue 16 hs].
Proof. apply decode_hex_reference. Qed.

Lemma hex_reference_below_65536_witness :
  decodeHtmlEntities (lit "&#x" ++ lit "20aC" ++ lit ";") = [8364%N].
Proof.
  apply (hex_reference_below_65536 (lit "20aC"));
    [discriminate | reflexivity | reflexivity].
Defined.

(** ** Stripping tags *)

Lemma hasTag_unfold s :
  hasTag s
  = match reTag s with Some _ => true | None => false end
    || match s with [] => false | _ :: s' => hasTag s' end.
Proof. destruct s; reflexivity. Qed.

Lemma isGt_cons c r : isGt (c :: r) = N.eqb 62 c.
Proof. unfold isGt. simpl. apply andb_true_r. Qed.

Lemma indexWhere_isGt_none r : indexWhere isGt r = None <-> ~ In 62%N r.
Proof.
  induction r as [| c r IH]; [simpl; tauto |].
  simpl indexWhere. rewrite isGt_cons. destruct (N.eqb 62 c) eqn:E.
  - apply N.eqb_eq in E. subst c. split; [discriminate | intros H; exfalso; apply H; now left].
  - apply N.eqb_neq in E. destruct (indexWhere isGt r) as [i |].
    + split; [discriminate |]. intros H. exfalso.
      assert (X : ~ In 62%N r) by (intros Hin; apply H; now right).
      apply IH in X. discriminate.
    + split; [| reflexivity]. intros _ [H | H]; [congruence |]. now apply IH.
Qed.

Lemma indexWhere_isGt_some r i :
  indexWhere isGt r = Some i ->
  exists pre post, r = pre ++ 62%N :: post /\ length pre = i.
Proof.
  revert i. induction r as [| c r IH]; intros i H; [discriminate |].
  simpl indexWhere in H. rewrite isGt_cons in H. destruct (N.eqb 62 c) eqn:E.
  - injection H as <-. apply N.eqb_eq in E. subst c. now exists [], r.
  - destruct (indexWhere isGt r) as [j |]; [| discriminate].
    injection H as <-. destruct (IH j eq_refl) as (pre & post & -> & Hl).
    exists (c :: pre), post. split; [reflexivity | simpl; now rewrite Hl].
Qed.

Lemma reTag_none_without_gt s : ~ In 62%N s -> reTag s = None.
Proof.
  intros H. unfold reTag. destruct (startsWith (lit "<") s) eqn:E; [| reflexivity].
  destruct s as [| c s]; [discriminate |]. simpl skipn.
  assert (X : indexWhere isGt s = None).
  { apply indexWhere_isGt_none. intros Hin. apply H. now right. }
  now rewrite X.
Qed.

Lemma hasTag_without_gt s : ~ In 62%N s -> hasTag s = false.
Proof.
  induction s as [| c s IH]; intros H; [reflexivity |].
  rewrite hasTag_unfold, reTag_none_without_gt by exact H.
  apply IH. intros Hin. apply H. now right.
Qed.

Lemma deleteAll_without_gt s : ~ In 62%N s -> deleteAll reTag s = s.
Proof.
  intros H. unfold deleteAll. apply replaceAll_none, scan_none. intros k.
  unfold whole. rewrite reTag_none_without_gt; [reflexivity |].
  intros Hin. apply H. rewrite <- (firstn_skipn k s). apply in_or_app. now right.
Qed.

Lemma deleteAll_miss m c s :
  m (c :: s) = None -> deleteAll m (c :: s) = c :: deleteAll m s.
Proof.
  intros H. unfold deleteAll. apply replaceAll_miss. unfold whole. now rewrite H.
Qed.

Lemma deleteAll_hit m x b :
  x <> [] -> m (x ++ b) = Some (length x) -> deleteAll m (x ++ b) = deleteAll m b.
Proof.
  intros Hx H. unfold deleteAll.
  now rewrite (replaceAll_hit _ _ x b x Hx (whole_hit m x b H)).
Qed.

Lemma reTag_other c s : c <> 60%N -> reTag (c :: s) = None.
Proof. intros Hc. unfold reTag. head_mismatch Hc. reflexivity. Qed.

Lemma deleteAll_reTag_tagless_bounded n s :
  length s <= n -> hasTag (deleteAll reTag s) = false.
Proof.
  revert s. induction n as [| n IH]; intros s Hn.
  - destruct s; [reflexivity | simpl in Hn; lia].
  - destruct s as [| c s]; [reflexivity |].
    simpl in Hn. destruct (N.eq_dec c 60) as [-> | Hc].
    + destruct (indexWhere isGt s) as [[| i] |] eqn:E.
      * destruct (indexWhere_isGt_some _ _ E) as (pre & post & -> & Hl).
        destruct pre; [| discriminate]. simpl app in *.
        rewrite deleteAll_miss by reflexivity.
        rewrite deleteAll_miss by (apply reTag_other; discriminate).
        rewrite hasTag_unfold.
        assert (X : reTag (60%N :: 62%N :: deleteAll reTag post) = None) by reflexivity.
        rewrite X, orb_false_l. rewrite hasTag_unfold, reTag_other by discriminate.
        rewrite orb_false_l.
        apply IH. simpl in Hn. lia.
      * destruct (indexWhere_isGt_some _ _ E) as (pre & post & -> & Hl).
        assert (Hm : reTag ((60%N :: pre ++ [62%N]) ++ post)
                     = Some (length (60%N :: pre ++ [62%N]))).
        { simpl app. rewrite <- app_assoc. simpl app. unfold reTag.
          change (startsWith (lit "<") (60%N :: pre ++ 62%N :: post)) with true.
          cbv iota. simpl skipn. rewrite E. f_equal. simpl. rewrite length_app. simpl. lia. }
        replace (60%N :: pre ++ 62%N :: post) with ((60%N :: pre ++ [62%N]) ++ post)
          by (simpl; now rewrite <- app_assoc).
        rewrite deleteAll_hit by (discriminate || exact Hm).
        apply IH. rewrite length_app in Hn. simpl in Hn. lia.
      * apply indexWhere_isGt_none in E.
        assert (X : ~ In 62%N (60%N :: s)) by (intros [H | H]; [discriminate | contradiction]).
        rewrite deleteAll_without_gt by exact X. now apply hasTag_without_gt.
    + rewrite deleteAll_miss by now apply reTag_other.
      rewrite hasTag_unfold, reTag_other by exact Hc. rewrite orb_false_l. apply IH. lia.
Qed.

Lemma hasTag_skipn s k : hasTag s = false -> reTag (skipn k s) = None.
Proof.
  revert s. induction k as [| k IH]; intros s H.
  - rewrite hasTag_unfold in H. apply orb_false_elim in H as [H _].
    simpl. now destruct (reTag s).
  - destruct s as [| c s]; [reflexivity |].
    rewrite hasTag_unfold in H. apply orb_false_elim in H as [_ H].
    simpl skipn. now apply IH.
Qed.

(** X7.  Stripping tags leaves nothing the tag pattern still matches, so
    stripping a second time changes nothing. *)
Theorem strip_tags_leaves_no_tag (s : jsstring) :
  hasTag (deleteAll reTag s) = false
  /\ deleteAll reTag (deleteAll reTag s) = deleteAll reTag s.
Proof.
  assert (H : hasTag (deleteAll reTag s) = false)
    by (apply (deleteAll_reTag_tagless_bounded (length s)); lia).
  split; [exact H |].
  unfold deleteAll at 1. apply replaceAll_none, scan_none. intros k.
  unfold whole. now rewrite hasTag_skipn.
Qed.

(** ** The sanitizer and the converter on plain text *)

(** The output of the sanitizer carries no white space at its ends. *)
Lemma cleanWordPressHtml_trimmed (html : jsstring) :
  trim (cleanWordPressHtml html) = cleanWordPressHtml html.
Proof.
  unfold cleanWordPressHtml. destruct (isEmpty html); [reflexivity |].
  apply trim_idempotent.
Qed.

Lemma cleanWordPressHtml_text text :
  tagFree text = true -> cleanWordPressHtml text = trim text.
Proof.
  intros H. apply tagFree_In in H. destruct text as [| c s]; [reflexivity |].
  unfold cleanWordPressHtml, sanitizedTree, parsedTree. cbn [isEmpty].
  rewrite (deleteAll_headed _ _ headed_reWpComment H).
  rewrite (deleteAll_headed _ _ headed_reNumericCloser H).
  rewrite (parseHtml_text _ _ H).
  change (cleanTree [Text (c :: s)]) with [Text (c :: s)].
  unfold innerHTML. simpl map. simpl concat. now rewrite app_nil_r.
Qed.

(** X8.  Markup without any [<] passes the sanitizer as it is, trimmed. *)
Theorem sanitizer_plain_text (text : jsstring) :
  tagFree text = true -> cleanWordPressHtml text = trim text.
Proof. apply cleanWordPressHtml_text. Qed.

Lemma sanitizer_plain_text_witness :
  tagFree (lit "  a > b  ") = true /\ cleanWordPressHtml (lit "  a > b  ") = trim (lit "  a > b  ").
Proof. split; [reflexivity | apply sanitizer_plain_text; reflexivity]. Defined.

Lemma headed_reSegment : headed 60 (whole reSegment).
Proof.
  apply headed_whole; [reflexivity |]. intros c r Hc.
  unfold reSegment, reRegion. head_mismatch_ci Hc. reflexivity.
Qed.

Lemma headed_reBlockEnd : headed 60 reBlockEnd.
Proof.
  split; [reflexivity |]. intros c r Hc. unfold reBlockEnd.
  head_mismatch_ci Hc. reflexivity.
Qed.

Lemma headed_reHeading : headed 60 reHeading.
Proof.
  split; [reflexivity |]. intros c r Hc. unfold reHeading.
  head_mismatch_ci Hc. reflexivity.
Qed.

Lemma headed_reParagraph : headed 60 reParagraph.
Proof.
  split; [reflexivity |]. intros c r Hc. unfold reParagraph.
  head_mismatch_ci Hc. reflexivity.
Qed.

Lemma includes_other p s : ~ In 60%N s -> includes (60%N :: p) s = false.
Proof.
  induction s as [| c s IH]; intros H; [reflexivity |].
  change (includes (60%N :: p) (c :: s))
    with (startsWith (60%N :: p) (c :: s) || includes (60%N :: p) s).
  rewrite IH by (intros Hin; apply H; now right).
  rewrite orb_false_r. apply startsWith_other. intros ->. apply H. now left.
Qed.

Lemma lowerStartsWith_other p c s :
  c <> 60%N -> lowerStartsWith (60%N :: p) (c :: s) = false.
Proof.
  intros Hc. unfold lowerStartsWith. cbn [length firstn map].
  apply startsWith_other. unfold lowerAscii, inRange.
  destruct (N.leb 65 c && N.leb c 90) eqn:E; [| exact Hc].
  apply andb_prop in E as [E _]. apply N.leb_le in E. lia.
Qed.

(** The fallback of the block loop on a block without markup. *)
Lemma pushBlock_plain children block :
  ~ In 60%N block -> trim block = block -> block <> [] ->
  pushBlock children block
  = children ++ [ParagraphNode [TextNode (decodeHtmlEntities block)]].
Proof.
  intros Hb Ht Hne. unfold pushBlock.
  rewrite (firstMatch_none reHeading)
    by (intros k; now apply headed_none; [apply headed_reHeading |]).
  rewrite (firstMatch_none reParagraph)
    by (intros k; now apply headed_none; [apply headed_reParagraph |]).
  unfold plainText. rewrite (deleteAll_headed _ _ headed_reTag Hb), Ht.
  change (lit "<li") with [60%N; 108%N; 105%N]. rewrite includes_other by exact Hb.
  assert (E : isEmpty (decodeHtmlEntities block) = false).
  { rewrite decode_isEmpty. now destruct block. }
  now rewrite E.
Qed.

(** X9.  Text without markup becomes one paragraph whose text is the
    trimmed text with its entities decoded. *)
Theorem plain_text_becomes_paragraph (text : jsstring) :
  tagFree text = true -> trim text <> [] ->
  htmlToLexical text
  = RootNode [ParagraphNode [TextNode (decodeHtmlEntities (trim text))]].
Proof.
  intros Hfree Hne. unfold htmlToLexical. rewrite cleanWordPressHtml_text by exact Hfree.
  assert (Hb : ~ In 60%N (trim text)).
  { intros Hin. apply trim_incl in Hin. now apply (tagFree_In text). }
  unfold splitSegments. rewrite (scan_headed _ 60%N _ headed_reSegment Hb).
  cbn [map fold_left]. unfold pushSegment. rewrite trim_idempotent.
  destruct (trim text) as [| c s] eqn:E; [congruence |]. cbn [isEmpty].
  assert (Hc : c <> 60%N) by (intros ->; apply Hb; now left).
  change (lit "<table") with (60%N :: lit "table").
  change (lit "<ul") with (60%N :: lit "ul").
  change (lit "<ol") with (60%N :: lit "ol").
  rewrite !lowerStartsWith_other by exact Hc.
  unfold splitRe. rewrite (scan_headed _ 60%N _ headed_reBlockEnd Hb).
  cbn [flat_map app map]. rewrite <- E, trim_idempotent, E. cbn [filter isEmpty negb].
  cbn [fold_left]. rewrite pushBlock_plain; [reflexivity | exact Hb | | discriminate].
  rewrite <- E. apply trim_idempotent.
Qed.

Lemma plain_text_becomes_paragraph_witness :
  htmlToLexical (lit " Vis &amp; groente ")
  = RootNode [ParagraphNode [TextNode (decodeHtmlEntities (trim (lit " Vis &amp; groente ")))]].
Proof.
  apply plain_text_becomes_paragraph; [reflexivity | vm_compute; discriminate].
Defined.

(** ** A paragraph element through the converter *)

(** A matcher that finds nothing at the two tags of [<p>t</p>] finds
    nothing in it. *)
Lemma scan_paragraph_none {C} (m : jsstring -> option (nat * C)) t :
  headed 60 m -> ~ In 60%N t ->
  m (lit "<p>" ++ t ++ lit "</p>") = None ->
  scan m (lit "</p>") = [Lit (lit "</p>")] ->
  scan m (lit "<p>" ++ t ++ lit "</p>") = [Lit (lit "<p>" ++ t ++ lit "</p>")].
Proof.
  intros Hm Ht H0 Hend.
  change (lit "<p>" ++ t ++ lit "</p>") with (60%N :: (lit "p>" ++ t) ++ lit "</p>") in *.
  rewrite scan_miss by exact H0.
  assert (Hpt : ~ In 60%N (lit "p>" ++ t)).
  { intros Hin. apply in_app_or in Hin as [Hin | Hin]; [| now apply Ht].
    vm_compute in Hin. intuition discriminate. }
  rewrite (scan_text m 60%N _ _ Hm Hpt).
  rewrite Hend, fold_consLit. reflexivity.
Qed.

Lemma parseHtml_paragraph t :
  t <> [] -> ~ In 60%N t ->
  parseHtml (lit "<p>" ++ t ++ lit "</p>") = [Elem (lit "p") [] [Text t]].
Proof.
  intros Hne Ht. unfold parseHtml.
  rewrite (scan_hit tagAt (lit "<p>") (t ++ lit "</p>") (TOpen (lit "p") [] false));
    [| discriminate | reflexivity].
  rewrite (scan_text tagAt 60%N _ _ headed_tagAt Ht).
  change (scan tagAt (lit "</p>")) with [Lit []; Hit (TClose (lit "p")); @Lit token []].
  rewrite fold_consLit, app_nil_r.
  destruct t as [| c t]; [congruence | reflexivity].
Qed.

Lemma removeAll_paragraph sel t :
  sel (lit "p") [] [Text t] = false ->
  removeAll sel [Elem (lit "p") [] [Text t]] = [Elem (lit "p") [] [Text t]].
Proof. intros H. rewrite removeAll_elem, H. reflexivity. Qed.

Lemma cleanTree_paragraph t :
  trim t <> [] ->
  cleanTree [Elem (lit "p") [] [Text t]] = [Elem (lit "p") [] [Text t]].
Proof.
  intros Hne. unfold cleanTree, runSteps, sanitizerSteps. cbn [fold_left].
  rewrite !removeAll_paragraph by reflexivity.
  change (updateAttrs _ [Elem (lit "p") [] [Text t]]) with [Elem (lit "p") [] [Text t]].
  change (unwrapWrappers [Elem (lit "p") [] [Text t]]) with [Elem (lit "p") [] [Text t]].
  change (updateAttrs (removeAttribute (lit "class")) [Elem (lit "p") [] [Text t]])
    with [Elem (lit "p") [] [Text t]].
  change (updateAttrs (removeAttribute (lit "style")) [Elem (lit "p") [] [Text t]])
    with [Elem (lit "p") [] [Text t]].
  change (updateAttrs stripDataAndIds [Elem (lit "p") [] [Text t]])
    with [Elem (lit "p") [] [Text t]].
  rewrite (removeAll_paragraph isEmptyParagraph).
  - now rewrite removeAll_paragraph by reflexivity.
  - unfold isEmptyParagraph. unfold textContent. cbn [map textOf concat].
    rewrite app_nil_r. destruct (trim t); [congruence | reflexivity].
Qed.

Lemma trim_paragraph t :
  ~ In 60%N t -> trim t <> [] ->
  exists u,
    trim (lit "<p>" ++ t) = lit "<p>" ++ u /\ trim u = trim t /\ ~ In 60%N u.
Proof.
  intros Ht Hne. destruct (trim_decompose t) as (w1 & w2 & E & H1 & H2).
  exists (w1 ++ trim t). split; [| split].
  - rewrite E at 1.
    replace (lit "<p>" ++ w1 ++ trim t ++ w2)
      with ([] ++ (lit "<p>" ++ w1 ++ trim t) ++ w2)
      by (simpl; now rewrite <- ?app_assoc).
    rewrite trim_white_ends by (reflexivity || exact H2).
    destruct (trim_shape t) as [Z | (a & mid & b & [Z | [Z ->]] & Ha & Hb)]; rewrite Z.
    + congruence.
    + replace (lit "<p>" ++ w1 ++ a :: mid ++ [b])
        with (60%N :: ([112%N; 62%N] ++ w1 ++ a :: mid) ++ [b])
        by (simpl; rewrite <- ?app_assoc; reflexivity).
      now apply trim_fixed.
    + replace (lit "<p>" ++ w1 ++ [b]) with (60%N :: ([112%N; 62%N] ++ w1) ++ [b])
        by (simpl; rewrite <- ?app_assoc; reflexivity).
      now apply trim_fixed.
  - replace (w1 ++ trim t) with (w1 ++ trim t ++ []) by now rewrite app_nil_r.
    rewrite trim_white_ends by (reflexivity || exact H1). apply trim_idempotent.
  - intros Hin. apply Ht. rewrite E. rewrite app_assoc. apply in_or_app. now left.
Qed.

Lemma cleanWordPressHtml_paragraph t :
  ~ In 60%N t -> trim t <> [] ->
  cleanWordPressHtml (lit "<p>" ++ t ++ lit "</p>") = lit "<p>" ++ t ++ lit "</p>".
Proof.
  intros Ht Hne.
  assert (Hte : t <> []) by (intros ->; now apply Hne).
  unfold cleanWordPressHtml, sanitizedTree, parsedTree.
  change (isEmpty (lit "<p>" ++ t ++ lit "</p>")) with false. cbv iota.
  unfold deleteAll.
  rewrite (replaceAll_none (whole reWpComment))
    by (apply scan_paragraph_none;
        [apply headed_reWpComment | exact Ht | reflexivity | reflexivity]).
  rewrite (replaceAll_none (whole reNumericCloser))
    by (apply scan_paragraph_none;
        [apply headed_reNumericCloser | exact Ht | reflexivity | reflexivity]).
  rewrite parseHtml_paragraph, cleanTree_paragraph by assumption.
  replace (innerHTML [Elem (lit "p") [] [Text t]])
    with (60%N :: ([112%N; 62%N] ++ t ++ lit "</p") ++ [62%N]).
  - rewrite trim_fixed by reflexivity. simpl. now rewrite <- !app_assoc.
  - unfold innerHTML. cbn [map concat toString].
    change (tagIn voidTags (lit "p")) with false. cbv iota.
    simpl. rewrite !app_nil_r, <- !app_assoc. reflexivity.
Qed.

Lemma pushBlock_paragraph children u :
  ~ In 60%N u -> trim u <> [] ->
  pushBlock children (lit "<p>" ++ u)
  = children ++ [ParagraphNode [TextNode (decodeHtmlEntities (trim u))]].
Proof.
  intros Hu Hne. unfold pushBlock.
  assert (Hpu : ~ In 60%N (lit "p>" ++ u)).
  { intros Hin. apply in_app_or in Hin as [Hin | Hin]; [| now apply Hu].
    vm_compute in Hin. intuition discriminate. }
  change (lit "<p>" ++ u) with (60%N :: lit "p>" ++ u).
  rewrite (firstMatch_miss reHeading) by reflexivity.
  rewrite (firstMatch_none reHeading)
    by (intros k; now apply headed_none; [apply headed_reHeading |]).
  rewrite (firstMatch_here reParagraph _ (length (60%N :: lit "p>" ++ u)) u)
    by reflexivity.
  unfold plainText. rewrite (deleteAll_headed _ _ headed_reTag Hu).
  assert (E : isEmpty (decodeHtmlEntities (trim u)) = false).
  { rewrite decode_isEmpty. now destruct (trim u). }
  now rewrite E.
Qed.

Lemma trim_prefix_nonempty p t : trim (takeWhile p t) <> [] -> trim t <> [].
Proof.
  intros H E. apply H.
  assert (W : forallb isWhite t = true) by (rewrite <- trim_empty, E; reflexivity).
  apply trim_white. rewrite <- (takeWhile_dropWhile p t), forallb_app in W.
  now apply andb_prop in W as [W _].
Qed.

(** X10.  A paragraph element that holds text without markup, with a code
    unit other than white space in front of its first [&], becomes one
    paragraph whose text is the trimmed text with its entities decoded.
    The text in front of the first [&] is text however the parser resolves
    character references, so the emptiness test of step 15 keeps such a
    paragraph. *)
Theorem paragraph_element_becomes_paragraph (t : jsstring) :
  tagFree t = true ->
  trim (takeWhile (fun c => negb (N.eqb c 38)) t) <> [] ->
  htmlToLexical (lit "<p>" ++ t ++ lit "</p>")
  = RootNode [ParagraphNode [TextNode (decodeHtmlEntities (trim t))]].
Proof.
  intros Hfree Hne. apply trim_prefix_nonempty in Hne. apply tagFree_In in Hfree.
  assert (Hpt : ~ In 60%N (lit "p>" ++ t)).
  { intros Hin. apply in_app_or in Hin as [Hin | Hin]; [| now apply Hfree].
    vm_compute in Hin. intuition discriminate. }
  unfold htmlToLexical. rewrite cleanWordPressHtml_paragraph by assumption.
  unfold splitSegments.
  rewrite (scan_paragraph_none (whole reSegment) t headed_reSegment Hfree eq_refl eq_refl).
  cbn [map fold_left]. unfold pushSegment.
  assert (TS : trim (lit "<p>" ++ t ++ lit "</p>") = lit "<p>" ++ t ++ lit "</p>").
  { replace (lit "<p>" ++ t ++ lit "</p>")
      with (60%N :: ([112%N; 62%N] ++ t ++ lit "</p") ++ [62%N])
      by (simpl; rewrite <- ?app_assoc; reflexivity).
    now apply trim_fixed. }
  rewrite TS. change (isEmpty (lit "<p>" ++ t ++ lit "</p>")) with false. cbv iota.
  change (lowerStartsWith (lit "<table") (lit "<p>" ++ t ++ lit "</p>")) with false.
  change (lowerStartsWith (lit "<ul") (lit "<p>" ++ t ++ lit "</p>")) with false.
  change (lowerStartsWith (lit "<ol") (lit "<p>" ++ t ++ lit "</p>")) with false.
  cbv iota.
  assert (SB : splitRe reBlockEnd (lit "<p>" ++ t ++ lit "</p>") = [lit "<p>" ++ t; []]).
  { unfold splitRe.
    change (lit "<p>" ++ t ++ lit "</p>") with (60%N :: (lit "p>" ++ t) ++ lit "</p>").
    rewrite scan_miss by reflexivity.
    rewrite (scan_text reBlockEnd 60%N _ _ headed_reBlockEnd Hpt).
    change (scan reBlockEnd (lit "</p>")) with [Lit []; Hit tt; @Lit unit []].
    rewrite fold_consLit, app_nil_r. reflexivity. }
  rewrite SB. cbn [map]. change (trim []) with (@nil N).
  destruct (trim_paragraph t Hfree Hne) as (u & Eu & Tu & Hu).
  rewrite Eu. cbn [filter].
  change (isEmpty (lit "<p>" ++ u)) with false. cbn [negb fold_left].
  rewrite pushBlock_paragraph by (exact Hu || now rewrite Tu).
  now rewrite Tu.
Qed.

Lemma paragraph_element_becomes_paragraph_witness :
  htmlToLexical (lit "<p>" ++ lit " Vis &amp; groente " ++ lit "</p>")
  = RootNode [ParagraphNode [TextNode (decodeHtmlEntities (trim (lit " Vis &amp; groente ")))]].
Proof.
  apply (paragraph_element_becomes_paragraph (lit " Vis &amp; groente "));
    [reflexivity | vm_compute; discriminate].
Defined.

(** ** More invariants of the sanitized tree *)

Lemma filter_filter {A} (p q : A -> bool) l :
  filter p (filter q l) = filter (fun x => q x && p x) l.
Proof.
  induction l as [| x l IH]; [reflexivity |]. simpl.
  destruct (q x); simpl; [destruct (p x) |]; now rewrite IH.
Qed.

Lemma remove_event_attrs names attrs :
  fold_left (fun a n => removeAttribute n a) names attrs
  = filter (fun kv => negb (existsb (str_eqb (fst kv)) names)) attrs.
Proof.
  revert attrs. induction names as [| n names IH]; intros attrs.
  - simpl. induction attrs as [| kv attrs IHa]; [reflexivity |]. simpl. now f_equal.
  - simpl fold_left. rewrite IH. unfold removeAttribute. rewrite filter_filter.
    apply filter_ext. intros kv. simpl. now rewrite negb_orb.
Qed.

Lemma forallb_filter_self {A} (p : A -> bool) l : forallb p (filter p l) = true.
Proof.
  induction l as [| x l IH]; [reflexivity |]. simpl.
  destruct (p x) eqn:E; [simpl; now rewrite E |]. exact IH.
Qed.

(** A step that only drops attributes or elements keeps what holds of all
    attributes. *)
Lemma unwrapWrappers_attrs (p : attribute -> bool) ns :
  allElems (fun _ attrs _ => forallb p attrs) ns = true ->
  allElems (fun _ attrs _ => forallb p attrs) (unwrapWrappers ns) = true.
Proof.
  unfold unwrapWrappers. apply rebuild_all.
  intros tag attrs kids Hq Hk.
  destruct (selWrapper attrs); [destruct (tagIn _ tag) |].
  - destruct kids; [reflexivity | exact Hk].
  - rewrite allElems_elem, Hk. unfold removeAttribute. cbv beta in Hq.
    now rewrite (forallb_filter_keep p _ _ (forallb_filter_keep p _ _ Hq)).
  - rewrite allElems_elem, Hq, Hk. reflexivity.
Qed.

Lemma stripDataAndIds_keep (p : attribute -> bool) attrs :
  forallb p attrs = true -> forallb p (stripDataAndIds attrs) = true.
Proof.
  intros H. unfold stripDataAndIds.
  destruct (generatedId _); unfold removeAttribute;
    repeat apply forallb_filter_keep; exact H.
Qed.

Lemma late_steps_attrs (p : attribute -> bool) :
  Forall (fun step => forall ns,
              allElems (fun _ attrs _ => forallb p attrs) ns = true ->
              allElems (fun _ attrs _ => forallb p attrs) (step ns) = true)
         (skipn 11 sanitizerSteps).
Proof.
  repeat constructor; intros ns H.
  - now apply unwrapWrappers_attrs.
  - revert H. apply updateAttrs_all. intros ? ? ? Hq. unfold removeAttribute.
    now apply forallb_filter_keep.
  - revert H. apply updateAttrs_all. intros ? ? ? Hq. unfold removeAttribute.
    now apply forallb_filter_keep.
  - revert H. apply updateAttrs_all. intros ? ? ? Hq. now apply stripDataAndIds_keep.
  - revert H. apply removeAll_all. intros ? ? ? Hq _. exact Hq.
  - revert H. apply removeAll_all. intros ? ? ? Hq _. exact Hq.
Qed.

(** X11.  In the tree the sanitizer serialises, no element carries an
    attribute spelled [onclick], [onmouseenter], [onmouseleave], [onfocus],
    [onblur], [onkeypress], [onerror] or [onload].  Names are compared by
    their spelling: the same handler written in another case stays, as
    [ONCLICK] does in [<p ONCLICK='x()'>a</p>]. *)
Theorem sanitizer_no_event_handlers :
  (forall html, allElems noEventHandler (sanitizedTree html) = true)
  /\ sanitizedTree (lit "<p ONCLICK='x()'>a</p>")
     = [Elem (lit "p") [(lit "ONCLICK", Some (lit "x()"))] [Text (lit "a")]].
Proof.
  split; [| vm_compute; reflexivity]. intros html.
  unfold sanitizedTree. destruct (isEmpty html); [reflexivity |].
  change (cleanTree (parsedTree html))
    with (runSteps (skipn 11 sanitizerSteps)
            (updateAttrs (fun attrs => fold_left (fun a n => removeAttribute n a)
                                                 invalidEventAttrs attrs)
               (runSteps (firstn 10 sanitizerSteps) (parsedTree html)))).
  apply (runSteps_keeps (fun ns => allElems noEventHandler ns = true)).
  - apply (late_steps_attrs
             (fun kv => negb (existsb (str_eqb (fst kv)) invalidEventAttrs))).
  - apply (updateAttrs_all (fun _ _ _ => true)); [| apply allElems_trivial].
    intros tag attrs kids _. unfold noEventHandler.
    rewrite remove_event_attrs. apply forallb_filter_self.
Qed.

(** Dropping attributes under other names leaves the value of [name]. *)
Lemma lookupAttr_filter name (p : attribute -> bool) attrs :
  (forall kv, str_eqb (fst kv) name = true -> p kv = true) ->
  lookupAttr name (filter p attrs) = lookupAttr name attrs.
Proof.
  intros Hp. induction attrs as [| [k v] attrs IH]; [reflexivity |]. simpl.
  destruct (str_eqb k name) eqn:E.
  - rewrite (Hp (k, v) E). simpl. now rewrite E.
  - destruct (p (k, v)); simpl; [now rewrite E |]; exact IH.
Qed.

Lemma getAttribute_removeAttribute name n attrs :
  str_eqb name n = false ->
  getAttribute name (removeAttribute n attrs) = getAttribute name attrs.
Proof.
  intros Hn. unfold getAttribute, removeAttribute. rewrite lookupAttr_filter; [reflexivity |].
  intros kv E. apply str_eqb_eq in E. now rewrite E, Hn.
Qed.

Lemma keepsSize_remove n :
  str_eqb (lit "width") n = false -> str_eqb (lit "height") n = false ->
  keepsSize (removeAttribute n).
Proof. intros Hw Hh attrs. now rewrite !getAttribute_removeAttribute. Qed.

Lemma keepsSize_events :
  keepsSize (fun attrs => fold_left (fun a n => removeAttribute n a)
                                    invalidEventAttrs attrs).
Proof.
  intros attrs. rewrite remove_event_attrs. unfold getAttribute.
  rewrite !lookupAttr_filter; [split; reflexivity | |];
    intros kv E; apply str_eqb_eq in E; now rewrite E.
Qed.

Lemma keepsSize_strip : keepsSize stripDataAndIds.
Proof.
  intros attrs. unfold stripDataAndIds.
  assert (H : forall name,
             startsWith (lit "data-") name = false ->
             getAttribute name (filter (fun kv => negb (startsWith (lit "data-") (fst kv))) attrs)
             = getAttribute name attrs).
  { intros name Hn. unfold getAttribute. rewrite lookupAttr_filter; [reflexivity |].
    intros kv E. apply str_eqb_eq in E. now rewrite E, Hn. }
  destruct (generatedId _); rewrite ?getAttribute_removeAttribute by reflexivity;
    now rewrite !H by reflexivity.
Qed.

Lemma updateAttrs_sized g ns :
  keepsSize g ->
  allElems sizedIfSvg ns = true -> allElems sizedIfSvg (updateAttrs g ns) = true.
Proof.
  intros Hg. apply updateAttrs_all. intros tag attrs kids Hq.
  unfold sizedIfSvg, selBareSvg in *. destruct (Hg attrs) as [Hw Hh].
  now rewrite Hw, Hh.
Qed.

Lemma unwrapWrappers_sized ns :
  allElems sizedIfSvg ns = true -> allElems sizedIfSvg (unwrapWrappers ns) = true.
Proof.
  unfold unwrapWrappers. apply rebuild_all.
  intros tag attrs kids Hq Hk.
  destruct (selWrapper attrs); [destruct (tagIn _ tag) |].
  - destruct kids; [reflexivity | exact Hk].
  - rewrite allElems_elem, Hk. unfold sizedIfSvg, selBareSvg in *.
    rewrite !getAttribute_removeAttribute by reflexivity. now rewrite Hq.
  - rewrite allElems_elem, Hk. unfold sizedIfSvg in *. now rewrite Hq.
Qed.

Lemma late_steps_sized :
  Forall (fun step => forall ns,
              allElems sizedIfSvg ns = true -> allElems sizedIfSvg (step ns) = true)
         (skipn 10 sanitizerSteps).
Proof.
  repeat constructor; intros ns H.
  - now apply updateAttrs_sized; [apply keepsSize_events |].
  - now apply unwrapWrappers_sized.
  - now apply updateAttrs_sized; [apply keepsSize_remove |].
  - now apply updateAttrs_sized; [apply keepsSize_remove |].
  - now apply updateAttrs_sized; [apply keepsSize_strip |].
  - revert H. apply removeAll_all. intros ? ? ? Hq _. exact Hq.
  - revert H. apply removeAll_all. intros ? ? ? Hq _. exact Hq.
Qed.

(** X13.  In the tree the sanitizer serialises, every [svg] element has a
    non-empty [width] or a non-empty [height]. *)
Theorem sanitizer_svgs_are_sized (html : jsstring) :
  allElems sizedIfSvg (sanitizedTree html) = true.
Proof.
  unfold sanitizedTree. destruct (isEmpty html); [reflexivity |].
  change (cleanTree (parsedTree html))
    with (runSteps (skipn 10 sanitizerSteps)
            (removeAll (fun tag attrs _ => selBareSvg tag attrs)
               (runSteps (firstn 9 sanitizerSteps) (parsedTree html)))).
  apply (runSteps_keeps (fun ns => allElems sizedIfSvg ns = true)).
  - apply late_steps_sized.
  - apply (removeAll_all (fun _ _ _ => true)); [| apply allElems_trivial].
    intros tag attrs kids _ H. unfold sizedIfSvg. now rewrite H.
Qed.

(** ** The shape of the converter's result *)

Lemma textChildren_ok text :
  match textChildren text with
  | [] => true
  | [c] => textOk c
  | _ => false
  end = true.
Proof. unfold textChildren. destruct text; reflexivity. Qed.

Lemma parseCell_ok cellHtml : cellOk (parseCell cellHtml) = true.
Proof.
  unfold parseCell, cellOk. rewrite textChildren_ok.
  destruct (lowerStartsWith _ _); reflexivity.
Qed.

Lemma row_ok rowHtml :
  hasCells rowHtml = true ->
  rowOk (TableRowNode (map parseCell (matchAll reCell rowHtml))) = true.
Proof.
  unfold hasCells, rowOk. destruct (matchAll reCell rowHtml) as [| c cs]; [discriminate |].
  intros _. change (map parseCell (c :: cs)) with (parseCell c :: map parseCell cs).
  apply forallb_forall. intros x [<- | Hx]; [apply parseCell_ok |].
  apply in_map_iff in Hx as (y & <- & _). apply parseCell_ok.
Qed.

Lemma table_ok tableHtml n :
  parseHtmlTable tableHtml = Some n -> tableOk n = true.
Proof.
  rewrite parseHtmlTable_rows.
  destruct (map _ _) as [| r rs] eqn:E; [discriminate |].
  intros H. injection H as <-. unfold tableOk. rewrite <- E.
  apply forallb_forall. intros x Hx.
  apply in_map_iff in Hx as (rowHtml & <- & Hin).
  apply filter_In in Hin as [_ Hc]. now apply row_ok.
Qed.

(** X14.  A table node, when table parsing gives one, has at least one
    row; every row has at least one cell; every cell has spans 1 and 1, a
    header state of 0 or 1, and a single paragraph that is empty or holds
    one non-empty text. *)
Theorem table_well_formed (tableHtml : jsstring) (n : LexicalNode) :
  parseHtmlTable tableHtml = Some n -> tableOk n = true.
Proof. apply table_ok. Qed.

Lemma table_well_formed_witness :
  tableOk (TableNode
             [TableRowNode [TableCellNode [ParagraphNode []] 1 1 1;
                            TableCellNode [ParagraphNode [TextNode (lit "x")]] 1 1 0]])
  = true.
Proof.
  apply (table_well_formed (lit "<table><tr><th> </th><td>x</td></tr></table>")).
  vm_compute. reflexivity.
Defined.

(** X15.  Table parsing gives null exactly when no row match holds a
    cell; in particular for markup without a [tr] element. *)
Theorem table_none_iff (tableHtml : jsstring) :
  parseHtmlTable tableHtml = None
  <-> forallb (fun rowHtml => negb (hasCells rowHtml)) (matchAll reRow tableHtml) = true.
Proof.
  rewrite parseHtmlTable_rows.
  induction (matchAll reRow tableHtml) as [| r rs IH]; [simpl; tauto |].
  simpl. destruct (hasCells r); simpl; [split; discriminate | exact IH].
Qed.

Lemma numbered_ok k texts :
  forallb nonEmpty texts = true -> forallb itemOk (numbered k texts) = true.
Proof.
  revert k. induction texts as [| t r IH]; intros k H; [reflexivity |].
  simpl in H. apply andb_prop in H as [Ht Hr].
  simpl. unfold nonEmpty in Ht. rewrite Ht. now apply IH.
Qed.

Lemma list_ok listHtml isOrdered n :
  parseHtmlList listHtml isOrdered = Some n -> listOk n = true.
Proof.
  rewrite parseHtmlList_items.
  destruct (numbered _ _) as [| item items] eqn:E; [discriminate |].
  intros H. injection H as <-. unfold listOk. rewrite <- E. simpl N.eqb. cbv iota.
  apply numbered_ok, forallb_filter_self.
Qed.

(** X16.  List parsing gives null exactly when no [li] element has text
    that is non-empty after trimming and decoding; in particular for
    markup without a [li] element. *)
Theorem list_none_iff (listHtml : jsstring) (isOrdered : bool) :
  parseHtmlList listHtml isOrdered = None
  <-> forallb (fun item => isEmpty (itemText item))
              (querySelectorAll selLi (parseHtml listHtml)) = true.
Proof.
  rewrite parseHtmlList_items.
  induction (querySelectorAll selLi (parseHtml listHtml)) as [| item items IH];
    [simpl; tauto |].
  simpl. unfold nonEmpty at 1. destruct (isEmpty (itemText item)); simpl.
  - exact IH.
  - split; discriminate.
Qed.

Lemma reHeading_level s n d rest :
  reHeading s = Some (n, (d, rest)) -> inRange 49 54 d = true.
Proof.
  unfold reHeading. destruct (startsWithCI _ s); [| discriminate].
  destruct (skipn 2 s) as [| d' r]; [discriminate |].
  destruct (inRange 49 54 d') eqn:E; [| discriminate].
  destruct (restAfterTag 3 s); [| discriminate].
  intros H. injection H as _ <- _. exact E.
Qed.

Lemma heading_level d :
  inRange 49 54 d = true ->
  N.leb 1 (digitValue d) && N.leb (digitValue d) 6 = true.
Proof.
  intros H. unfold digitValue.
  assert (E : inRange 48 57 d = true).
  { unfold inRange in *. apply andb_prop in H as [Hlo Hhi].
    apply N.leb_le in Hlo, Hhi. apply andb_true_intro; split; apply N.leb_le; lia. }
  rewrite E. unfold inRange in H. apply andb_prop in H as [Hlo Hhi].
  apply N.leb_le in Hlo, Hhi. apply andb_true_intro; split; apply N.leb_le; lia.
Qed.

Lemma blocks_app a b :
  forallb blockOk a = true -> blockOk b = true -> forallb blockOk (a ++ [b]) = true.
Proof. intros Ha Hb. rewrite forallb_app, Ha. simpl. now rewrite Hb. Qed.

Lemma pushBlock_ok children block :
  forallb blockOk children = true -> forallb blockOk (pushBlock children block) = true.
Proof.
  intros H. unfold pushBlock.
  destruct (firstMatch reHeading block) as [[d rest] |] eqn:Eh.
  - destruct (isEmpty (plainText rest)) eqn:Et; [exact H |].
    apply blocks_app; [exact H |].
    apply firstMatch_some in Eh as (k & n & Ek). apply reHeading_level in Ek.
    unfold blockOk, headingOk, textOk. rewrite (heading_level _ Ek), Et.
    reflexivity.
  - destruct (firstMatch reParagraph block) as [rest |].
    + destruct (isEmpty (plainText rest)) eqn:Et; [exact H |].
      apply blocks_app; [exact H |].
      unfold blockOk, paragraphOk, textOk. now rewrite Et.
    + destruct (isEmpty (plainText block)) eqn:Et; [exact H |].
      destruct (includes _ block); [exact H |]. simpl.
      apply blocks_app; [exact H |].
      unfold blockOk, paragraphOk, textOk. now rewrite Et.
Qed.

Lemma pushOption_ok (q : LexicalNode -> bool) children n :
  (forall x, n = Some x -> q x = true) ->
  (forall x, q x = true -> blockOk x = true) ->
  forallb blockOk children = true ->
  forallb blockOk (pushOption children n) = true.
Proof.
  intros Hn Hq H. destruct n as [x |]; [| exact H].
  apply blocks_app; [exact H |]. apply Hq, Hn. reflexivity.
Qed.

Lemma pushSegment_ok children segment :
  forallb blockOk children = true ->
  forallb blockOk (pushSegment children segment) = true.
Proof.
  intros H. unfold pushSegment.
  destruct (isEmpty (trim segment)); [exact H |].
  destruct (lowerStartsWith (lit "<table") segment).
  { apply (pushOption_ok tableOk); [apply table_ok | | exact H].
    intros x Hx. unfold blockOk. rewrite Hx. now rewrite !orb_true_r. }
  destruct (lowerStartsWith (lit "<ul") segment).
  { apply (pushOption_ok listOk); [apply list_ok | | exact H].
    intros x Hx. unfold blockOk. rewrite Hx. now rewrite !orb_true_r. }
  destruct (lowerStartsWith (lit "<ol") segment).
  { apply (pushOption_ok listOk); [apply list_ok | | exact H].
    intros x Hx. unfold blockOk. rewrite Hx. now rewrite !orb_true_r. }
  apply (fold_left_invariant (fun c => forallb blockOk c = true)); [| exact H].
  intros c b Hc. now apply pushBlock_ok.
Qed.

(** X17.  Whatever the markup, the converter returns a root with at least
    one child, and every child is a paragraph with exactly one non-empty
    text, a heading of level 1 to 6 with exactly one non-empty text, a list
    with at least one item (each item one paragraph with one non-empty
    text), or a table with at least one row (each row with at least one
    cell). *)
Theorem converter_output_well_formed (html : jsstring) :
  rootOk (htmlToLexical html) = true.
Proof.
  unfold htmlToLexical.
  assert (H : forallb blockOk
                (fold_left pushSegment (splitSegments (cleanWordPressHtml html)) [])
              = true).
  { apply (fold_left_invariant (fun c => forallb blockOk c = true)); [| reflexivity].
    intros c b Hc. now apply pushSegment_ok. }
  destruct (fold_left pushSegment _ []) as [| c cs]; [reflexivity | exact H].
Qed.

(** ** The command line *)

Lemma find_first {A} (p : A -> bool) before x after :
  forallb (fun a => negb (p a)) before = true -> p x = true ->
  find p (before ++ x :: after) = Some x.
Proof.
  intros Hb Hx. induction before as [| b before IH]; simpl.
  - now rewrite Hx.
  - simpl in Hb. apply andb_prop in Hb as [Hb1 Hb2].
    apply negb_true_iff in Hb1. rewrite Hb1. now apply IH.
Qed.

(** X18.  When the first argument that starts with [--slug=] is
    [--slug=v], the slug is [v] up to its first [=]: a value without [=]
    comes back whole, anything from a [=] on is dropped. *)
Theorem slug_is_value_up_to_equals (before after : list jsstring) (v : jsstring) :
  forallb (fun a => negb (startsWith (lit "--slug=") a)) before = true ->
  slug (before ++ (lit "--slug=" ++ v) :: after)
  = Some (takeWhile (fun c => negb (N.eqb c 61)) v).
Proof.
  intros Hb. unfold slug. rewrite (find_first _ _ _ _ Hb) by reflexivity.
  change (lit "--slug=" ++ v) with (lit "--slug" ++ 61%N :: v).
  change (lit "=") with [61%N].
  rewrite split_unit_app.
  - simpl nth_error. rewrite <- split_unit_hd.
    pose proof (split_unit_nonempty 61 v) as N.
    destruct (split [61%N] v); [congruence | reflexivity].
  - intros H. vm_compute in H. intuition discriminate.
Qed.

Lemma slug_is_value_up_to_equals_witness :
  slug [lit "--dry-run"; lit "--slug=a=b"; lit "--slug=c"] = Some (lit "a").
Proof.
  apply (slug_is_value_up_to_equals [lit "--dry-run"] [lit "--slug=c"] (lit "a=b")).
  reflexivity.
Defined.

(** ** The name of an uploaded image *)

Lemma filename_cases imageUrl :
  filename imageUrl = lit "image.jpg"
  \/ (filename imageUrl <> [] /\ In (filename imageUrl) (split [47%N] imageUrl)).
Proof.
  unfold filename. change (lit "/") with [47%N].
  pose proof (split_unit_nonempty 47 imageUrl) as N.
  destruct (last (split [47%N] imageUrl) []) as [| a name] eqn:E; [now left |].
  right. split; [discriminate |]. rewrite <- E.
  destruct (split [47%N] imageUrl) as [| p ps]; [congruence |].
  apply (@exists_last _ (p :: ps)) in N as (l & x & ->).
  rewrite last_last. apply in_or_app. right. now left.
Qed.

Lemma filename_shape imageUrl :
  filename imageUrl <> [] /\ ~ In 47%N (filename imageUrl).
Proof.
  destruct (filename_cases imageUrl) as [E | [Hne Hin]].
  - rewrite E. split; [discriminate |]. intros H. vm_compute in H. intuition discriminate.
  - split; [exact Hne |].
    pose proof (split_unit_pieces 47 imageUrl) as F.
    rewrite Forall_forall in F. now apply F.
Qed.

(** X19.  The name under which an image is uploaded is never empty and
    holds no [/], whatever the URL; and the alternative text stored with
    the image is never empty, whatever the text that came with it. *)
Theorem filename_never_empty_no_slash (imageUrl altText : jsstring) :
  filename imageUrl <> []
  /\ ~ In 47%N (filename imageUrl)
  /\ alt altText imageUrl <> [].
Proof.
  destruct (filename_shape imageUrl) as [Hne Hs].
  split; [exact Hne |]. split; [exact Hs |].
  unfold alt. destruct altText; [exact Hne | discriminate].
Qed.

(** X20.  For a URL that ends in [/name], with [name] non-empty and free
    of [/], the upload name is [name]; for a URL that ends in [/] it is
    [image.jpg]. *)
Theorem filename_is_last_segment (dir name : jsstring) :
  ~ In 47%N name ->
  filename (dir ++ lit "/" ++ name)
  = match name with [] => lit "image.jpg" | _ => name end.
Proof.
  intros H. unfold filename. change (lit "/") with [47%N].
  change ([47%N] ++ name) with (47%N :: name).
  rewrite split_unit_last by exact H. destruct name; reflexivity.
Qed.

Lemma filename_is_last_segment_witness :
  filename (lit "https://example.org/uploads/2024/foto.jpg") = lit "foto.jpg".
Proof.
  apply (filename_is_last_segment (lit "https://example.org/uploads/2024") (lit "foto.jpg")).
  intros H. vm_compute in H. intuition discriminate.
Defined.

(** ** The meta description *)

Lemma indexWhere_isGt_firstn n r i :
  indexWhere isGt (firstn n r) = Some i -> indexWhere isGt r = Some i.
Proof.
  revert n i. induction r as [| c r IH]; intros n i.
  - now rewrite firstn_nil.
  - destruct n as [| n]; [discriminate |].
    simpl firstn. simpl indexWhere. rewrite !isGt_cons.
    destruct (N.eqb 62 c); [tauto |].
    destruct (indexWhere isGt (firstn n r)) as [j |] eqn:E; [| discriminate].
    now rewrite (IH _ _ E).
Qed.

Lemma reTag_firstn n s : reTag s = None -> reTag (firstn n s) = None.
Proof.
  destruct s as [| c s]; [now rewrite firstn_nil |].
  destruct n as [| n]; [reflexivity |].
  destruct (N.eq_dec c 60) as [-> | Hc]; [| intros _; now apply reTag_other].
  unfold reTag. simpl firstn.
  change (startsWith (lit "<") (60%N :: s)) with true.
  change (startsWith (lit "<") (60%N :: firstn n s)) with true.
  cbv iota. simpl skipn. intros H.
  destruct (indexWhere isGt (firstn n s)) as [[| i] |] eqn:E; try reflexivity.
  apply indexWhere_isGt_firstn in E. rewrite E in H. discriminate.
Qed.

Lemma hasTag_firstn n s : hasTag s = false -> hasTag (firstn n s) = false.
Proof.
  revert n. induction s as [| c s IH]; intros n H; [now rewrite firstn_nil |].
  destruct n as [| n]; [reflexivity |].
  rewrite hasTag_unfold in H. apply orb_false_elim in H as [Hh Ht].
  assert (Hr : reTag (c :: s) = None) by (destruct (reTag (c :: s)); [discriminate | reflexivity]).
  rewrite hasTag_unfold, (reTag_firstn (S n) _ Hr). simpl firstn. now apply IH.
Qed.

(** X21.  A meta description, when one is set, is not empty, has at most
    160 code units and holds nothing the tag pattern matches: cutting at
    160 code units cannot make a tag. *)
Theorem description_bounded_and_tagless (excerpt : option jsstring) (d : jsstring) :
  description excerpt = Some d ->
  d <> [] /\ length d <= 160 /\ hasTag d = false.
Proof.
  unfold description. destruct excerpt as [e |]; [| discriminate].
  destruct (firstn 160 (deleteAll reTag e)) as [| a r] eqn:E; [discriminate |].
  intros H. injection H as <-. rewrite <- E. split; [rewrite E; discriminate |].
  split; [apply firstn_le_length |].
  apply hasTag_firstn, (deleteAll_reTag_tagless_bounded (length e)). lia.
Qed.

Lemma description_bounded_and_tagless_witness :
  lit "Kort en goed" <> []
  /\ length (lit "Kort en goed") <= 160
  /\ hasTag (lit "Kort en goed") = false.
Proof.
  apply (description_bounded_and_tagless (Some (lit "<p>Kort <b>en</b> goed</p>"))).
  vm_compute. reflexivity.
Defined.

(** ** The command line of the page migration *)

(** X22.  When the first argument that starts with [--slug=] is
    [--slug=v], the page slug is all of [v], whatever it holds. *)
Theorem pageSlug_is_whole_value (before after : list jsstring) (v : jsstring) :
  forallb (fun a => negb (startsWith (lit "--slug=") a)) before = true ->
  Page.pageSlug (before ++ (lit "--slug=" ++ v) :: after) = Some v.
Proof.
  intros Hb. unfold Page.pageSlug, Page.slugArg.
  rewrite (find_first _ _ _ _ Hb) by reflexivity. reflexivity.
Qed.

Lemma pageSlug_is_whole_value_witness :
  Page.pageSlug [lit "--dry-run"; lit "--slug=a=b"] = Some (lit "a=b").
Proof.
  apply (pageSlug_is_whole_value [lit "--dry-run"] [] (lit "a=b")). reflexivity.
Defined.

(** ** The author and reviewer line *)

Lemma whiteThenRun_capture p s n cap :
  (forall c, isWhite c = true -> p c = true) ->
  Page.whiteThenRun p s = Some (n, cap) -> forallb p cap = true.
Proof.
  intros Hp. unfold Page.whiteThenRun.
  destruct (takeWhile p (dropWhile isWhite s)) as [| a run] eqn:E.
  - destruct (rev (takeWhile isWhite s)) as [| w r] eqn:R; [discriminate |].
    intros H. injection H as _ <-. simpl. rewrite andb_true_r. apply Hp.
    pose proof (takeWhile_all isWhite s) as W. rewrite forallb_forall in W.
    apply W, in_rev. rewrite R. now left.
  - intros H. injection H as _ <-. rewrite <- E. apply takeWhile_all.
Qed.

Lemma titleAt_capture s k title :
  Page.titleAt s = Some (k, title) -> forallb Page.notLineEnd title = true.
Proof.
  unfold Page.titleAt. destruct (startsWith (lit ",") s); [| discriminate].
  destruct (takeWhile Page.notLineEnd (dropWhile isWhite (skipn 1 s))) as [| a t] eqn:E.
  - destruct (dropWhile _ (rev (takeWhile isWhite (skipn 1 s)))) as [| w before] eqn:D;
      [discriminate |].
    intros H. injection H as _ <-. apply dropWhile_head in D.
    simpl. rewrite andb_true_r. now apply negb_false_iff in D.
  - intros H. injection H as _ <-. rewrite <- E. apply takeWhile_all.
Qed.

Lemma white_notDash c : isWhite c = true -> Page.notDash c = true.
Proof.
  intros H. unfold Page.notDash.
  destruct (N.eqb c 8211) eqn:E1; [apply N.eqb_eq in E1; subst c; discriminate |].
  destruct (N.eqb c 45) eqn:E2; [apply N.eqb_eq in E2; subst c; discriminate |].
  reflexivity.
Qed.

Lemma white_notComma c : isWhite c = true -> Page.notComma c = true.
Proof.
  intros H. unfold Page.notComma.
  destruct (N.eqb c 44) eqn:E; [apply N.eqb_eq in E; subst c; discriminate |].
  reflexivity.
Qed.

Lemma reAuteur_capture s n name :
  Page.reAuteur s = Some (n, name) -> forallb Page.notDash name = true.
Proof.
  unfold Page.reAuteur. destruct (startsWithCI _ s); [| discriminate].
  destruct (Page.whiteThenRun Page.notDash (skipn 7 s)) as [[k cap] |] eqn:E;
    [| discriminate].
  intros H. injection H as _ <-.
  exact (whiteThenRun_capture _ _ _ _ white_notDash E).
Qed.

Lemma reReviewer_capture s n name title :
  Page.reReviewer s = Some (n, (name, title)) ->
  forallb Page.notComma name = true
  /\ match title with
     | Some t => forallb Page.notLineEnd t = true
     | None => True
     end.
Proof.
  unfold Page.reReviewer. destruct (startsWithCI _ s); [| discriminate].
  destruct (Page.whiteThenRun Page.notComma (skipn 9 s)) as [[k cap] |] eqn:E;
    [| discriminate].
  pose proof (whiteThenRun_capture _ _ _ _ white_notComma E) as Hcap.
  destruct (Page.titleAt (skipn (9 + k) s)) as [[j t] |] eqn:T;
    intros H; injection H as _ <- <-; split; try exact Hcap; try exact I.
  exact (titleAt_capture _ _ _ T).
Qed.

(** X23.  In a block the author line gives, the author is trimmed and
    holds neither an en dash nor a hyphen, so a name with a hyphen never
    comes back whole.  A reviewer is trimmed and holds no comma; a title is
    trimmed and holds no line terminator; and a title comes with a reviewer
    only. *)
Theorem auteur_reviewer_fields (text : jsstring) (b : Page.AuteurReviewerBlock) :
  Page.parseAuteurReviewer text = Some b ->
  (forallb Page.notDash (Page.auteur b) = true
   /\ trim (Page.auteur b) = Page.auteur b)
  /\ match Page.reviewer b with
     | Some r => forallb Page.notComma r = true /\ trim r = r
     | None => Page.reviewerTitel b = None
     end
  /\ match Page.reviewerTitel b with
     | Some t => forallb Page.notLineEnd t = true /\ trim t = t
     | None => True
     end.
Proof.
  unfold Page.parseAuteurReviewer.
  destruct (firstMatch Page.reAuteur text) as [name |] eqn:A; [| discriminate].
  intros H. injection H as <-. cbn [Page.auteur Page.reviewer Page.reviewerTitel].
  apply firstMatch_some in A as (k & n & A). apply reAuteur_capture in A.
  split; [split; [now apply forallb_trim | apply trim_idempotent] |].
  destruct (firstMatch Page.reReviewer text) as [[r title] |] eqn:R.
  - apply firstMatch_some in R as (k' & n' & R). apply reReviewer_capture in R as [Hr Ht].
    cbn [option_map fst].
    split; [split; [now apply forallb_trim | apply trim_idempotent] |].
    destruct title as [t |]; [| exact I].
    split; [now apply forallb_trim | apply trim_idempotent].
  - cbn [option_map]. split; [reflexivity | exact I].
Qed.

Lemma auteur_reviewer_fields_witness :
  let b := {| Page.auteur := lit "Anne";
              Page.reviewer := Some (lit "dr. Jansen");
              Page.reviewerTitel := Some (lit "huisarts") |} in
  (forallb Page.notDash (Page.auteur b) = true
   /\ trim (Page.auteur b) = Page.auteur b)
  /\ match Page.reviewer b with
     | Some r => forallb Page.notComma r = true /\ trim r = r
     | None => Page.reviewerTitel b = None
     end
  /\ match Page.reviewerTitel b with
     | Some t => forallb Page.notLineEnd t = true /\ trim t = t
     | None => True
     end.
Proof.
  apply (auteur_reviewer_fields
           (lit "Auteur: Anne-Marie de Vries | reviewer:  dr. Jansen , huisarts ")).
  vm_compute. reflexivity.
Defined.

(** ** The documented form of the author and reviewer line *)

(** White space and a run of [p] in front of something that is not [p]:
    the capture is the run, up to white space at its ends. *)
Lemma whiteThenRun_stop p x y :
  (forall c, isWhite c = true -> p c = true) ->
  x <> [] -> forallb p x = true ->
  match y with [] => true | c :: _ => negb (p c) end = true ->
  exists cap,
    Page.whiteThenRun p (x ++ y) = Some (length x, cap) /\ trim cap = trim x.
Proof.
  intros Hp Hx Hpx Hy. unfold Page.whiteThenRun.
  assert (Hyw : takeWhile isWhite y = [] /\ dropWhile isWhite y = y).
  { destruct y as [| c r]; [now split |]. simpl in *.
    destruct (isWhite c) eqn:W; [| now split].
    rewrite (Hp c W) in Hy. discriminate. }
  destruct Hyw as [Hy1 Hy2].
  destruct (forallb isWhite x) eqn:W.
  - rewrite takeWhile_app_all, dropWhile_app_all, Hy1, Hy2, app_nil_r by exact W.
    rewrite (takeWhile_stop p y Hy).
    destruct (rev x) as [| w r] eqn:R.
    + apply (f_equal (@rev N)) in R. rewrite rev_involutive in R. simpl in R. congruence.
    + exists [w]. split; [reflexivity |].
      rewrite (trim_white x W). apply trim_white. simpl. rewrite andb_true_r.
      rewrite forallb_forall in W. apply W, in_rev. rewrite R. now left.
  - rewrite takeWhile_app_left, dropWhile_app_left by exact W.
    rewrite takeWhile_app_all by now apply forallb_dropWhile.
    rewrite (takeWhile_stop p y Hy), app_nil_r.
    destruct (dropWhile isWhite x) as [| c r] eqn:D.
    + apply dropWhile_nil in D. congruence.
    + exists (c :: r). rewrite <- D. split; [| apply trim_dropWhile].
      f_equal. f_equal. rewrite <- length_app. now rewrite takeWhile_dropWhile.
Qed.

Lemma white_notLineEnd c : isWhite c = false -> Page.notLineEnd c = true.
Proof.
  intros H. unfold Page.notLineEnd.
  destruct (N.eqb c 10) eqn:E1; [apply N.eqb_eq in E1; subst c; discriminate |].
  destruct (N.eqb c 13) eqn:E2; [apply N.eqb_eq in E2; subst c; discriminate |].
  destruct (N.eqb c 8232) eqn:E3; [apply N.eqb_eq in E3; subst c; discriminate |].
  destruct (N.eqb c 8233) eqn:E4; [apply N.eqb_eq in E4; subst c; discriminate |].
  reflexivity.
Qed.

(** A comma and a line without terminator: the title is the line, up to
    white space at its ends. *)
Lemma titleAt_line x :
  x <> [] -> forallb Page.notLineEnd x = true ->
  exists k title, Page.titleAt (44%N :: x) = Some (k, title) /\ trim title = trim x.
Proof.
  intros Hx Hl. unfold Page.titleAt.
  change (startsWith (lit ",") (44%N :: x)) with true. cbv iota.
  change (skipn 1 (44%N :: x)) with x.
  rewrite (takeWhile_whole Page.notLineEnd (dropWhile isWhite x))
    by now apply forallb_dropWhile.
  destruct (dropWhile isWhite x) as [| c r] eqn:D.
  - apply dropWhile_nil in D. rewrite (takeWhile_whole isWhite x D).
    destruct (rev x) as [| w before] eqn:R.
    + apply (f_equal (@rev N)) in R. rewrite rev_involutive in R. simpl in R. congruence.
    + assert (Hin : In w x) by (apply in_rev; rewrite R; now left).
      assert (Hw : Page.notLineEnd w = true) by (rewrite forallb_forall in Hl; now apply Hl).
      simpl dropWhile. rewrite Hw. simpl negb. cbv iota.
      eexists _, [w]. split; [reflexivity |].
      rewrite (trim_white x D). apply trim_white. simpl. rewrite andb_true_r.
      rewrite forallb_forall in D. now apply D.
  - eexists _, (c :: r). split; [reflexivity |]. rewrite <- D. apply trim_dropWhile.
Qed.

(** Where a text matches a literal without regard to case, it holds the
    last code unit of the literal when that is not a letter. *)
Lemma startsWithCI_last p c s :
  startsWithCI (p ++ [c]) s = true -> isLetter c = false ->
  lowerAscii c = c -> nth_error s (length p) = Some c.
Proof.
  intros H Hc Hl. revert s H. induction p as [| a p IH]; intros s H.
  - destruct s as [| b s]; [discriminate |]. simpl in H.
    rewrite andb_true_r in H. apply N.eqb_eq in H. rewrite Hl in H.
    simpl. f_equal. unfold lowerAscii in H.
    destruct (inRange 65 90 b) eqn:R; [| congruence].
    subst c. exfalso. unfold isLetter in Hc. apply orb_false_elim in Hc as [Hc _].
    unfold inRange in *. apply andb_prop in R as [R1 R2].
    apply N.leb_le in R1, R2.
    assert (X : (97 <=? b + 32)%N && (b + 32 <=? 122)%N = true)
      by (apply andb_true_intro; split; apply N.leb_le; lia).
    congruence.
  - destruct s as [| b s]; [discriminate |]. simpl in H.
    apply andb_prop in H as [_ H]. simpl. now apply IH.
Qed.

Lemma nth_error_skipn {A} (l : list A) k i :
  nth_error (skipn k l) i = nth_error l (k + i).
Proof.
  revert l. induction k as [| k IH]; intros l; [reflexivity |].
  destruct l as [| a l]; [now destruct i |]. simpl. apply IH.
Qed.

(** In front of [Reviewer:] the reviewer pattern finds nothing, when no
    colon stands between the eighth code unit and that of [Reviewer:]. *)
Lemma reReviewer_not_before head mid s k :
  length head = 8%nat -> ~ In 58%N mid -> k + 8 < length head + length mid ->
  Page.reReviewer (skipn k (head ++ mid ++ s)) = None.
Proof.
  intros Hh Hm Hk. unfold Page.reReviewer.
  destruct (startsWithCI (lit "Reviewer:") (skipn k (head ++ mid ++ s))) eqn:E;
    [| reflexivity].
  exfalso. apply (startsWithCI_last (lit "Reviewer") 58) in E; [| reflexivity ..].
  rewrite nth_error_skipn in E. change (length (lit "Reviewer")) with 8%nat in E.
  rewrite nth_error_app2 in E by lia.
  rewrite nth_error_app1 in E by lia.
  apply Hm. eapply nth_error_In. exact E.
Qed.

(** X24.  The line in its documented form, [Auteur: a – Reviewer: r, t],
    gives back its three parts trimmed, provided [a] holds no en dash, no
    hyphen and no colon, [r] holds no comma and [t] no line terminator. *)
Theorem auteur_reviewer_documented_form (a r t : jsstring) :
  forallb Page.notDash a = true -> ~ In 58%N a ->
  forallb Page.notComma r = true ->
  forallb Page.notLineEnd t = true ->
  Page.parseAuteurReviewer
    (lit "Auteur: " ++ a ++ lit " " ++ [8211%N] ++ lit " Reviewer: " ++ r
       ++ lit ", " ++ t)
  = Some {| Page.auteur := trim a;
            Page.reviewer := Some (trim r);
            Page.reviewerTitel := Some (trim t) |}.
Proof.
  intros Ha Hcolon Hr Ht. unfold Page.parseAuteurReviewer.
  set (tail := lit "Reviewer: " ++ r ++ lit ", " ++ t).
  assert (A : exists n cap,
             Page.reAuteur (lit "Auteur: " ++ a ++ lit " " ++ [8211%N] ++ lit " " ++ tail)
             = Some (n, cap) /\ trim cap = trim a).
  { unfold Page.reAuteur.
    change (startsWithCI (lit "Auteur:") (lit "Auteur: " ++ a ++ lit " " ++ [8211%N] ++ lit " " ++ tail))
      with true. cbv iota.
    change (skipn 7 (lit "Auteur: " ++ a ++ lit " " ++ [8211%N] ++ lit " " ++ tail))
      with ((32%N :: a) ++ [32%N] ++ 8211%N :: lit " " ++ tail).
    rewrite app_assoc.
    destruct (whiteThenRun_stop Page.notDash ((32%N :: a) ++ [32%N])
                (8211%N :: lit " " ++ tail) white_notDash)
      as (cap & E & T).
    - discriminate.
    - rewrite forallb_app. simpl. now rewrite Ha.
    - reflexivity.
    - rewrite E. exists (7 + length ((32%N :: a) ++ [32%N]))%nat, cap.
      split; [reflexivity |]. rewrite T.
      exact (trim_white_ends [32%N] a [32%N] eq_refl eq_refl). }
  destruct A as (n & cap & A & Tc).
  change (lit "Auteur: " ++ a ++ lit " " ++ [8211%N] ++ lit " Reviewer: " ++ r ++ lit ", " ++ t)
    with (lit "Auteur: " ++ a ++ lit " " ++ [8211%N] ++ lit " " ++ tail).
  rewrite (firstMatch_here _ _ _ _ A).
  assert (R : exists n cap title,
             Page.reReviewer tail = Some (n, (cap, Some title))
             /\ trim cap = trim r /\ trim title = trim t).
  { unfold Page.reReviewer, tail.
    change (startsWithCI (lit "Reviewer:") (lit "Reviewer: " ++ r ++ lit ", " ++ t))
      with true. cbv iota.
    change (skipn 9 (lit "Reviewer: " ++ r ++ lit ", " ++ t))
      with ((32%N :: r) ++ 44%N :: 32%N :: t).
    destruct (whiteThenRun_stop Page.notComma (32%N :: r) (44%N :: 32%N :: t)
                white_notComma)
      as (cap' & E & T); [discriminate | simpl; now rewrite Hr | reflexivity |].
    rewrite E.
    replace (skipn (9 + length (32%N :: r)) (lit "Reviewer: " ++ r ++ lit ", " ++ t))
      with (44%N :: 32%N :: t).
    2:{ change (lit "Reviewer: " ++ r ++ lit ", " ++ t)
          with (lit "Reviewer:" ++ (32%N :: r) ++ 44%N :: 32%N :: t).
        rewrite app_assoc.
        replace (9 + length (32%N :: r))%nat with (length (lit "Reviewer:" ++ 32%N :: r))
          by (rewrite length_app; reflexivity).
        rewrite skipn_app, skipn_all, Nat.sub_diag. reflexivity. }
    destruct (titleAt_line (32%N :: t)) as (k & title & Et & Tt);
      [discriminate | simpl; now rewrite Ht |].
    rewrite Et. eexists _, cap', title. split; [reflexivity |].
    split.
    - rewrite T. rewrite <- (app_nil_r r) at 1.
      exact (trim_white_ends [32%N] r [] eq_refl eq_refl).
    - rewrite Tt. rewrite <- (app_nil_r t) at 1.
      exact (trim_white_ends [32%N] t [] eq_refl eq_refl). }
  destruct R as (n' & cap' & title & R & Tr & Tt).
  assert (F : firstMatch Page.reReviewer
                (lit "Auteur: " ++ a ++ lit " " ++ [8211%N] ++ lit " " ++ tail)
              = Some (cap', Some title)).
  { replace (lit "Auteur: " ++ a ++ lit " " ++ [8211%N] ++ lit " " ++ tail)
      with ((lit "Auteur: " ++ a ++ [32%N; 8211%N; 32%N]) ++ tail)
      by (rewrite <- !app_assoc; reflexivity).
    rewrite firstMatch_skip; [exact (firstMatch_here _ _ _ _ R) |].
    intros k Hk.
    replace ((lit "Auteur: " ++ a ++ [32%N; 8211%N; 32%N]) ++ tail)
      with (lit "Auteur: " ++ (a ++ [32%N; 8211%N; 32%N] ++ lit "Reviewer")
              ++ (lit ": " ++ r ++ lit ", " ++ t))
      by (unfold tail; rewrite <- !app_assoc; reflexivity).
    apply reReviewer_not_before; [reflexivity | |].
    - intros Hin. apply in_app_or in Hin as [Hin | Hin]; [now apply Hcolon |].
      vm_compute in Hin. intuition discriminate.
    - rewrite !length_app in *. simpl length in *. lia. }
  rewrite F. cbn [option_map fst]. now rewrite Tc, Tr, Tt.
Qed.

Lemma auteur_reviewer_documented_form_witness :
  Page.parseAuteurReviewer
    (lit "Auteur: " ++ lit "Wim Tilburgs" ++ lit " " ++ [8211%N] ++ lit " Reviewer: "
       ++ lit "dr. A. Jansen" ++ lit ", " ++ lit "huisarts ")
  = Some {| Page.auteur := trim (lit "Wim Tilburgs");
            Page.reviewer := Some (trim (lit "dr. A. Jansen"));
            Page.reviewerTitel := Some (trim (lit "huisarts ")) |}.
Proof.
  apply (auteur_reviewer_documented_form
           (lit "Wim Tilburgs") (lit "dr. A. Jansen") (lit "huisarts "));
    try reflexivity.
  intros H. vm_compute in H. intuition discriminate.
Defined.

(** ** The table of contents of a page *)

Lemma str_eqb_refl a : str_eqb a a = true.
Proof. induction a as [| x a IH]; [reflexivity |]. simpl. now rewrite N.eqb_refl. Qed.

Lemma existsb_str_eqb x l : existsb (str_eqb x) l = false -> ~ In x l.
Proof.
  intros H Hin. assert (E : existsb (str_eqb x) l = true)
    by (apply existsb_exists; exists x; split; [exact Hin | apply str_eqb_refl]).
  congruence.
Qed.

Lemma pushTocItem_keeps textContentOf hrefOf st li :
  tocInvariant st -> tocInvariant (Page.pushTocItem textContentOf hrefOf st li).
Proof.
  destruct st as [items seen]. intros Hst. pose proof Hst as (Hseen & Hnd & Hok).
  unfold Page.pushTocItem.
  set (text := trim (textContentOf _)).
  destruct (isEmpty text || existsb (str_eqb text) seen) eqn:G; [exact Hst |].
  apply orb_false_elim in G as [Et Es]. apply existsb_str_eqb in Es.
  cbn [fst snd] in Hseen, Hnd, Hok.
  unfold tocInvariant. cbn [fst snd]. rewrite map_app. cbn [map Page.label].
  split; [| split].
  - intros x. rewrite in_app_iff. simpl. rewrite <- Hseen. tauto.
  - apply NoDup_app; [exact Hnd | repeat constructor; intros [] |].
    intros x Hx [<- | []]. apply Es, Hseen, Hx.
  - apply Forall_app. split; [exact Hok |]. repeat constructor; cbn [Page.label].
    + intros E. rewrite E in Et. discriminate.
    + apply trim_idempotent.
Qed.

(** X25.  In the table of contents taken from a page, the title is
    [Inhoudsopgave], there is at least one item, no two items have the same
    label, and every label is trimmed and not empty; whatever the parser
    gives as text and as [href] of a node. *)
Theorem toc_labels_distinct (textContentOf : node -> jsstring)
    (hrefOf : node -> option jsstring) (tocElement : node)
    (b : Page.InhoudsopgaveBlock) :
  Page.parseTocItems textContentOf hrefOf tocElement = Some b ->
  Page.titel b = lit "Inhoudsopgave"
  /\ Page.items b <> []
  /\ NoDup (map Page.label (Page.items b))
  /\ Forall (fun i => Page.label i <> [] /\ trim (Page.label i) = Page.label i)
            (Page.items b).
Proof.
  unfold Page.parseTocItems.
  assert (H : tocInvariant
                (fold_left (Page.pushTocItem textContentOf hrefOf)
                   (querySelectorAll selLi (Page.childNodes tocElement)) ([], []))).
  { apply (fold_left_invariant tocInvariant).
    - intros li st _. apply pushTocItem_keeps.
    - repeat split; [tauto | tauto | constructor | constructor]. }
  destruct H as (_ & Hnd & Hok).
  destruct (fst (fold_left _ _ _)) as [| i items]; [discriminate |].
  intros E. injection E as <-. cbn [Page.titel Page.items].
  split; [reflexivity |]. split; [discriminate |]. split; assumption.
Qed.

Lemma toc_labels_distinct_witness :
  let b := {| Page.titel := lit "Inhoudsopgave";
              Page.items := [ {| Page.label := lit "Wat is het";
                                 Page.anchor := Some (lit "wat") |};
                              {| Page.label := lit "Tips"; Page.anchor := None |} ] |} in
  Page.titel b = lit "Inhoudsopgave"
  /\ Page.items b <> []
  /\ NoDup (map Page.label (Page.items b))
  /\ Forall (fun i => Page.label i <> [] /\ trim (Page.label i) = Page.label i)
            (Page.items b).
Proof.
  apply (toc_labels_distinct textOf
           (fun a => match a with
                     | Elem _ attrs _ => getAttribute (lit "href") attrs
                     | Text _ => None
                     end)
           (Elem (lit "nav") []
              (parseHtml (lit "<ul><li><a href='#wat'> Wat is het </a></li><li>Tips</li><li>Wat is het</li><li> </li></ul>")))).
  vm_compute. reflexivity.
Defined.

(** ** The converter of pages *)

Lemma textToNodes_ok text :
  forallb pageBlockOk (Page.textToNodes (trim text)) = true.
Proof.
  unfold Page.textToNodes. destruct (isEmpty (trim text)) eqn:E; [reflexivity |].
  unfold Page.textToParagraph. rewrite trim_idempotent.
  unfold pageBlockOk, paragraphOk, textOk. simpl. now rewrite E.
Qed.

Lemma headingLevel_range tag level :
  Page.headingLevel tag = Some level -> N.leb 1 level && N.leb level 6 = true.
Proof.
  unfold Page.headingLevel.
  repeat match goal with
         | |- context [if ?b then _ else _] => destruct b
         end; intros H; try discriminate; injection H as <-; reflexivity.
Qed.

Lemma pushListItem_keeps textContentOf st child :
  forallb itemOk (fst st) = true ->
  forallb itemOk (fst (Page.pushListItem textContentOf st child)) = true.
Proof.
  destruct st as [listItems value]. intros H. unfold Page.pushListItem.
  destruct child as [raw | tag attrs kids]; [exact H |].
  destruct (tagIs (lit "li") tag); [| exact H].
  destruct (isEmpty (trim (textContentOf (Elem tag attrs kids)))) eqn:E;
    [exact H |].
  cbn [fst] in *. rewrite forallb_app, H. simpl. now rewrite E.
Qed.

Lemma elementToLexicalNodes_ok textContentOf el :
  forallb pageBlockOk (Page.elementToLexicalNodes textContentOf el) = true.
Proof.
  induction el as [raw | tag attrs kids IH] using node_induction.
  - apply textToNodes_ok.
  - cbn [Page.elementToLexicalNodes].
    destruct (Page.headingLevel tag) as [level |] eqn:L.
    { destruct (isEmpty (trim (textContentOf (Elem tag attrs kids)))) eqn:E;
        [reflexivity |].
      unfold pageBlockOk, headingOk, textOk. simpl.
      rewrite (headingLevel_range _ _ L), E. reflexivity. }
    destruct (tagIs (lit "p") tag); [apply textToNodes_ok |].
    destruct (tagIs (lit "ul") tag || tagIs (lit "ol") tag).
    { assert (H : forallb itemOk
                    (fst (fold_left (Page.pushListItem textContentOf) kids ([], 1%N))) = true).
      { apply (fold_left_invariant (fun st => forallb itemOk (fst st) = true));
          [| reflexivity].
        intros child st _. apply pushListItem_keeps. }
      destruct (fst (fold_left _ kids _)) as [| i items]; [reflexivity |].
      unfold pageBlockOk, listOk. cbn [forallb paragraphOk headingOk orb N.eqb Pos.eqb andb].
      cbn [forallb] in H. now rewrite H. }
    destruct (tagIn _ tag); [| apply textToNodes_ok].
    induction IH as [| k kids Hk _ IHkids]; [reflexivity |].
    simpl. rewrite forallb_app, Hk. exact IHkids.
Qed.

(** X26.  Whatever the markup, and whatever the parser gives as the text
    of a node, the converter of pages
    returns a root with at least one child: either the single paragraph
    with the empty text, or blocks that are each a paragraph with one
    non-empty text, a heading of level 1 to 6 with one non-empty text, or
    a list with at least one item, each item one paragraph with one
    non-empty text. *)
Theorem page_converter_well_formed (textContentOf : node -> jsstring)
    (html : jsstring) :
  Page.htmlToLexical textContentOf html = RootNode [ParagraphNode [TextNode []]]
  \/ exists c cs,
       Page.htmlToLexical textContentOf html = RootNode (c :: cs)
       /\ forallb pageBlockOk (c :: cs) = true.
Proof.
  unfold Page.htmlToLexical.
  assert (H : forallb pageBlockOk
                (flat_map (Page.elementToLexicalNodes textContentOf) (parseHtml html)) = true).
  { induction (parseHtml html) as [| n ns IH]; [reflexivity |].
    simpl. rewrite forallb_app, elementToLexicalNodes_ok. exact IH. }
  destruct (flat_map _ (parseHtml html)) as [| c cs].
  - left. reflexivity.
  - right. exists c, cs. split; [reflexivity | exact H].
Qed.

(** ** The sanitizer of pages *)

Lemma cleanSteps_chain ns :
  runSteps Page.cleanSteps ns
  = updateAttrs (removeAttribute (lit "style"))
      (updateAttrs (removeAttribute (lit "class"))
         (removeAll (onAttrs selHubspotCta)
            (removeAll (onAttrs Page.selSpacer)
               (removeAll (onTag "style") ns)))).
Proof. reflexivity. Qed.

(** X27.  In the tree the sanitizer of pages serialises, no element
    carries an attribute spelled [class] or [style], and no element is a
    [style] element.  Attribute names are compared by their spelling: the
    same attributes written in another case stay, as [CLASS] and [STYLE] do
    in [<p CLASS='a' STYLE='c'>x</p>]. *)
Theorem cleanHtml_unstyled :
  (forall html, allElems unstyled (Page.cleanedTree html) = true)
  /\ Page.cleanedTree (lit "<p CLASS='a' STYLE='c'>x</p>")
     = [Elem (lit "p") [(lit "CLASS", Some (lit "a")); (lit "STYLE", Some (lit "c"))]
          [Text (lit "x")]].
Proof.
  split; [| vm_compute; reflexivity]. intros html.
  unfold Page.cleanedTree. rewrite cleanSteps_chain.
  apply (updateAttrs_all
           (fun tag attrs _ => forallb (notNamed "class") attrs
                               && negb (tagIs (lit "style") tag))).
  { intros tag attrs kids H. apply andb_prop in H as [Ha Ht].
    unfold unstyled. now rewrite (strip_style _ Ha), Ht. }
  apply (updateAttrs_all (fun tag _ _ => negb (tagIs (lit "style") tag))).
  { intros tag attrs kids H. now rewrite strip_class, H. }
  apply (removeAll_all (fun tag _ _ => negb (tagIs (lit "style") tag)));
    [intros ? ? ? Hq _; exact Hq |].
  apply (removeAll_all (fun tag _ _ => negb (tagIs (lit "style") tag)));
    [intros ? ? ? Hq _; exact Hq |].
  apply (removeAll_all (fun _ _ _ => true)); [| apply allElems_trivial].
  intros tag attrs kids _ H. unfold onTag in H. now rewrite H.
Qed.

(** ** Lists of a page *)

Lemma pushListItem_fold textContentOf kids acc k :
  let texts :=
    filter nonEmpty
      (map (fun child => trim (textContentOf child))
           (filter isListItem kids)) in
  fold_left (Page.pushListItem textContentOf) kids (acc, k)
  = (acc ++ numbered k texts, (k + N.of_nat (length texts))%N).
Proof.
  revert acc k. induction kids as [| child kids IH]; intros acc k.
  - simpl. now rewrite app_nil_r, N.add_0_r.
  - cbn zeta in *. simpl fold_left. simpl filter.
    destruct child as [raw | tag attrs sub]; [apply IH |].
    cbn [isListItem Page.pushListItem]. destruct (tagIs (lit "li") tag); [| apply IH].
    cbn [map filter].
    assert (N : nonEmpty (trim (textContentOf (Elem tag attrs sub)))
                = negb (isEmpty (trim (textContentOf (Elem tag attrs sub)))))
      by reflexivity.
    rewrite N.
    destruct (isEmpty (trim (textContentOf (Elem tag attrs sub))));
      cbn [negb].
    + apply IH.
    + rewrite IH. simpl numbered. rewrite <- app_assoc. simpl app. f_equal.
      simpl length. lia.
Qed.

Lemma tagIs_other a b tag : a <> b -> tagIs a tag = true -> tagIs b tag = false.
Proof.
  intros Hab Ha. apply tagIs_eq in Ha. unfold tagIs. rewrite Ha.
  destruct (str_eqb b a) eqn:E; [| reflexivity].
  apply str_eqb_eq in E. congruence.
Qed.

(** X28.  For a [ul] or [ol] element the converter of pages gives one
    list node, numbered or not as the tag says, that starts at 1 and holds
    one item for each direct [li] child with text, in order, with values 1,
    2, 3, ... without a gap; [li] elements further down are not items of
    their own, and without any item with text nothing is given. *)
Theorem page_list_items_numbered (textContentOf : node -> jsstring)
    (tag : jsstring) (attrs : list attribute) (kids : list node) :
  tagIs (lit "ul") tag || tagIs (lit "ol") tag = true ->
  Page.elementToLexicalNodes textContentOf (Elem tag attrs kids)
  = match numbered 1
            (filter nonEmpty
               (map (fun child => trim (textContentOf child))
                    (filter isListItem kids))) with
    | [] => []
    | listItems => [ListNode (tagIs (lit "ol") tag) 1 listItems]
    end.
Proof.
  intros H. cbn [Page.elementToLexicalNodes].
  assert (T : forall name, name <> lit "ul" -> name <> lit "ol" -> tagIs name tag = false).
  { intros name H1 H2. apply orb_prop in H as [H | H].
    - apply (tagIs_other (lit "ul")); [congruence | exact H].
    - apply (tagIs_other (lit "ol")); [congruence | exact H]. }
  unfold Page.headingLevel. rewrite !T by discriminate. rewrite H.
  rewrite pushListItem_fold. cbn [fst app].
  destruct (numbered 1 _); reflexivity.
Qed.

Lemma page_list_items_numbered_witness :
  Page.elementToLexicalNodes textOf
    (Elem (lit "OL") []
       [ Elem (lit "li") [] [Text (lit " een ")];
         Text (lit " ");
         Elem (lit "li") [] [];
         Elem (lit "li") [] [Text (lit "twee");
                             Elem (lit "ul") [] [Elem (lit "li") [] [Text (lit "a")]]] ])
  = [ListNode true 1
       [ ListItemNode [ParagraphNode [TextNode (lit "een")]] 1;
         ListItemNode [ParagraphNode [TextNode (lit "tweea")]] 2 ]].
Proof.
  rewrite (page_list_items_numbered textOf (lit "OL")) by reflexivity.
  vm_compute. reflexivity.
Defined.

(** ** When no author is found *)

Lemma whiteThenRun_none p s :
  (forall c, isWhite c = true -> p c = true) ->
  Page.whiteThenRun p s = None
  <-> match s with [] => True | c :: _ => p c = false end.
Proof.
  intros Hp. unfold Page.whiteThenRun. destruct s as [| c r]; [simpl; tauto |].
  simpl takeWhile. simpl dropWhile. destruct (isWhite c) eqn:W.
  - rewrite (Hp c W). simpl rev.
    destruct (takeWhile p (dropWhile isWhite r)).
    + destruct (rev (takeWhile isWhite r) ++ [c]) eqn:R; [| split; discriminate].
      apply app_eq_nil in R as [_ R]. discriminate.
    + split; discriminate.
  - simpl takeWhile. destruct (p c); simpl; [split; discriminate | tauto].
Qed.

Lemma firstMatch_none_iff {C} (m : jsstring -> option (nat * C)) s :
  firstMatch m s = None <-> forall k, m (skipn k s) = None.
Proof.
  split; [| apply firstMatch_none].
  induction s as [| c s IH]; intros H k.
  - simpl in H. rewrite skipn_nil. now destruct (m []) as [[] |].
  - simpl in H. destruct (m (c :: s)) as [[n cap] |] eqn:E; [discriminate |].
    destruct k as [| k]; [exact E | apply IH, H].
Qed.

(** X29.  No block is given exactly when, wherever [Auteur:] stands in
    the text (in any case), it is followed at once by the end of the text,
    an en dash or a hyphen; a text that holds [Auteur:] may thus still give
    nothing. *)
Theorem auteur_reviewer_none_iff (text : jsstring) :
  Page.parseAuteurReviewer text = None <-> forall k, bareAuteurAt text k.
Proof.
  unfold Page.parseAuteurReviewer, bareAuteurAt.
  assert (E : firstMatch Page.reAuteur text = None
              <-> forall k, startsWithCI (lit "Auteur:") (skipn k text) = true ->
                            match skipn 7 (skipn k text) with
                            | [] => True
                            | c :: _ => Page.notDash c = false
                            end).
  { rewrite firstMatch_none_iff. split; intros H k; specialize (H k).
    - intros S. unfold Page.reAuteur in H. rewrite S in H.
      apply (whiteThenRun_none Page.notDash _ white_notDash).
      now destruct (Page.whiteThenRun Page.notDash (skipn 7 (skipn k text))) as [[] |].
    - unfold Page.reAuteur. destruct (startsWithCI _ (skipn k text)); [| reflexivity].
      apply (whiteThenRun_none Page.notDash _ white_notDash) in H; [| reflexivity].
      now rewrite H. }
  rewrite <- E. destruct (firstMatch Page.reAuteur text); split; congruence.
Qed.
